(** * The Trusty log ring-buffer consumer (drivers/trusty/trusty-log.c)

    A shallow embedding of [log_read_line] and [trusty_dump_logs], the
    consumer side of the single-producer ring buffer the secure side writes
    its log text into, and of the driver around them (the two notifiers,
    [trusty_supports_logging], probe, remove and shutdown), followed by the
    properties of the drain loop and of the driver's life cycle. *)

From Stdlib Require Import ZArith Lia Ascii String.
From stdpp Require Import base list list_numbers.

Local Open Scope Z_scope.

(** ** Machine integers

    Counters are [u32]; [log_read_line] takes them as [int]; lengths and
    the index mask are [size_t] (64 bits on the arm64 boards this kernel
    targets).  Values are kept in [Z] and every operation writes its
    wrap-around out.  The kernel is built with [-fno-strict-overflow], so
    [int] arithmetic wraps as well. *)

Definition u32 (x : Z) : Z := x mod 2 ^ 32.
Definition s32 (x : Z) : Z := (x + 2 ^ 31) mod 2 ^ 32 - 2 ^ 31.
Definition size_t (x : Z) : Z := x mod 2 ^ 64.

Definition TRUSTY_LINE_BUFFER_SIZE : Z := 256.

Definition NUL : ascii := "000"%char.
Definition newline : ascii := "010"%char.

(** ** Data model *)

(** Modelled from the spec: [struct log_rb] is declared in trusty-log.h,
    which is not part of the sources at hand; the fields are the ones the
    driver dereferences and the spec lists (reserved counter, committed
    counter, capacity, data region).  The producer writes [alloc], [put]
    and [data] behind the consumer's back, so each of them is a function of
    the consumer's clock, the number of loads from the ring it has done so
    far.  [sz] is set up once and is not volatile. *)
Record log_rb := {
  alloc : nat -> Z;
  put : nat -> Z;
  sz : Z;
  data : nat -> Z -> ascii;
}.

(** The part of [struct trusty_log_state] the drain touches.  [line_buffer]
    is a [char] array of [TRUSTY_LINE_BUFFER_SIZE] elements. *)
Record trusty_log_state := {
  log : log_rb;
  get : Z;
  line_buffer : list ascii;
}.

(** What the drain hands to the kernel's logging functions. *)
Inductive printk :=
  | WARN_ON
  | dev_err (msg : string)
  | dev_info (arg : list ascii).

(** Everything outside the driver's own struct.  [rate_limit k] is the
    answer of the [k]-th call of [__ratelimit(&trusty_log_rate_limit)]
    (kernel library code that looks at jiffies and at its earlier calls).
    [klog] and [reads] are oldest first; [reads] lists the offsets into
    [log->data] that were loaded. *)
Record world := {
  clock : nat;
  rate_limit : nat -> bool;
  rl_calls : nat;
  klog : list printk;
  reads : list Z;
}.

Definition tick (w : world) : world :=
  {| clock := S (clock w); rate_limit := rate_limit w;
     rl_calls := rl_calls w; klog := klog w; reads := reads w |}.

Definition emit (e : printk) (w : world) : world :=
  {| clock := clock w; rate_limit := rate_limit w;
     rl_calls := rl_calls w; klog := klog w ++ [e]; reads := reads w |}.

(** [log->data[idx]]: one volatile load. *)
Definition load_data (l : log_rb) (idx : Z) (w : world) : ascii * world :=
  (data l (clock w) idx,
   {| clock := S (clock w); rate_limit := rate_limit w;
      rl_calls := rl_calls w; klog := klog w; reads := reads w ++ [idx] |}).

Definition load_put (l : log_rb) (w : world) : Z * world :=
  (u32 (put l (clock w)), tick w).

Definition load_alloc (l : log_rb) (w : world) : Z * world :=
  (u32 (alloc l (clock w)), tick w).

(** [log->sz]: a plain [u32] field. *)
Definition load_sz (l : log_rb) : Z := u32 (sz l).

Definition __ratelimit (w : world) : bool * world :=
  (rate_limit w (rl_calls w),
   {| clock := clock w; rate_limit := rate_limit w;
      rl_calls := S (rl_calls w); klog := klog w; reads := reads w |}).

Definition set_line_buffer (s : trusty_log_state) (b : list ascii)
  : trusty_log_state :=
  {| log := log s; get := get s; line_buffer := b |}.

Definition set_get (s : trusty_log_state) (g : Z) : trusty_log_state :=
  {| log := log s; get := g; line_buffer := line_buffer s |}.

(** What [printk] prints for a ["%s"] argument: the bytes before the first
    NUL. *)
Fixpoint c_str (b : list ascii) : list ascii :=
  match b with
  | [] => []
  | c :: b' => if Ascii.eqb c NUL then [] else c :: c_str b'
  end.

(** Modelled from the spec: [is_power_of_2] comes from linux/log2.h, which
    is not part of the sources at hand; the spec only says "power of two".
    This is the kernel's one-line test. *)
Definition is_power_of_2 (n : Z) : bool :=
  negb (n =? 0) && (Z.land n (n - 1) =? 0).

(** ** log_read_line *)

(** The [for] loop of [log_read_line].  [n] is [max_to_read - i], so
    [n = 0] is the failure of [i < max_to_read]; [c] is the last character
    copied, [get] the running [int] source counter. *)
Fixpoint read_loop (l : log_rb) (mask : Z) (n : nat) (i : nat) (c : ascii)
    (get : Z) (buf : list ascii) (w : world) : nat * list ascii * world :=
  match n with
  | O => (i, buf, w)
  | S n' =>
      if Ascii.eqb c newline then (i, buf, w)
      else
        let '(c', w') := load_data l (Z.land (size_t get) mask) w in
        read_loop l mask n' (S i) c' (s32 (get + 1)) (<[i := c']> buf) w'
  end.

(** [put] and [get] are the [int] parameters. *)
Definition log_read_line (s : trusty_log_state) (put get : Z) (w : world)
  : Z * trusty_log_state * world :=
  let max_to_read :=
    Z.min (size_t (s32 (put - get))) (size_t (TRUSTY_LINE_BUFFER_SIZE - 1)) in
  let mask := size_t (u32 (load_sz (log s) - 1)) in
  let '(i, buf, w') :=
    read_loop (log s) mask (Z.to_nat max_to_read) 0%nat NUL get
              (line_buffer s) w in
  (Z.of_nat i, set_line_buffer s (<[i := NUL]> buf), w').

(** ** trusty_dump_logs *)

Inductive iter_result :=
  | Break
  | Next (get : Z).

(** One evaluation of the [while] condition and, when it holds, of the
    loop body, for the local [get]. *)
Definition dump_iter (s : trusty_log_state) (get : Z) (w : world)
  : iter_result * trusty_log_state * world :=
  let '(put, w1) := load_put (log s) w in
  if put =? get then (Break, s, w1)
  else
    let '(read_chars, s2, w2) := log_read_line s (s32 put) (s32 get) w1 in
    let '(alloc, w3) := load_alloc (log s) w2 in
    if u32 (alloc - get) >? load_sz (log s) then
      (Next (u32 (alloc - load_sz (log s))), s2,
       emit (dev_err "log overflow.") w3)
    else
      let '(ok, w4) := __ratelimit w3 in
      let w5 := if ok then emit (dev_info (line_buffer s2)) w4 else w4 in
      (Next (u32 (get + read_chars)), s2, w5).

(** The [while] loop; [None] when [fuel] iterations were not enough to
    leave it.  The state reached is returned in both cases. *)
Fixpoint dump_loop (fuel : nat) (s : trusty_log_state) (get : Z) (w : world)
  : option Z * trusty_log_state * world :=
  match fuel with
  | O => (None, s, w)
  | S fuel' =>
      match dump_iter s get w with
      | (Break, s', w') => (Some get, s', w')
      | (Next get', s', w') => dump_loop fuel' s' get' w'
      end
  end.

(** The boolean tells whether the function returned within [fuel] loop
    iterations. *)
Definition trusty_dump_logs (fuel : nat) (s : trusty_log_state) (w : world)
  : bool * trusty_log_state * world :=
  if negb (is_power_of_2 (load_sz (log s))) then (true, s, emit WARN_ON w)
  else
    match dump_loop fuel s (u32 (get s)) w with
    | (Some get', s', w') => (true, set_get s' get', w')
    | (None, s', w') => (false, s', w')
    end.

(** ** Rings that stand still, and the producer *)

(** A ring the producer does not touch while the consumer runs. *)
Definition static_rb (a p size : Z) (d : Z -> ascii) : log_rb :=
  {| alloc := fun _ => a; put := fun _ => p; sz := size;
     data := fun _ => d |}.

(** The data region given as the list of its bytes. *)
Definition region (bytes : list ascii) : Z -> ascii :=
  fun idx => nth (Z.to_nat idx) bytes NUL.

(** What the producer has left in shared memory at some moment: reserved
    counter, committed counter, capacity, data region. *)
Record ring := {
  r_alloc : Z;
  r_put : Z;
  r_sz : Z;
  r_data : list ascii;
}.

(** Modelled from the spec: the producer runs on the secure side and is not
    part of the sources at hand.  It puts a byte at the reserved counter,
    index masked by capacity - 1, and advances that counter. *)
Definition producer_put_char (r : ring) (c : ascii) : ring :=
  {| r_alloc := u32 (r_alloc r + 1); r_put := r_put r; r_sz := r_sz r;
     r_data := <[Z.to_nat (Z.land (r_alloc r) (r_sz r - 1)) := c]> (r_data r) |}.

(** Modelled from the spec: one write of the producer, which is not part of
    the sources at hand: the bytes go in one after the other, then the
    committed counter is moved up to the reserved one. *)
Definition producer_write (r : ring) (bytes : list ascii) : ring :=
  let r' := fold_left producer_put_char bytes r in
  {| r_alloc := r_alloc r'; r_put := r_alloc r'; r_sz := r_sz r';
     r_data := r_data r' |}.

(** A zeroed ring of the given capacity, as the driver's probe sets it up. *)
Definition empty_ring (size : Z) : ring :=
  {| r_alloc := 0; r_put := 0; r_sz := size;
     r_data := replicate (Z.to_nat size) NUL |}.

Definition frozen (r : ring) : log_rb :=
  static_rb (r_alloc r) (r_put r) (r_sz r) (region (r_data r)).

(** The driver state after probe ([kzalloc], [s->get = 0]), looking at the
    ring [l]. *)
Definition probed (l : log_rb) : trusty_log_state :=
  {| log := l; get := 0;
     line_buffer := replicate (Z.to_nat TRUSTY_LINE_BUFFER_SIZE) NUL |}.

(** The world at boot, with the given rate limiter answers. *)
Definition boot (rl : nat -> bool) : world :=
  {| clock := 0; rate_limit := rl; rl_calls := 0; klog := []; reads := [] |}.

(** The text of a log entry as the sink prints it. *)
Definition printed (e : printk) : list ascii :=
  match e with
  | WARN_ON => list_ascii_of_string "WARNING"
  | dev_err msg => list_ascii_of_string msg
  | dev_info arg => c_str arg
  end.

Definition is_dev_err (e : printk) : bool :=
  match e with dev_err _ => true | _ => false end.

(** ** Vocabulary for the statements *)

(** The world after loading the offsets [idxs] of the data region. *)
Definition after_reads (w : world) (idxs : list Z) : world :=
  {| clock := length idxs + clock w; rate_limit := rate_limit w;
     rl_calls := rl_calls w; klog := klog w; reads := reads w ++ idxs |}.

(** The offsets of [k] successive loads of [data[get++ & mask]]. *)
Fixpoint offsets (mask get : Z) (k : nat) : list Z :=
  match k with
  | O => []
  | S k' => Z.land (size_t get) mask :: offsets mask (s32 (get + 1)) k'
  end.

(** The bytes found at the offsets [idxs], loaded one per tick from [t]. *)
Fixpoint source (l : log_rb) (t : nat) (idxs : list Z) : list ascii :=
  match idxs with
  | [] => []
  | idx :: rest => data l t idx :: source l (S t) rest
  end.

(** The local [max_to_read] of [log_read_line] for the [int] arguments
    [put] and [get]. *)
Definition max_to_read (put get : Z) : Z :=
  Z.min (size_t (s32 (put - get))) (size_t (TRUSTY_LINE_BUFFER_SIZE - 1)).

(** What one loop iteration started in world [w] with the local cursor
    [get] observes: the committed counter it loads, the result of its call
    of [log_read_line], and the reserved counter it loads after the copy. *)
Definition seen_put (s : trusty_log_state) (w : world) : Z :=
  (load_put (log s) w).1.

Definition line_read (s : trusty_log_state) (get : Z) (w : world)
  : Z * trusty_log_state * world :=
  log_read_line s (s32 (seen_put s w)) (s32 get) (load_put (log s) w).2.

Definition seen_alloc (s : trusty_log_state) (get : Z) (w : world) : Z :=
  (load_alloc (log s) (line_read s get w).2).1.

(** [w'] is [w] after some more loads from the data region, all at offsets
    satisfying [P]. *)
Definition reads_extend (P : Z -> Prop) (w w' : world) : Prop :=
  exists idxs, reads w' = reads w ++ idxs /\ Forall P idxs.

(** ** The scenarios of the specification *)

(** Capacity 16, all counters 0, then the producer writes ["hi\n"]. *)
Definition ring_hi : ring :=
  producer_write (empty_ring 16) ["h"; "i"; newline]%char.

(** Capacity 16, all counters 0, then the producer writes 20 bytes, none of
    them a newline, before the consumer runs. *)
Definition twenty_bytes : list ascii :=
  list_ascii_of_string "abcdefghijklmnopqrst".

Definition ring_20 : ring := producer_write (empty_ring 16) twenty_bytes.

(** A ring that stands still with its reserved counter more than the
    capacity ahead of the committed one: capacity 16, committed counter 10,
    reserved counter 100, no newline in the data region. *)
Definition ring_ahead : log_rb := static_rb 100 10 16 (fun _ => "x"%char).

(** How far a drain of the still ring with reserved counter [a],
    committed counter [p] and capacity [c] is from leaving its loop when
    the cursor is [g]: the bytes left up to [p] when [g] is inside the
    window behind [a]; more than any such count when an overflow is pending
    or when [g] is past [p]. *)
Definition pending_work (a p c g : Z) : Z :=
  let x := u32 (a - g) in
  if x >? u32 c then u32 c + 1
  else if u32 (a - p) <=? x then x - u32 (a - p)
  else u32 c + 2 + x.

(** ** Repeated drains *)

Definition set_log (s : trusty_log_state) (l : log_rb) : trusty_log_state :=
  {| log := l; get := get s; line_buffer := line_buffer s |}.

(** One drain per element of [rs]: the producer runs between two drains
    and stands still during each, and [rs] lists what it has left in the
    shared memory when each drain starts.  The driver state is carried from
    one drain to the next. *)
Fixpoint drains (fuel : nat) (rs : list ring) (s : trusty_log_state)
    (w : world) : bool * trusty_log_state * world :=
  match rs with
  | [] => (true, s, w)
  | r :: rest =>
      match trusty_dump_logs fuel (set_log s (frozen r)) w with
      | (true, s', w') => drains fuel rest s' w'
      | stuck => stuck
      end
  end.

(** The bytes a still ring of capacity [c] with data [d] holds at the
    counters [g], [g + 1], ..., [g + n - 1]. *)
Definition ring_bytes (c : Z) (d : Z -> ascii) (g : Z) (n : nat)
  : list ascii :=
  map (fun j : nat => d (Z.land (u32 (g + Z.of_nat j)) (u32 c - 1))) (seq 0 n).

(** The ring [r] holds [text] between the cursor [g] and its committed
    counter, and its reserved counter is not behind the committed one and at
    most the capacity ahead of the cursor. *)
Definition holds_text (r : ring) (g : Z) (text : list ascii) : Prop :=
  u32 (r_put r) = u32 (g + Z.of_nat (length text)) /\
  Z.of_nat (length text) <= u32 (r_alloc r - g) /\
  u32 (r_alloc r - g) <= u32 (r_sz r) /\
  ring_bytes (r_sz r) (region (r_data r)) g (length text) = text.

(** The writes [ws], one per drain, are what the rings [rs] of capacity [c]
    hold, each from where the drain before it has left the cursor. *)
Fixpoint follows (c : Z) (g : Z) (ws : list (list ascii)) (rs : list ring)
  : Prop :=
  match ws, rs with
  | [], [] => True
  | text :: ws', r :: rs' =>
      u32 (r_sz r) = u32 c /\ holds_text r g text /\
      follows c (u32 (g + Z.of_nat (length text))) ws' rs'
  | _, _ => False
  end.

(** The first line of [text] for a line buffer that takes [n] bytes: up to
    and including the first newline, [n] bytes at most; and what is left of
    [text] behind it. *)
Fixpoint take_line (n : nat) (text : list ascii) : list ascii * list ascii :=
  match n, text with
  | S n', c :: text' =>
      if Ascii.eqb c newline then ([c], text')
      else let '(line, rest) := take_line n' text' in (c :: line, rest)
  | _, _ => ([], text)
  end.

(** [text] cut into lines of at most [n] bytes.  [fuel] bounds the number
    of lines. *)
Fixpoint cut_lines (fuel n : nat) (text : list ascii) : list (list ascii) :=
  match fuel, text with
  | S fuel', _ :: _ =>
      let '(line, rest) := take_line n text in line :: cut_lines fuel' n rest
  | _, _ => []
  end.

(** The lines the drain makes of one write: cut behind every newline and
    behind every 255th byte of a longer stretch. *)
Definition lines_255 (text : list ascii) : list (list ascii) :=
  cut_lines (length text) 255 text.

(** The first newline-delimited line of [text], newline included, and what
    is left behind it. *)
Fixpoint first_line (text : list ascii) : list ascii * list ascii :=
  match text with
  | [] => ([], [])
  | c :: text' =>
      if Ascii.eqb c newline then ([c], text')
      else let '(line, rest) := first_line text' in (c :: line, rest)
  end.

Fixpoint split_lines (fuel : nat) (text : list ascii) : list (list ascii) :=
  match fuel, text with
  | S fuel', _ :: _ =>
      let '(line, rest) := first_line text in line :: split_lines fuel' rest
  | _, _ => []
  end.

(** The newline-delimited lines of a text, whatever their length. *)
Definition lines_of (text : list ascii) : list (list ascii) :=
  split_lines (length text) text.

(** [text] stops at a line end. *)
Definition ends_line (text : list ascii) : Prop :=
  text = [] \/ last text = Some newline.

(** The lines that get past the rate limiter, which has answered [k] calls
    before. *)
Fixpoint passed (rl : nat -> bool) (k : nat) (lines : list (list ascii))
  : list (list ascii) :=
  match lines with
  | [] => []
  | line :: rest =>
      if rl k then line :: passed rl (S k) rest else passed rl (S k) rest
  end.

(** The line buffer [buf] starts with [line], NUL behind it. *)
Definition holds_line (buf line : list ascii) : Prop :=
  exists rest, buf = line ++ NUL :: rest.

(** The producer writes ["a"], the consumer drains, the producer writes
    ["b\n"], the consumer drains. *)
Definition ring_a : ring := producer_write (empty_ring 16) ["a"%char].
Definition ring_ab : ring := producer_write ring_a ["b"%char; newline].

(** ** Counting what a drain prints *)

Definition is_dev_info (e : printk) : bool :=
  match e with dev_info _ => true | _ => false end.

(** How often the rate limiter says yes to the [n] calls that follow its
    first [k]. *)
Definition approvals (rl : nat -> bool) (k n : nat) : nat :=
  length (List.filter rl (seq k n)).

(** ** The driver around the drain *)

(** Modelled from the spec: the constants below come from headers that are
    not part of the sources at hand (linux/notifier.h, linux/trusty/trusty.h,
    linux/trusty/smcall.h, the errno numbers, asm/page.h); the spec names
    the collaborators they belong to and gives no values, so they are
    parameters of the model. *)
Record headers := {
  NOTIFY_DONE : Z;
  NOTIFY_OK : Z;
  TRUSTY_CALL_RETURNED : Z;
  SM_ERR_UNDEFINED_SMC : Z;
  TRUSTY_LOG_API_VERSION : Z;
  TRUSTY_CONSOLE_DISABLE : Z;
  ENXIO : Z;
  ENOMEM : Z;
  PAGE_SIZE : Z;
}.

Definition TRUSTY_LOG_SIZE (h : headers) : Z := PAGE_SIZE h * 2.

(** Modelled from the spec: the service numbers of linux/trusty/smcall.h,
    which is not part of the sources at hand; the driver asks the secure
    side for these four. *)
Inductive smc :=
  | SMC_SC_SHARED_LOG_VERSION
  | SMC_SC_SHARED_LOG_ADD
  | SMC_SC_SHARED_LOG_RM
  | SMC_SC_SHARED_CONSOLE_CTL.

(** [trusty_shared_mem_id_t] is a 64-bit unsigned integer. *)
Definition u64 (x : Z) : Z := x mod 2 ^ 64.

(** [struct trusty_log_state] as the notifiers, probe and remove see it:
    the fields of the drain, the spin lock (held or free) and the id under
    which the log pages are shared. *)
Record trusty_log_device := {
  drain_state : trusty_log_state;
  lock : bool;
  log_pages_shared_mem_id : Z;
}.

(** The calls that leave the driver in probe and remove, each with the
    arguments that matter and with what it returned.  Messages are the
    format strings as the source spells them, escapes included. *)
Inductive kcall :=
  | trusty_std_call32 (smcnr : smc) (a0 a1 a2 : Z) (ret : Z)
  | kzalloc (ok : bool)
  | alloc_pages (ok : bool)
  | trusty_share_memory_compat (ret : Z) (mem_id : Z)
  | trusty_reclaim_memory (mem_id : Z) (ret : Z)
  | trusty_call_notifier_register (ret : Z)
  | trusty_call_notifier_unregister
  | atomic_notifier_chain_register (ret : Z)
  | atomic_notifier_chain_unregister
  | __free_pages
  | kfree
  | platform_set_drvdata
  | pr_err (msg : string)
  | log_call (e : printk).

(** Modelled from the spec: the collaborators of its section 6 (secure-side
    transport, shared memory setup, notification, kernel allocators) are
    not part of the sources at hand.  A [platform] holds what each of them
    answers during one call of probe or remove: the [int] returned by
    [trusty_std_call32] for each service, whether [kzalloc] succeeds, the
    zeroed pages [alloc_pages] hands out (as the ring the consumer will see
    in them) or [None], the result and the memory id of
    [trusty_share_memory_compat], and the results of
    [trusty_reclaim_memory] and of the two notifier registrations. *)
Record platform := {
  std_call32 : smc -> Z;
  kzalloc_ok : bool;
  log_pages : option log_rb;
  share_memory : Z * Z;
  reclaim_memory : Z;
  call_notifier_register : Z;
  panic_notifier_register : Z;
}.

(** *** The notifiers *)

(** [spin_lock_irqsave] on a held lock spins until another CPU releases
    it; nothing else runs in this model, so the call does not return
    ([None]).  A drain that does not leave its loop within [fuel]
    iterations does not return either. *)
Definition trusty_log_call_notify (h : headers) (fuel : nat) (action : Z)
    (s : trusty_log_device) (w : world)
  : option (Z * trusty_log_device * world) :=
  if negb (action =? TRUSTY_CALL_RETURNED h) then Some (NOTIFY_DONE h, s, w)
  else if lock s then None
  else
    match trusty_dump_logs fuel (drain_state s) w with
    | (true, st, w') =>
        Some (NOTIFY_OK h,
              {| drain_state := st; lock := false;
                 log_pages_shared_mem_id := log_pages_shared_mem_id s |},
              w')
    | (false, _, _) => None
    end.

Definition panic_banner : list ascii :=
  list_ascii_of_string "panic notifier - trusty version ".

(** [version_str] is what [trusty_version_str_get] returns; the entry
    carries the message with the string in the place of its ["%s"]. *)
Definition trusty_log_panic_notify (h : headers) (fuel : nat)
    (version_str : list ascii) (action : Z) (s : trusty_log_device)
    (w : world) : option (Z * trusty_log_device * world) :=
  let w1 := emit (dev_info (panic_banner ++ version_str)) w in
  match trusty_dump_logs fuel (drain_state s) w1 with
  | (true, st, w') =>
      Some (NOTIFY_OK h,
            {| drain_state := st; lock := lock s;
               log_pages_shared_mem_id := log_pages_shared_mem_id s |},
            w')
  | (false, _, _) => None
  end.

(** *** trusty_supports_logging *)

(** [result] is an [int]; [SM_ERR_UNDEFINED_SMC] is an unsigned 32-bit
    constant, so the first comparison is made in [u32]. *)
Definition trusty_supports_logging (h : headers) (p : platform)
    (t : list kcall) : bool * list kcall :=
  let result := s32 (std_call32 p SMC_SC_SHARED_LOG_VERSION) in
  let t1 := t ++ [trusty_std_call32 SMC_SC_SHARED_LOG_VERSION
                    (u32 (TRUSTY_LOG_API_VERSION h)) 0 0 result] in
  if u32 result =? u32 (SM_ERR_UNDEFINED_SMC h) then
    (false,
     t1 ++ [log_call (dev_info (list_ascii_of_string
              "trusty-log not supported on secure side.\n"))])
  else if result <? 0 then
    (false,
     t1 ++ [log_call (dev_err
              "trusty std call (SMC_SC_SHARED_LOG_VERSION) failed: %d\n")])
  else if negb (result =? TRUSTY_LOG_API_VERSION h) then
    (false,
     t1 ++ [log_call (dev_info (list_ascii_of_string
              "unsupported api version: %d, supported: %d\n"))])
  else (true, t1).

(** *** trusty_log_probe *)

(** The labels at the end of [trusty_log_probe], last one first; each
    falls through to the one below it in the source. *)
Definition error_alloc_state (result : Z) (t : list kcall)
  : Z * option trusty_log_device * list kcall :=
  (result, None, t).

Definition error_alloc_log (result : Z) (t : list kcall)
  : Z * option trusty_log_device * list kcall :=
  error_alloc_state result (t ++ [kfree]).

Definition err_share_memory (result : Z) (t : list kcall)
  : Z * option trusty_log_device * list kcall :=
  error_alloc_log result (t ++ [__free_pages]).

Definition error_std_call (p : platform) (result mem_id : Z) (t : list kcall)
  : Z * option trusty_log_device * list kcall :=
  let reclaimed := s32 (reclaim_memory p) in
  let t1 := t ++ [trusty_reclaim_memory mem_id reclaimed] in
  if negb (reclaimed =? 0) then
    error_alloc_log result
      (t1 ++ [log_call WARN_ON;
              log_call (dev_err "trusty_revoke_memory failed: %d 0x%llx\n")])
  else err_share_memory result t1.

Definition error_call_notifier (p : platform) (result mem_id : Z)
    (t : list kcall) : Z * option trusty_log_device * list kcall :=
  error_std_call p result mem_id
    (t ++ [trusty_std_call32 SMC_SC_SHARED_LOG_RM
             (u32 mem_id) (u32 (Z.shiftr mem_id 32)) 0
             (s32 (std_call32 p SMC_SC_SHARED_LOG_RM))]).

Definition error_panic_notifier (p : platform) (result mem_id : Z)
    (t : list kcall) : Z * option trusty_log_device * list kcall :=
  error_call_notifier p result mem_id (t ++ [trusty_call_notifier_unregister]).

(** The result, the driver data set on success, and the calls made. *)
Definition trusty_log_probe (h : headers) (p : platform) (t : list kcall)
  : Z * option trusty_log_device * list kcall :=
  let '(supported, t0) := trusty_supports_logging h p t in
  if negb supported then (s32 (- ENXIO h), None, t0)
  else
    let t1 := t0 ++ [kzalloc (kzalloc_ok p)] in
    if negb (kzalloc_ok p) then error_alloc_state (s32 (- ENOMEM h)) t1
    else
      match log_pages p with
      | None => error_alloc_log (s32 (- ENOMEM h)) (t1 ++ [alloc_pages false])
      | Some l =>
          let t2 := t1 ++ [alloc_pages true] in
          let result := s32 (share_memory p).1 in
          let mem_id := u64 (share_memory p).2 in
          let t3 := t2 ++ [trusty_share_memory_compat result mem_id] in
          if negb (result =? 0) then
            err_share_memory result
              (t3 ++ [log_call (dev_err "trusty_share_memory failed: %d\n")])
          else
            let result := s32 (std_call32 p SMC_SC_SHARED_LOG_ADD) in
            let t4 := t3 ++ [trusty_std_call32 SMC_SC_SHARED_LOG_ADD
                               (u32 mem_id) (u32 (Z.shiftr mem_id 32))
                               (u32 (TRUSTY_LOG_SIZE h)) result] in
            if result <? 0 then
              error_std_call p result mem_id
                (t4 ++ [log_call (dev_err
                   "trusty std call (SMC_SC_SHARED_LOG_ADD) failed: %d 0x%llx\n")])
            else
              let result := s32 (std_call32 p SMC_SC_SHARED_CONSOLE_CTL) in
              let t5 := t4 ++ [trusty_std_call32 SMC_SC_SHARED_CONSOLE_CTL
                                 (u32 (TRUSTY_CONSOLE_DISABLE h)) 0 0 result] in
              let t6 :=
                if negb (result =? 0) then
                  t5 ++ [pr_err
                    "trusty std call SMC_SC_SHARED_CONSOLE_CTL shutdown console failed\n"]
                else t5 in
              let result := s32 (call_notifier_register p) in
              let t7 := t6 ++ [trusty_call_notifier_register result] in
              if result <? 0 then
                error_call_notifier p result mem_id
                  (t7 ++ [log_call (dev_err
                     "failed to register trusty call notifier\n")])
              else
                let result := s32 (panic_notifier_register p) in
                let t8 := t7 ++ [atomic_notifier_chain_register result] in
                if result <? 0 then
                  error_panic_notifier p result mem_id
                    (t8 ++ [log_call (dev_err
                       "failed to register panic notifier\n")])
                else
                  (0,
                   Some {| drain_state := probed l; lock := false;
                           log_pages_shared_mem_id := mem_id |},
                   t8 ++ [platform_set_drvdata])
      end.

(** *** trusty_log_remove and trusty_log_shutdown *)

Definition trusty_log_remove (p : platform) (s : trusty_log_device)
    (t : list kcall) : Z * list kcall :=
  let mem_id := log_pages_shared_mem_id s in
  let t1 := t ++ [atomic_notifier_chain_unregister;
                  trusty_call_notifier_unregister] in
  let result := s32 (std_call32 p SMC_SC_SHARED_LOG_RM) in
  let t2 := t1 ++ [trusty_std_call32 SMC_SC_SHARED_LOG_RM
                     (u32 mem_id) (u32 (Z.shiftr mem_id 32)) 0 result] in
  let t3 :=
    if negb (result =? 0) then
      t2 ++ [log_call (dev_err
               "trusty std call (SMC_SC_SHARED_LOG_RM) failed: %d\n")]
    else t2 in
  let result := s32 (reclaim_memory p) in
  let t4 := t3 ++ [trusty_reclaim_memory mem_id result] in
  let t5 :=
    if negb (result =? 0) then
      t4 ++ [log_call WARN_ON;
             log_call (dev_err "trusty failed to remove shared memory: %d\n")]
    else t4 ++ [__free_pages] in
  (0, t5 ++ [kfree]).

Definition trusty_log_shutdown (p : platform) (s : trusty_log_device)
    (t : list kcall) : list kcall :=
  (trusty_log_remove p s t).2.

(** *** What the calls do to the resources *)

(** Modelled from the spec: the meaning of the calls below belongs to kernel
    and secure-side code that is not part of the sources at hand; the spec
    (sections 6 and 7) speaks of resources that are acquired, released in
    reverse order, and leaked rather than freed while the secure side may
    still reference them.  [resources] is what one driver instance holds:
    its struct, the log pages, the id under which the pages are shared, the
    two id words under which they are registered as the log, and the two
    notifier registrations. *)
Record resources := {
  state_mem : bool;
  pages : bool;
  shared : option Z;
  log_region : option (Z * Z);
  call_notifier : bool;
  panic_notifier : bool;
}.

Definition nothing : resources :=
  {| state_mem := false; pages := false; shared := None; log_region := None;
     call_notifier := false; panic_notifier := false |}.

(** [lo] and [hi] are the low and the high 32-bit word of [id]. *)
Definition splits (id lo hi : Z) : bool :=
  (lo + 2 ^ 32 * hi =? id) && (0 <=? lo) && (lo <? 2 ^ 32).

(** Modelled from the spec: see [resources].  The effect of one call;
    [None] for a call that must not be made in that situation: freeing the
    pages while they are shared or were never allocated, freeing the struct
    while a notifier inside it is registered, releasing what is not held,
    acquiring what is held already, reclaiming or deregistering under an id
    other than the one in use, registering as the log words that are not
    those of the shared id. *)
Definition track (r : resources) (c : kcall) : option resources :=
  match c with
  | kzalloc false => Some r
  | kzalloc true =>
      if state_mem r then None
      else Some {| state_mem := true; pages := pages r; shared := shared r;
                   log_region := log_region r;
                   call_notifier := call_notifier r;
                   panic_notifier := panic_notifier r |}
  | kfree =>
      if state_mem r && negb (call_notifier r) && negb (panic_notifier r) then
        Some {| state_mem := false; pages := pages r; shared := shared r;
                log_region := log_region r;
                call_notifier := false; panic_notifier := false |}
      else None
  | alloc_pages false => Some r
  | alloc_pages true =>
      if state_mem r && negb (pages r) then
        Some {| state_mem := state_mem r; pages := true; shared := shared r;
                log_region := log_region r;
                call_notifier := call_notifier r;
                panic_notifier := panic_notifier r |}
      else None
  | __free_pages =>
      match pages r, shared r with
      | true, None =>
          Some {| state_mem := state_mem r; pages := false; shared := None;
                  log_region := log_region r;
                  call_notifier := call_notifier r;
                  panic_notifier := panic_notifier r |}
      | _, _ => None
      end
  | trusty_share_memory_compat ret id =>
      if negb (ret =? 0) then Some r
      else
        match pages r, shared r with
        | true, None =>
            Some {| state_mem := state_mem r; pages := true;
                    shared := Some id; log_region := log_region r;
                    call_notifier := call_notifier r;
                    panic_notifier := panic_notifier r |}
        | _, _ => None
        end
  | trusty_reclaim_memory id ret =>
      match shared r with
      | Some id' =>
          if negb (id =? id') then None
          else if negb (ret =? 0) then Some r
          else Some {| state_mem := state_mem r; pages := pages r;
                       shared := None; log_region := log_region r;
                       call_notifier := call_notifier r;
                       panic_notifier := panic_notifier r |}
      | None => None
      end
  | trusty_std_call32 SMC_SC_SHARED_LOG_ADD lo hi _ ret =>
      match shared r, log_region r with
      | Some id, None =>
          if negb (splits id lo hi) then None
          else if ret <? 0 then Some r
          else Some {| state_mem := state_mem r; pages := pages r;
                       shared := shared r; log_region := Some (lo, hi);
                       call_notifier := call_notifier r;
                       panic_notifier := panic_notifier r |}
      | _, _ => None
      end
  | trusty_std_call32 SMC_SC_SHARED_LOG_RM lo hi _ ret =>
      match log_region r with
      | Some (lo', hi') =>
          if negb ((lo =? lo') && (hi =? hi')) then None
          else if negb (ret =? 0) then Some r
          else Some {| state_mem := state_mem r; pages := pages r;
                       shared := shared r; log_region := None;
                       call_notifier := call_notifier r;
                       panic_notifier := panic_notifier r |}
      | None => None
      end
  | trusty_std_call32 _ _ _ _ _ => Some r
  | trusty_call_notifier_register ret =>
      if ret <? 0 then Some r
      else if state_mem r && negb (call_notifier r) then
        Some {| state_mem := state_mem r; pages := pages r;
                shared := shared r; log_region := log_region r;
                call_notifier := true; panic_notifier := panic_notifier r |}
      else None
  | trusty_call_notifier_unregister =>
      if call_notifier r then
        Some {| state_mem := state_mem r; pages := pages r;
                shared := shared r; log_region := log_region r;
                call_notifier := false; panic_notifier := panic_notifier r |}
      else None
  | atomic_notifier_chain_register ret =>
      if ret <? 0 then Some r
      else if state_mem r && negb (panic_notifier r) then
        Some {| state_mem := state_mem r; pages := pages r;
                shared := shared r; log_region := log_region r;
                call_notifier := call_notifier r; panic_notifier := true |}
      else None
  | atomic_notifier_chain_unregister =>
      if panic_notifier r then
        Some {| state_mem := state_mem r; pages := pages r;
                shared := shared r; log_region := log_region r;
                call_notifier := call_notifier r; panic_notifier := false |}
      else None
  | platform_set_drvdata => if state_mem r then Some r else None
  | pr_err _ => Some r
  | log_call _ => Some r
  end.

(** The resources held after the calls [t], made one after the other. *)
Fixpoint tracked (r : resources) (t : list kcall) : option resources :=
  match t with
  | [] => Some r
  | c :: t' =>
      match track r c with
      | Some r' => tracked r' t'
      | None => None
      end
  end.

(** Everything a successful probe holds, for the memory id [id]. *)
Definition attached (id : Z) : resources :=
  {| state_mem := true; pages := true; shared := Some id;
     log_region := Some (u32 id, u32 (Z.shiftr id 32));
     call_notifier := true; panic_notifier := true |}.

(** What stays behind when the pages could not be reclaimed: the pages
    themselves, still shared under [id], and whatever [logged] registration
    the secure side keeps. *)
Definition leaked (id : Z) (logged : option (Z * Z)) : resources :=
  {| state_mem := false; pages := true; shared := Some id;
     log_region := logged; call_notifier := false; panic_notifier := false |}.

(** One choice of values for the constants. *)
Definition sample_headers : headers :=
  {| NOTIFY_DONE := 0; NOTIFY_OK := 1; TRUSTY_CALL_RETURNED := 1;
     SM_ERR_UNDEFINED_SMC := 4294967295; TRUSTY_LOG_API_VERSION := 1;
     TRUSTY_CONSOLE_DISABLE := 0; ENXIO := 6; ENOMEM := 12;
     PAGE_SIZE := 4096 |}.

(** A platform on which every call succeeds, handing out the pages [l]
    under the memory id [id]. *)
Definition willing (l : log_rb) (id : Z) : platform :=
  {| std_call32 := fun nr =>
       match nr with SMC_SC_SHARED_LOG_VERSION => 1 | _ => 0 end;
     kzalloc_ok := true; log_pages := Some l; share_memory := (0, id);
     reclaim_memory := 0; call_notifier_register := 0;
     panic_notifier_register := 0 |}.

(** ** A producer that runs while the consumer does *)

(** The bytes of [stream] at the counts [G], [G + 1], ..., [G + n - 1]. *)
Definition segment (stream : Z -> ascii) (G : Z) (n : nat) : list ascii :=
  map (fun j : nat => stream (G + Z.of_nat j)) (seq 0 n).

(** Modelled from the spec: the producer runs on the secure side and is not
    part of the sources at hand.  The ring [l] carries the bytes of
    [stream], appended by a producer that runs while the consumer does and
    between its drains: at every clock of the consumer [put l] and
    [alloc l] are the numbers of bytes committed and reserved so far (the
    shared memory holds their low 32 bits), they never go back, what is
    committed has been reserved, and the byte with count [j] is found in
    the data region at the index [j] masked by capacity - 1 from the
    moment it is committed until the reserved count is more than the
    capacity ahead of it. *)
Definition carries (l : log_rb) (stream : Z -> ascii) : Prop :=
  (forall t, put l t <= put l (S t)) /\
  (forall t, alloc l t <= alloc l (S t)) /\
  (forall t, put l t <= alloc l t) /\
  (forall t j,
     0 <= j -> alloc l t - u32 (sz l) <= j < put l t ->
     data l t (Z.land (u32 j) (u32 (sz l) - 1)) = stream j).

(** The lines cut from [stream] by a consumer whose cursor starts at the
    count [G] and which finds the committed count at [looks], one look per
    line: each line is what is committed beyond the cursor, up to and
    including its first newline, 255 bytes at most. *)
Fixpoint cut_at (stream : Z -> ascii) (G : Z) (looks : list Z)
  : list (list ascii) :=
  match looks with
  | [] => []
  | P :: rest =>
      let line := (take_line 255 (segment stream G (Z.to_nat (P - G)))).1 in
      line :: cut_at stream (G + Z.of_nat (length line)) rest
  end.

(** In the first [fuel] iterations of the drain loop entered with the
    cursor at the count [G], the reserved count is at most the capacity
    ahead of the cursor every time the consumer loads a counter: the
    committed one at the top of an iteration, the reserved one behind the
    copy. *)
Fixpoint loop_within (fuel : nat) (s : trusty_log_state) (G : Z) (w : world)
  : Prop :=
  match fuel with
  | O => True
  | S fuel' =>
      alloc (log s) (clock w) - G <= u32 (sz (log s)) /\
      (put (log s) (clock w) = G \/
       alloc (log s) (clock (line_read s (u32 G) w).2) - G
         <= u32 (sz (log s)) /\
       loop_within fuel' (line_read s (u32 G) w).1.2
         (G + (line_read s (u32 G) w).1.1) (dump_iter s (u32 G) w).2)
  end.

(** [k] drains one after the other on the same ring, the driver state
    carried from each to the next; a drain that does not return ends the
    run. *)
Fixpoint redrain (fuel k : nat) (s : trusty_log_state) (w : world)
  : bool * trusty_log_state * world :=
  match k with
  | O => (true, s, w)
  | S k' =>
      match trusty_dump_logs fuel s w with
      | (true, s', w') => redrain fuel k' s' w'
      | stuck => stuck
      end
  end.

(** [loop_within] for each of [k] drains; the cursor of a drain starts
    where the drain before it has left it, which is as many counts further
    as bytes were loaded from the data region. *)
Fixpoint drains_within (fuel k : nat) (s : trusty_log_state) (G : Z)
    (w : world) : Prop :=
  match k with
  | O => True
  | S k' =>
      loop_within fuel s G w /\
      match trusty_dump_logs fuel s w with
      | (true, s', w') =>
          drains_within fuel k' s'
            (G + Z.of_nat (length (reads w') - length (reads w))) w'
      | _ => True
      end
  end.

(** A newline-delimited line: bytes other than the newline, then the
    newline. *)
Definition whole_line (line : list ascii) : Prop :=
  exists body,
    line = body ++ [newline] /\ Forall (fun x => x <> newline) body.

(** The producer has committed ["hi\n"] before the consumer starts,
    commits ["yo\n"] while the consumer makes its first three loads and
    ["ok\n"] when it has made eleven. *)
Definition hi_yo_ok : list ascii := list_ascii_of_string "hi" ++
  [newline] ++ list_ascii_of_string "yo" ++ [newline]
  ++ list_ascii_of_string "ok" ++ [newline].

Definition written (t : nat) : Z :=
  if (t <? 3)%nat then 3 else if (t <? 11)%nat then 6 else 9.

Definition ring_hi_yo_ok : log_rb :=
  {| alloc := written; put := written; sz := 16;
     data := fun t => region (take (Z.to_nat (written t)) hi_yo_ok) |}.

(** * Properties *)

(** Proofs unfold the machine arithmetic and the two functions by name,
    never through [simpl]. *)
Arguments u32 : simpl never.
Arguments s32 : simpl never.
Arguments size_t : simpl never.
Arguments load_sz : simpl never.
Arguments log_read_line : simpl never.
Arguments dump_iter : simpl never.
Arguments max_to_read : simpl never.

(** ** Machine arithmetic *)

Lemma u32_range x : 0 <= u32 x < 2 ^ 32.
Proof. unfold u32. apply Z.mod_pos_bound. lia. Qed.

Lemma u32_small x : 0 <= x < 2 ^ 32 -> u32 x = x.
Proof. intros H. unfold u32. apply Z.mod_small. exact H. Qed.

Lemma u32_u32 x : u32 (u32 x) = u32 x.
Proof. apply u32_small, u32_range. Qed.

Lemma u32_add_l x y : u32 (u32 x + y) = u32 (x + y).
Proof. unfold u32. apply Zplus_mod_idemp_l. Qed.

Lemma u32_add_r x y : u32 (x + u32 y) = u32 (x + y).
Proof. unfold u32. apply Zplus_mod_idemp_r. Qed.

Lemma u32_sub_l x y : u32 (u32 x - y) = u32 (x - y).
Proof. unfold u32. apply Zminus_mod_idemp_l. Qed.

Lemma u32_sub_r x y : u32 (x - u32 y) = u32 (x - y).
Proof. unfold u32. apply Zminus_mod_idemp_r. Qed.

Lemma s32_range x : - 2 ^ 31 <= s32 x < 2 ^ 31.
Proof.
  unfold s32. pose proof (Z.mod_pos_bound (x + 2 ^ 31) (2 ^ 32)). lia.
Qed.

Lemma u32_s32 x : u32 (s32 x) = u32 x.
Proof.
  unfold u32, s32. rewrite Zminus_mod_idemp_l. f_equal. lia.
Qed.

Lemma s32_add_l x y : s32 (s32 x + y) = s32 (x + y).
Proof.
  unfold s32. f_equal.
  replace ((x + 2 ^ 31) mod 2 ^ 32 - 2 ^ 31 + y + 2 ^ 31)
    with ((x + 2 ^ 31) mod 2 ^ 32 + y) by lia.
  rewrite Zplus_mod_idemp_l. f_equal. lia.
Qed.

(** An [int] is the [u32] it came from when that is below 2^31, and 2^32
    less otherwise. *)
Lemma s32_of_u32 x :
  s32 x = if u32 x <? 2 ^ 31 then u32 x else u32 x - 2 ^ 32.
Proof.
  unfold s32, u32.
  pose proof (Z.mod_pos_bound x (2 ^ 32) ltac:(lia)) as Hx.
  destruct (Z.ltb_spec (x mod 2 ^ 32) (2 ^ 31)) as [Hlt | Hge].
  - assert ((x + 2 ^ 31) mod 2 ^ 32 = x mod 2 ^ 32 + 2 ^ 31); [| lia].
    rewrite <- Zplus_mod_idemp_l. apply Z.mod_small. lia.
  - assert ((x + 2 ^ 31) mod 2 ^ 32 = x mod 2 ^ 32 - 2 ^ 31); [| lia].
    rewrite <- Zplus_mod_idemp_l.
    replace (x mod 2 ^ 32 + 2 ^ 31)
      with (x mod 2 ^ 32 - 2 ^ 31 + 1 * 2 ^ 32) by lia.
    rewrite Z.mod_add by lia. apply Z.mod_small. lia.
Qed.

Lemma size_t_s32_low x : size_t (s32 x) mod 2 ^ 32 = u32 x.
Proof.
  unfold size_t. rewrite Z.mod_mod_divide.
  - apply u32_s32.
  - exists (2 ^ 32). reflexivity.
Qed.

(** Masking the sign-extended [int] counter is masking the [u32] counter:
    the mask has no bit above the 32nd. *)
Lemma land_size_t_s32 x m :
  0 <= m < 2 ^ 32 -> Z.land (size_t (s32 x)) m = Z.land (u32 x) m.
Proof.
  intros Hm.
  assert (Hmm : m = Z.land (Z.ones 32) m).
  { rewrite Z.land_comm, Z.land_ones by lia. symmetry. apply Z.mod_small.
    exact Hm. }
  rewrite Hmm at 1. rewrite Z.land_assoc, Z.land_ones by lia.
  rewrite size_t_s32_low. reflexivity.
Qed.

(** ** Powers of two *)

Lemma is_power_of_2_spec n :
  is_power_of_2 n = true <-> exists k, 0 <= k /\ n = 2 ^ k.
Proof.
  unfold is_power_of_2. rewrite andb_true_iff, negb_true_iff.
  rewrite Z.eqb_neq, Z.eqb_eq. split.
  - intros [Hnz Hland].
    destruct (Z.lt_trichotomy n 0) as [Hneg | [Hz | Hpos]]; [| lia |].
    + exfalso.
      assert (Z.land n (n - 1) < 0); [apply Z.land_neg |]; lia.
    + exists (Z.log2 n). split; [apply Z.log2_nonneg |].
      destruct (Z.log2_spec n Hpos) as [Hlo Hhi].
      destruct (Z.eq_dec n (2 ^ Z.log2 n)) as [Heq | Hne]; [exact Heq |].
      exfalso.
      assert (Hb : Z.testbit (Z.land n (n - 1)) (Z.log2 n) = true).
      { rewrite Z.land_spec, Z.bit_log2 by lia.
        assert (Hl : Z.log2 (n - 1) = Z.log2 n).
        { apply Z.log2_unique; [apply Z.log2_nonneg |].
          replace (Z.log2 n + 1) with (Z.succ (Z.log2 n)) by lia. lia. }
        rewrite <- Hl. rewrite Z.bit_log2; [reflexivity |].
        pose proof (Z.pow_pos_nonneg 2 (Z.log2 n) ltac:(lia)
                      (Z.log2_nonneg n)). lia. }
      rewrite Hland, Z.bits_0 in Hb. discriminate.
  - intros (k & Hk & ->). split.
    + pose proof (Z.pow_pos_nonneg 2 k ltac:(lia) Hk). lia.
    + replace (2 ^ k - 1) with (Z.ones k) by (rewrite Z.ones_equiv; lia).
      rewrite Z.land_ones by lia. apply Z.mod_same. lia.
Qed.

Lemma pow2_u32 c :
  is_power_of_2 (u32 c) = true -> exists k, 0 <= k <= 31 /\ u32 c = 2 ^ k.
Proof.
  intros H. apply is_power_of_2_spec in H. destruct H as (k & Hk & Hc).
  exists k. split; [| exact Hc]. split; [exact Hk |].
  destruct (Z.le_gt_cases k 31) as [Hle | Hgt]; [exact Hle | exfalso].
  pose proof (u32_range c) as Hr. rewrite Hc in Hr.
  assert (2 ^ 32 <= 2 ^ k) by (apply Z.pow_le_mono_r; lia). lia.
Qed.

Lemma pow2_bounds k : 0 <= k <= 31 -> 0 < 2 ^ k <= 2 ^ 31.
Proof.
  intros Hk. split.
  - apply Z.pow_pos_nonneg; lia.
  - apply Z.pow_le_mono_r; lia.
Qed.

(** For a capacity that passed [is_power_of_2], the mask [log_read_line]
    computes is capacity - 1 ... *)
Lemma mask_of_pow2 c :
  is_power_of_2 (u32 c) = true -> size_t (u32 (u32 c - 1)) = u32 c - 1.
Proof.
  intros H. destruct (pow2_u32 c H) as (k & Hk & Hc).
  pose proof (pow2_bounds k Hk). rewrite Hc.
  rewrite u32_small by lia. unfold size_t. apply Z.mod_small. lia.
Qed.

(** ** What the copy loop reads and writes *)

Lemma after_reads_nil w : after_reads w [] = w.
Proof. destruct w. unfold after_reads. simpl. rewrite app_nil_r. reflexivity. Qed.

Lemma after_reads_cons w idx idxs :
  after_reads (after_reads w [idx]) idxs = after_reads w (idx :: idxs).
Proof.
  unfold after_reads. simpl. f_equal.
  - lia.
  - rewrite <- app_assoc. reflexivity.
Qed.

Lemma length_offsets mask g k : length (offsets mask g k) = k.
Proof. revert g. induction k; intros g; simpl; [| rewrite IHk]; reflexivity. Qed.

Lemma length_source l t idxs : length (source l t idxs) = length idxs.
Proof.
  revert t. induction idxs; intros t; simpl; [| rewrite IHidxs]; reflexivity.
Qed.

Lemma read_loop_spec l mask n :
  forall i c g (buf : list ascii) w,
    (i + n <= length buf)%nat ->
    exists k,
      (k <= n)%nat /\
      read_loop l mask n i c g buf w =
        ((i + k)%nat,
         take i buf ++ source l (clock w) (offsets mask g k)
           ++ drop (i + k) buf,
         after_reads w (offsets mask g k)) /\
      (k = n \/ last (c :: source l (clock w) (offsets mask g k))
                = Some newline) /\
      Forall (fun x => x <> newline)
             (removelast (c :: source l (clock w) (offsets mask g k))).
Proof.
  induction n as [| n IH]; intros i c g buf w Hlen.
  - exists 0%nat. simpl. rewrite Nat.add_0_r, take_drop, after_reads_nil.
    repeat split; auto.
  - simpl. destruct (Ascii.eqb_spec c newline) as [-> | Hc].
    + exists 0%nat. simpl. rewrite Nat.add_0_r, take_drop, after_reads_nil.
      repeat split; auto with lia.
    + set (idx := Z.land (size_t g) mask).
      set (c' := data l (clock w) idx).
      destruct (IH (S i) c' (s32 (g + 1)) (<[i := c']> buf)
                   (after_reads w [idx])) as (k & Hk & Hrun & Hstop & Hnl).
      { rewrite length_insert. lia. }
      exists (S k). split; [lia |].
      match goal with
      | |- context [read_loop l mask n (S i) c' ?g' ?b' ?w'] =>
          change (read_loop l mask n (S i) c' g' b' w')
            with (read_loop l mask n (S i) c' (s32 (g + 1)) (<[i := c']> buf)
                    (after_reads w [idx]))
      end.
      rewrite Hrun. clear Hrun.
      change (clock (after_reads w [idx])) with (S (clock w)) in *.
      change (offsets mask g (S k)) with (idx :: offsets mask (s32 (g + 1)) k).
      change (source l (clock w) (idx :: offsets mask (s32 (g + 1)) k))
        with (c' :: source l (S (clock w)) (offsets mask (s32 (g + 1)) k)).
      set (cs := source l (S (clock w)) (offsets mask (s32 (g + 1)) k)) in *.
      split; [| split].
      * rewrite after_reads_cons.
        replace (S i + k)%nat with (i + S k)%nat by lia.
        f_equal. f_equal.
        rewrite (take_S_r _ i c').
        2:{ apply list_lookup_insert_eq. lia. }
        rewrite take_insert_ge by lia.
        rewrite drop_insert_lt by lia.
        rewrite <- app_assoc. reflexivity.
      * destruct Hstop as [-> | Hlast]; [left; reflexivity | right].
        exact Hlast.
      * change (removelast (c :: c' :: cs)) with (c :: removelast (c' :: cs)).
        constructor; assumption.
Qed.

Lemma max_to_read_range put get : 0 <= max_to_read put get <= 255.
Proof.
  unfold max_to_read, size_t, TRUSTY_LINE_BUFFER_SIZE.
  pose proof (Z.mod_pos_bound (s32 (put - get)) (2 ^ 64) ltac:(lia)).
  change ((256 - 1) mod 2 ^ 64) with 255. lia.
Qed.

(** The whole of [log_read_line] in one equation: [k] bytes are loaded,
    they land at the front of the line buffer, NUL follows them. *)
Lemma log_read_line_spec s put get w :
  length (line_buffer s) = 256%nat ->
  exists k,
    Z.of_nat k <= max_to_read put get /\
    log_read_line s put get w =
      (Z.of_nat k,
       set_line_buffer s
         (source (log s) (clock w)
                 (offsets (size_t (u32 (load_sz (log s) - 1))) get k)
            ++ NUL :: drop (S k) (line_buffer s)),
       after_reads w (offsets (size_t (u32 (load_sz (log s) - 1))) get k)) /\
    (Z.of_nat k = max_to_read put get \/
     last (source (log s) (clock w)
                  (offsets (size_t (u32 (load_sz (log s) - 1))) get k))
       = Some newline) /\
    Forall (fun x => x <> newline)
      (removelast
         (source (log s) (clock w)
                 (offsets (size_t (u32 (load_sz (log s) - 1))) get k))).
Proof.
  intros Hlen. pose proof (max_to_read_range put get) as Hm.
  unfold log_read_line. fold (max_to_read put get).
  set (mask := size_t (u32 (load_sz (log s) - 1))).
  destruct (read_loop_spec (log s) mask (Z.to_nat (max_to_read put get))
              0%nat NUL get (line_buffer s) w) as (k & Hk & Hrun & Hstop & Hnl).
  { rewrite Hlen. lia. }
  exists k. rewrite Hrun. clear Hrun.
  change (0 + k)%nat with k. change (take 0 (line_buffer s)) with (@nil ascii).
  set (cs := source (log s) (clock w) (offsets mask get k)) in *.
  assert (Hcs : length cs = k).
  { unfold cs. rewrite length_source, length_offsets. reflexivity. }
  split; [lia |]. split; [| split].
  - f_equal. f_equal. f_equal. simpl.
    rewrite insert_app_r_alt by lia. rewrite Hcs, Nat.sub_diag.
    destruct (lookup_lt_is_Some_2 (line_buffer s) k ltac:(lia)) as [x Hx].
    rewrite (drop_S _ x k Hx). reflexivity.
  - destruct Hstop as [-> | Hlast]; [left; lia |].
    destruct cs as [| c0 cs'].
    + simpl in Hlast. discriminate.
    + right. rewrite last_cons_cons in Hlast. exact Hlast.
  - destruct cs as [| c0 cs']; [constructor |].
    change (removelast (NUL :: c0 :: cs'))
      with (NUL :: removelast (c0 :: cs')) in Hnl.
    inversion Hnl. assumption.
Qed.

Lemma source_lookup l idxs :
  forall t (j : nat) idx,
    idxs !! j = Some idx ->
    source l t idxs !! j = Some (data l (t + j)%nat idx).
Proof.
  induction idxs as [| i0 idxs IH]; intros t j idx H; [discriminate |].
  destruct j as [| j]; simpl in *.
  - injection H as ->. rewrite Nat.add_0_r. reflexivity.
  - rewrite (IH (S t) j idx H). do 2 f_equal. lia.
Qed.

(** The [j]-th load of a line that starts at counter [g] is at
    [(g + j) & mask], the sum taken in [u32]. *)
Lemma offsets_lookup mask k :
  0 <= mask < 2 ^ 32 ->
  forall g (j : nat),
    (j < k)%nat ->
    offsets mask (s32 g) k !! j = Some (Z.land (u32 (g + Z.of_nat j)) mask).
Proof.
  intros Hm. induction k as [| k IH]; intros g j Hj; [lia |].
  destruct j as [| j]; simpl.
  - rewrite land_size_t_s32 by exact Hm. do 3 f_equal. lia.
  - rewrite s32_add_l, IH by lia. do 3 f_equal. lia.
Qed.

Lemma size_t_u32 x : size_t (u32 x) = u32 x.
Proof.
  unfold size_t. apply Z.mod_small. pose proof (u32_range x). lia.
Qed.

Lemma s32_sub_s32 x y : s32 (s32 x - s32 y) = s32 (x - y).
Proof.
  replace (s32 x - s32 y) with (s32 x + - s32 y) by lia.
  rewrite s32_add_l. rewrite Z.add_comm.
  unfold s32 at 1. unfold s32 at 1.
  replace (- ((y + 2 ^ 31) mod 2 ^ 32 - 2 ^ 31) + x + 2 ^ 31)
    with (x + 2 ^ 32 - (y + 2 ^ 31) mod 2 ^ 32) by lia.
  rewrite Zminus_mod_idemp_r. unfold s32. f_equal.
  replace (x + 2 ^ 32 - (y + 2 ^ 31)) with (x - y + 2 ^ 31 - 2 ^ 32 + 1 * 2 ^ 32)
    by lia.
  rewrite Z.mod_add by lia.
  replace (x - y + 2 ^ 31 - 2 ^ 32) with (x - y + 2 ^ 31 + (-1) * 2 ^ 32) by lia.
  rewrite Z.mod_add by lia. reflexivity.
Qed.

Lemma max_to_read_s32 put get :
  max_to_read (s32 put) (s32 get) = max_to_read put get.
Proof. unfold max_to_read. rewrite s32_sub_s32. reflexivity. Qed.

(** When the [int] difference is not negative the cast to [size_t] keeps
    it. *)
Lemma max_to_read_nonneg put get :
  0 <= s32 (put - get) ->
  max_to_read put get = Z.min (s32 (put - get)) (TRUSTY_LINE_BUFFER_SIZE - 1).
Proof.
  intros H. unfold max_to_read, size_t, TRUSTY_LINE_BUFFER_SIZE.
  pose proof (s32_range (put - get)).
  rewrite !Z.mod_small by lia. reflexivity.
Qed.

(** A negative [int] difference becomes a huge [size_t], so the line
    buffer bound is the one that counts. *)
Lemma max_to_read_neg put get :
  s32 (put - get) < 0 -> max_to_read put get = 255.
Proof.
  intros H. unfold max_to_read, size_t, TRUSTY_LINE_BUFFER_SIZE.
  pose proof (s32_range (put - get)).
  replace (s32 (put - get)) with (s32 (put - get) + 2 ^ 64 + (-1) * 2 ^ 64)
    by lia.
  rewrite Z.mod_add by lia.
  rewrite !Z.mod_small by lia. lia.
Qed.

Lemma removelast_lookup (cs : list ascii) (j : nat) :
  Forall (fun x => x <> newline) (removelast cs) ->
  (S j < length cs)%nat ->
  cs !! j <> Some newline.
Proof.
  intros Hall Hj Hlook.
  rewrite removelast_firstn_len in Hall.
  rewrite Forall_lookup in Hall.
  apply (Hall j newline); [| reflexivity].
  rewrite lookup_take_lt by lia. exact Hlook.
Qed.

(** ** The line assembler *)

(** C3. [log_read_line], called with the [int] values of a start counter
    [get] and an end counter [put] whose difference is not negative, copies
    the bytes at [data[(get + j) & (sz - 1)]], [j = 0, 1, ...], into the
    line buffer until a newline has been copied or
    [min(put - get, TRUSTY_LINE_BUFFER_SIZE - 1)] bytes have been copied,
    stores NUL behind them and returns their number.  With 255 bytes or
    more to read and no newline among the first 255, exactly 255 are
    consumed. *)
Theorem C3_log_read_line_copy s put get w :
  length (line_buffer s) = 256%nat ->
  0 <= s32 (put - get) ->
  exists (n : nat) s' w',
    log_read_line s (s32 put) (s32 get) w = (Z.of_nat n, s', w') /\
    Z.of_nat n <= Z.min (s32 (put - get)) (TRUSTY_LINE_BUFFER_SIZE - 1) /\
    (forall j : nat, (j < n)%nat ->
       line_buffer s' !! j =
         Some (data (log s) (clock w + j)%nat
                 (Z.land (u32 (get + Z.of_nat j))
                         (u32 (load_sz (log s) - 1))))) /\
    (Z.of_nat n = Z.min (s32 (put - get)) (TRUSTY_LINE_BUFFER_SIZE - 1) \/
     (1 <= n)%nat /\ line_buffer s' !! (n - 1)%nat = Some newline) /\
    (forall j : nat, (S j < n)%nat -> line_buffer s' !! j <> Some newline) /\
    line_buffer s' !! n = Some NUL /\
    (TRUSTY_LINE_BUFFER_SIZE - 1 <= s32 (put - get) ->
     (forall j : nat, (j < 255)%nat ->
        data (log s) (clock w + j)%nat
             (Z.land (u32 (get + Z.of_nat j)) (u32 (load_sz (log s) - 1)))
          <> newline) ->
     n = 255%nat).
Proof.
  intros Hlen Hdiff.
  destruct (log_read_line_spec s (s32 put) (s32 get) w Hlen)
    as (n & Hmax & Hrun & Hstop & Hnl).
  rewrite max_to_read_s32, max_to_read_nonneg in Hmax, Hstop by exact Hdiff.
  rewrite size_t_u32 in Hrun, Hstop, Hnl.
  set (mask := u32 (load_sz (log s) - 1)) in *.
  set (cs := source (log s) (clock w) (offsets mask (s32 get) n)) in *.
  assert (Hcs : length cs = n).
  { unfold cs. rewrite length_source, length_offsets. reflexivity. }
  assert (Hbyte : forall j : nat, (j < n)%nat ->
            cs !! j = Some (data (log s) (clock w + j)%nat
                              (Z.land (u32 (get + Z.of_nat j)) mask))).
  { intros j Hj. unfold cs. apply source_lookup.
    apply offsets_lookup; [apply u32_range | exact Hj]. }
  assert (Hfront : forall j : nat, (j < n)%nat ->
            (cs ++ NUL :: drop (S n) (line_buffer s)) !! j = cs !! j).
  { intros j Hj. apply lookup_app_l. lia. }
  assert (Hnewline : Z.of_nat n
             = Z.min (s32 (put - get)) (TRUSTY_LINE_BUFFER_SIZE - 1) \/
           (1 <= n)%nat /\ cs !! (n - 1)%nat = Some newline).
  { destruct Hstop as [Heq | Hlast]; [left; exact Heq | right].
    rewrite last_lookup, Hcs in Hlast.
    destruct n as [| n']; [subst cs; discriminate |].
    split; [lia |]. rewrite <- Hlast. f_equal. lia. }
  exists n, (set_line_buffer s (cs ++ NUL :: drop (S n) (line_buffer s))),
    (after_reads w (offsets mask (s32 get) n)).
  split; [exact Hrun |]. split; [exact Hmax |]. simpl.
  split; [| split; [| split; [| split]]].
  - intros j Hj. rewrite Hfront by exact Hj. apply Hbyte, Hj.
  - destruct Hnewline as [Heq | [Hn Hlast]]; [left; exact Heq | right].
    split; [exact Hn |]. rewrite Hfront by lia. exact Hlast.
  - intros j Hj. rewrite Hfront by lia. apply removelast_lookup; [exact Hnl |].
    lia.
  - rewrite lookup_app_r by lia. rewrite Hcs, Nat.sub_diag. reflexivity.
  - intros Hfull Hnone. unfold TRUSTY_LINE_BUFFER_SIZE in *.
    destruct Hnewline as [Heq | [Hn Hlast]]; [lia |].
    exfalso. rewrite Hbyte in Hlast by lia.
    injection Hlast as Hlast. apply (Hnone (n - 1)%nat); [lia | exact Hlast].
Qed.

(** C3 at work on the ring that holds ["hi\n"]: three bytes are copied and
    the terminator is at index 3. *)
Lemma C3_log_read_line_copy_witness :
  exists (n : nat) s' w',
    log_read_line
      (probed (frozen ring_hi))
      (s32 3) (s32 0) (boot (fun _ => true)) = (Z.of_nat n, s', w') /\
    line_buffer s' !! n = Some NUL.
Proof.
  destruct (C3_log_read_line_copy
              (probed (frozen ring_hi))
              3 0 (boot (fun _ => true)))
    as (n & s' & w' & Hrun & _ & _ & _ & _ & Hnul & _).
  - reflexivity.
  - apply Z.leb_le. reflexivity.
  - exists n, s', w'. split; [exact Hrun | exact Hnul].
Defined.

Lemma u32_sub_eq_0 a b : u32 (a - b) = 0 -> u32 a = u32 b.
Proof.
  intros H. replace a with (a - b + b) at 1 by lia.
  rewrite <- u32_add_l, H. reflexivity.
Qed.

Lemma s32_eq_0 x : s32 x = 0 -> u32 x = 0.
Proof. intros H. rewrite <- u32_s32, H. reflexivity. Qed.

(** Counters that differ leave at least one byte to read. *)
Lemma max_to_read_pos put get :
  u32 put <> u32 get -> 1 <= max_to_read put get.
Proof.
  intros Hne.
  destruct (Z.lt_trichotomy (s32 (put - get)) 0) as [Hneg | [Hz | Hpos]].
  - rewrite max_to_read_neg by exact Hneg. lia.
  - exfalso. apply Hne, u32_sub_eq_0, s32_eq_0, Hz.
  - rewrite max_to_read_nonneg by lia. unfold TRUSTY_LINE_BUFFER_SIZE. lia.
Qed.

(** The text printed for a buffer whose first NUL is known. *)
Lemma c_str_app_NUL (cs rest : list ascii) :
  Forall (fun x => x <> NUL) cs -> c_str (cs ++ NUL :: rest) = cs.
Proof.
  induction 1 as [| c cs Hc _ IH]; simpl.
  - reflexivity.
  - destruct (Ascii.eqb_spec c NUL) as [-> | _]; [contradiction |].
    rewrite IH. reflexivity.
Qed.

(** ** One iteration of the drain loop *)

Lemma read_loop_world l mask n :
  forall i c g (buf : list ascii) w,
    let w' := (read_loop l mask n i c g buf w).2 in
    klog w' = klog w /\ rl_calls w' = rl_calls w /\
    rate_limit w' = rate_limit w.
Proof.
  induction n as [| n IH]; intros i c g buf w; simpl; [auto |].
  destruct (Ascii.eqb c newline); simpl; [auto |].
  apply (IH (S i) _ (s32 (g + 1)) _
            {| clock := S (clock w); rate_limit := rate_limit w;
               rl_calls := rl_calls w; klog := klog w;
               reads := reads w ++ [Z.land (size_t g) mask] |}).
Qed.

(** [log_read_line] prints nothing and leaves the rate limiter alone. *)
Lemma log_read_line_world s put get w :
  let w' := (log_read_line s put get w).2 in
  klog w' = klog w /\ rl_calls w' = rl_calls w /\
  rate_limit w' = rate_limit w.
Proof.
  unfold log_read_line.
  pose proof (read_loop_world (log s) (size_t (u32 (load_sz (log s) - 1)))
                (Z.to_nat (Z.min (size_t (s32 (put - get)))
                                 (size_t (TRUSTY_LINE_BUFFER_SIZE - 1))))
                0%nat NUL get (line_buffer s) w) as H.
  destruct (read_loop _ _ _ _ _ _ _ _) as [[i buf] w']. exact H.
Qed.

Lemma read_loop_count l mask n :
  forall i c g (buf : list ascii) w,
    (i <= (read_loop l mask n i c g buf w).1.1 <= i + n)%nat /\
    (c <> newline -> n <> 0%nat ->
     (S i <= (read_loop l mask n i c g buf w).1.1)%nat).
Proof.
  induction n as [| n IH]; intros i c g buf w; cbn [read_loop].
  { cbn [fst]. split; [lia | congruence]. }
  destruct (Ascii.eqb_spec c newline) as [-> | Hc].
  { cbn [fst]. split; [lia | congruence]. }
  unfold load_data.
  match goal with
  | |- context [read_loop l mask n (S i) ?c' ?g' ?b' ?w'] =>
      destruct (IH (S i) c' g' b' w') as [Hle _]
  end.
  split; intros; lia.
Qed.

(** Without a newline anywhere in the data region the copy uses up its
    budget. *)
Lemma read_loop_no_newline l mask n :
  (forall t idx, data l t idx <> newline) ->
  forall i c g (buf : list ascii) w,
    c <> newline ->
    (read_loop l mask n i c g buf w).1.1 = (i + n)%nat.
Proof.
  intros Hd. induction n as [| n IH]; intros i c g buf w Hc; cbn [read_loop].
  { cbn [fst]. lia. }
  destruct (Ascii.eqb_spec c newline) as [-> | _]; [contradiction |].
  unfold load_data. rewrite IH by apply Hd. lia.
Qed.

(** Counters that differ make [log_read_line] consume at least one byte. *)
Lemma log_read_line_pos s put get w :
  u32 put <> u32 get -> 1 <= (log_read_line s (s32 put) (s32 get) w).1.1.
Proof.
  intros Hne. pose proof (max_to_read_pos put get Hne) as Hpos.
  rewrite <- max_to_read_s32 in Hpos.
  unfold log_read_line. fold (max_to_read (s32 put) (s32 get)).
  match goal with
  | |- context [read_loop ?l ?m ?n ?i ?c ?g ?b ?w'] =>
      destruct (read_loop_count l m n i c g b w') as [_ Hs];
      destruct (read_loop l m n i c g b w') as [[k buf] w2]
  end.
  cbn [fst] in *. assert (1 <= k)%nat; [| lia].
  apply Hs; [discriminate | lia].
Qed.

Lemma log_read_line_le s put get w :
  (log_read_line s (s32 put) (s32 get) w).1.1 <= max_to_read put get.
Proof.
  pose proof (max_to_read_range put get) as Hr.
  rewrite <- max_to_read_s32 in *.
  unfold log_read_line. fold (max_to_read (s32 put) (s32 get)).
  match goal with
  | |- context [read_loop ?l ?m ?n ?i ?c ?g ?b ?w'] =>
      destruct (read_loop_count l m n i c g b w') as [Hle _];
      destruct (read_loop l m n i c g b w') as [[k buf] w2]
  end.
  cbn [fst] in *. lia.
Qed.

(** The copy never goes past the end counter. *)
Lemma max_to_read_le_diff put get : max_to_read put get <= u32 (put - get).
Proof.
  pose proof (s32_of_u32 (put - get)) as Hs.
  pose proof (u32_range (put - get)) as Hu.
  destruct (Z.ltb_spec (u32 (put - get)) (2 ^ 31)) as [Hlt | Hge].
  - rewrite max_to_read_nonneg by lia. lia.
  - rewrite max_to_read_neg by lia. lia.
Qed.

Lemma log_read_line_no_newline s put get w :
  (forall t idx, data (log s) t idx <> newline) ->
  (log_read_line s put get w).1.1 = max_to_read put get.
Proof.
  intros Hd. pose proof (max_to_read_range put get) as Hr.
  unfold log_read_line. fold (max_to_read put get).
  match goal with
  | |- context [read_loop ?l ?m ?n ?i ?c ?g ?b ?w'] =>
      pose proof (read_loop_no_newline l m n Hd i c g b w') as Hn;
      destruct (read_loop l m n i c g b w') as [[k buf] w2]
  end.
  cbn [fst] in *. rewrite Hn by discriminate. lia.
Qed.

Lemma line_read_world s get w :
  klog (line_read s get w).2 = klog w /\
  rl_calls (line_read s get w).2 = rl_calls w /\
  rate_limit (line_read s get w).2 = rate_limit w.
Proof.
  exact (log_read_line_world s (s32 (seen_put s w)) (s32 get) (tick w)).
Qed.

Lemma line_read_length s g w :
  length (line_buffer s) = 256%nat ->
  length (line_buffer (line_read s g w).1.2) = 256%nat.
Proof.
  intros Hlen.
  destruct (log_read_line_spec s (s32 (seen_put s w)) (s32 g)
              (load_put (log s) w).2 Hlen) as (k & Hmax & Hread & _).
  fold (line_read s g w) in Hread. rewrite Hread.
  pose proof (max_to_read_range (s32 (seen_put s w)) (s32 g)).
  cbn [fst snd line_buffer set_line_buffer].
  rewrite length_app, length_source, length_offsets. cbn [length].
  rewrite length_drop. lia.
Qed.

(** The loop body behind a [while] condition that holds. *)
Lemma dump_iter_body s get w :
  seen_put s w <> get ->
  dump_iter s get w =
    let r := line_read s get w in
    let w3 := tick r.2 in
    if u32 (seen_alloc s get w - get) >? load_sz (log s) then
      (Next (u32 (seen_alloc s get w - load_sz (log s))), r.1.2,
       emit (dev_err "log overflow.") w3)
    else
      (Next (u32 (get + r.1.1)), r.1.2,
       if rate_limit w3 (rl_calls w3)
       then emit (dev_info (line_buffer r.1.2)) (__ratelimit w3).2
       else (__ratelimit w3).2).
Proof.
  intros Hne.
  unfold dump_iter, seen_alloc, line_read, seen_put, load_put, load_alloc in *.
  cbn [fst snd] in *.
  destruct (Z.eqb_spec (u32 (put (log s) (clock w))) get) as [| _];
    [contradiction |].
  destruct (log_read_line _ _ _ _) as [[n s2] w2]. cbn [fst snd].
  destruct (_ >? _); reflexivity.
Qed.

(** The [while] condition that fails. *)
Lemma dump_iter_break s get w :
  seen_put s w = get -> dump_iter s get w = (Break, s, tick w).
Proof.
  intros He. unfold dump_iter, seen_put, load_put in *. cbn [fst snd] in *.
  rewrite He, Z.eqb_refl. reflexivity.
Qed.

(** The branch of the loop body that finds an overflow. *)
Lemma dump_iter_overflow s get w :
  seen_put s w <> get ->
  u32 (seen_alloc s get w - get) > load_sz (log s) ->
  exists w',
    dump_iter s get w =
      (Next (u32 (seen_alloc s get w - load_sz (log s))),
       (line_read s get w).1.2, w') /\
    klog w' = klog w ++ [dev_err "log overflow."] /\
    rl_calls w' = rl_calls w /\
    rate_limit w' = rate_limit w.
Proof.
  intros Hne Hover.
  pose proof (dump_iter_body s get w Hne) as Hbody. cbv zeta in Hbody.
  assert (Hgt : (u32 (seen_alloc s get w - get) >? load_sz (log s)) = true).
  { rewrite Z.gtb_ltb. apply Z.ltb_lt. lia. }
  rewrite Hgt in Hbody.
  destruct (line_read_world s get w) as (Hklog & Hrl & Hrate).
  eexists. split; [exact Hbody |]. split; [| split].
  - cbn [klog emit tick]. rewrite Hklog. reflexivity.
  - cbn [rl_calls emit tick]. rewrite Hrl. reflexivity.
  - cbn [rate_limit emit tick]. rewrite Hrate. reflexivity.
Qed.

(** C1. When the reserved counter loaded after the copy is more than
    [sz] ahead of the cursor (in [u32]), the iteration prints
    ["log overflow."] and nothing else, does not ask the rate limiter, moves
    the cursor to exactly reserved - [sz], and the loop goes on from its
    top with that cursor: the count of bytes just read plays no part. *)
Theorem C1_overflow_discards_line s get w :
  seen_put s w <> get ->
  u32 (seen_alloc s get w - get) > load_sz (log s) ->
  exists w',
    dump_iter s get w =
      (Next (u32 (seen_alloc s get w - load_sz (log s))),
       (line_read s get w).1.2, w') /\
    klog w' = klog w ++ [dev_err "log overflow."] /\
    rl_calls w' = rl_calls w /\
    forall fuel,
      dump_loop (S fuel) s get w =
        dump_loop fuel (line_read s get w).1.2
          (u32 (seen_alloc s get w - load_sz (log s))) w'.
Proof.
  intros Hne Hover.
  destruct (dump_iter_overflow s get w Hne Hover)
    as (w' & Hrun & Hklog & Hrl & _).
  exists w'. split; [exact Hrun |]. split; [exact Hklog |].
  split; [exact Hrl |].
  intros fuel. cbn [dump_loop]. rewrite Hrun. reflexivity.
Qed.

(** C1 on the first iteration of the 20-byte scenario. *)
Lemma C1_overflow_discards_line_witness :
  exists w',
    (dump_iter (probed (frozen ring_20)) 0 (boot (fun _ => true))).1.1
      = Next (u32 (seen_alloc (probed (frozen ring_20)) 0
                     (boot (fun _ => true)) - 16)) /\
    klog w' = [dev_err "log overflow."].
Proof.
  destruct (C1_overflow_discards_line (probed (frozen ring_20)) 0
              (boot (fun _ => true))) as (w' & Hrun & Hklog & _).
  - vm_compute. discriminate.
  - vm_compute. reflexivity.
  - exists w'. split; [rewrite Hrun; reflexivity | exact Hklog].
Defined.

(** The branch of the loop body that finds no overflow. *)
Lemma dump_iter_no_overflow s get w :
  seen_put s w <> get ->
  u32 (seen_alloc s get w - get) <= load_sz (log s) ->
  exists w',
    dump_iter s get w =
      (Next (u32 (get + (line_read s get w).1.1)),
       (line_read s get w).1.2, w') /\
    klog w' =
      klog w ++ (if rate_limit w (rl_calls w)
                 then [dev_info (line_buffer (line_read s get w).1.2)]
                 else []) /\
    rl_calls w' = S (rl_calls w) /\
    rate_limit w' = rate_limit w.
Proof.
  intros Hne Hok.
  pose proof (dump_iter_body s get w Hne) as Hbody. cbv zeta in Hbody.
  assert (Hgt : (u32 (seen_alloc s get w - get) >? load_sz (log s)) = false).
  { rewrite Z.gtb_ltb. apply Z.ltb_ge. lia. }
  rewrite Hgt in Hbody.
  destruct (line_read_world s get w) as (Hklog & Hrl & Hrate).
  change (rate_limit (tick (line_read s get w).2))
    with (rate_limit (line_read s get w).2) in Hbody.
  change (rl_calls (tick (line_read s get w).2))
    with (rl_calls (line_read s get w).2) in Hbody.
  rewrite Hrate, Hrl in Hbody.
  eexists. split; [exact Hbody |]. split; [| split].
  - destruct (rate_limit w (rl_calls w)); cbn [klog emit __ratelimit snd tick];
      rewrite Hklog; [reflexivity | rewrite app_nil_r; reflexivity].
  - destruct (rate_limit w (rl_calls w));
      cbn [rl_calls emit __ratelimit snd tick]; rewrite Hrl; reflexivity.
  - destruct (rate_limit w (rl_calls w));
      cbn [rate_limit emit __ratelimit snd tick]; rewrite Hrate; reflexivity.
Qed.

(** C8. In an iteration that finds no overflow the rate limiter is asked
    once; the line buffer goes to [dev_info] exactly when it allows, and
    nothing is printed when it denies.  Either way the cursor advances by
    the count [log_read_line] returned, which is at least 1, and the loop
    goes on from there, so a dropped line is not read again. *)
Theorem C8_rate_limited_emit s get w :
  0 <= get < 2 ^ 32 ->
  seen_put s w <> get ->
  u32 (seen_alloc s get w - get) <= load_sz (log s) ->
  exists w',
    dump_iter s get w =
      (Next (u32 (get + (line_read s get w).1.1)),
       (line_read s get w).1.2, w') /\
    klog w' =
      klog w ++ (if rate_limit w (rl_calls w)
                 then [dev_info (line_buffer (line_read s get w).1.2)]
                 else []) /\
    rl_calls w' = S (rl_calls w) /\
    1 <= (line_read s get w).1.1 /\
    forall fuel,
      dump_loop (S fuel) s get w =
        dump_loop fuel (line_read s get w).1.2
          (u32 (get + (line_read s get w).1.1)) w'.
Proof.
  intros Hget Hne Hok.
  destruct (dump_iter_no_overflow s get w Hne Hok)
    as (w' & Hrun & Hklog & Hrl & _).
  exists w'. split; [exact Hrun |]. split; [exact Hklog |].
  split; [exact Hrl |]. split.
  - unfold line_read. apply log_read_line_pos.
    unfold seen_put, load_put. cbn [fst]. rewrite u32_u32, (u32_small get Hget).
    exact Hne.
  - intros fuel. cbn [dump_loop]. rewrite Hrun. reflexivity.
Qed.

(** C8 on the only iteration of the ["hi\n"] scenario. *)
Lemma C8_rate_limited_emit_witness :
  exists w',
    klog w' =
      [dev_info (line_buffer (line_read (probed (frozen ring_hi)) 0
                                (boot (fun _ => true))).1.2)] /\
    rl_calls w' = 1%nat.
Proof.
  destruct (C8_rate_limited_emit (probed (frozen ring_hi)) 0
              (boot (fun _ => true))) as (w' & _ & Hklog & Hrl & _).
  - lia.
  - vm_compute. discriminate.
  - vm_compute. discriminate.
  - exists w'. split; [exact Hklog | exact Hrl].
Defined.



(** ** The power-of-two guard *)

(** C9. With a capacity that is not a power of two [trusty_dump_logs]
    returns at once, whatever the fuel: [WARN_ON] is the only thing
    reported, the data region is not read, nothing goes to [dev_info], and
    the driver state, cursor included, is left as it was. *)
Theorem C9_capacity_not_power_of_2 fuel s w :
  ~ (exists k, 0 <= k /\ load_sz (log s) = 2 ^ k) ->
  exists w',
    trusty_dump_logs fuel s w = (true, s, w') /\
    klog w' = klog w ++ [WARN_ON] /\
    reads w' = reads w /\
    clock w' = clock w /\
    rl_calls w' = rl_calls w.
Proof.
  intros Hnp. unfold trusty_dump_logs.
  destruct (is_power_of_2 (load_sz (log s))) eqn:Hp.
  - exfalso. apply Hnp, is_power_of_2_spec, Hp.
  - simpl. eexists. split; [reflexivity |]. simpl. auto.
Qed.

(** C9 on a ring of capacity 12. *)
Lemma C9_capacity_not_power_of_2_witness :
  exists w',
    trusty_dump_logs 5 (probed (frozen (empty_ring 12))) (boot (fun _ => true))
      = (true, probed (frozen (empty_ring 12)), w') /\
    klog w' = [WARN_ON].
Proof.
  destruct (C9_capacity_not_power_of_2 5 (probed (frozen (empty_ring 12)))
              (boot (fun _ => true))) as (w' & Hrun & Hklog & _).
  - intros Hk. apply is_power_of_2_spec in Hk. vm_compute in Hk. discriminate.
  - exists w'. split; [exact Hrun | exact Hklog].
Defined.

(** ** Loads stay inside the data region *)

Lemma reads_extend_same P w w' : reads w' = reads w -> reads_extend P w w'.
Proof.
  intros H. exists []. rewrite app_nil_r. split; [exact H | constructor].
Qed.

Lemma reads_extend_refl P w : reads_extend P w w.
Proof. apply reads_extend_same. reflexivity. Qed.

Lemma reads_extend_trans P w1 w2 w3 :
  reads_extend P w1 w2 -> reads_extend P w2 w3 -> reads_extend P w1 w3.
Proof.
  intros (a & Ha & HPa) (b & Hb & HPb). exists (a ++ b).
  rewrite Hb, Ha, app_assoc. split; [reflexivity |].
  apply Forall_app. split; assumption.
Qed.

Lemma reads_extend_then P w w' w'' :
  reads_extend P w w' -> reads w'' = reads w' -> reads_extend P w w''.
Proof.
  intros H1 H2. eapply reads_extend_trans; [exact H1 |].
  apply reads_extend_same, H2.
Qed.

Lemma read_loop_reads l mask n :
  forall i c g (buf : list ascii) w,
    reads_extend (fun idx => exists x, idx = Z.land x mask) w
                 (read_loop l mask n i c g buf w).2.
Proof.
  induction n as [| n IH]; intros i c g buf w; simpl;
    [apply reads_extend_refl |].
  destruct (Ascii.eqb c newline); simpl; [apply reads_extend_refl |].
  eapply reads_extend_trans; [| apply IH].
  exists [Z.land (size_t g) mask]. split; [reflexivity |].
  constructor; [| constructor]. exists (size_t g). reflexivity.
Qed.

Lemma dump_iter_reads s get w :
  let mask := size_t (u32 (load_sz (log s) - 1)) in
  log (dump_iter s get w).1.2 = log s /\
  reads_extend (fun idx => exists x, idx = Z.land x mask) w
               (dump_iter s get w).2.
Proof.
  intros mask. unfold dump_iter, load_put, load_alloc, __ratelimit.
  destruct (_ =? _); simpl.
  { split; [reflexivity | apply reads_extend_same; reflexivity]. }
  unfold log_read_line. fold mask.
  match goal with
  | |- context [read_loop ?l ?m ?n ?i ?c ?g ?b ?w'] =>
      pose proof (read_loop_reads l m n i c g b w') as Hr;
      destruct (read_loop l m n i c g b w') as [[k buf] w2]
  end.
  simpl in Hr. destruct (_ >? _); simpl.
  { split; [reflexivity |]. eapply reads_extend_then; [exact Hr | reflexivity]. }
  destruct (rate_limit w2 (rl_calls w2)); simpl;
    (split; [reflexivity |];
     eapply reads_extend_then; [exact Hr | reflexivity]).
Qed.

Lemma dump_loop_reads fuel :
  forall s get w,
    let mask := size_t (u32 (load_sz (log s) - 1)) in
    log (dump_loop fuel s get w).1.2 = log s /\
    reads_extend (fun idx => exists x, idx = Z.land x mask) w
                 (dump_loop fuel s get w).2.
Proof.
  induction fuel as [| fuel IH]; intros s get w mask; simpl.
  { split; [reflexivity | apply reads_extend_refl]. }
  destruct (dump_iter_reads s get w) as [Hlog Hr]. fold mask in Hr.
  destruct (dump_iter s get w) as [[[| get'] s'] w']; simpl in *.
  { split; assumption. }
  destruct (IH s' get' w') as [Hlog' Hr']. rewrite Hlog in Hr'.
  split; [congruence |]. eapply reads_extend_trans; eassumption.
Qed.

(** C5. Whatever the producer does to the counters and the data while the
    drain runs, whatever the cursor, and however long the drain runs, every
    load [trusty_dump_logs] makes from the data region is at an offset of
    the form [x & (sz - 1)], and that offset is in [0, sz). *)
Theorem C5_loads_in_bounds fuel s w :
  exists idxs,
    reads (trusty_dump_logs fuel s w).2 = reads w ++ idxs /\
    Forall (fun idx =>
              (exists x, idx = Z.land x (load_sz (log s) - 1)) /\
              0 <= idx < load_sz (log s)) idxs.
Proof.
  unfold trusty_dump_logs.
  destruct (is_power_of_2 (load_sz (log s))) eqn:Hp; simpl.
  - destruct (dump_loop_reads fuel s (u32 (get s)) w) as [_ (idxs & Hr & HP)].
    exists idxs. split.
    + destruct (dump_loop fuel s (u32 (get s)) w) as [[[g |] s'] w'];
        exact Hr.
    + unfold load_sz in *. rewrite mask_of_pow2 in HP by exact Hp.
      eapply Forall_impl; [exact HP |]. intros idx [x ->].
      split; [exists x; reflexivity |].
      destruct (pow2_u32 _ Hp) as (k & Hk & Hc). rewrite Hc.
      replace (2 ^ k - 1) with (Z.ones k) by (rewrite Z.ones_equiv; lia).
      rewrite Z.land_ones by lia. apply Z.mod_pos_bound, pow2_bounds, Hk.
  - exists []. rewrite app_nil_r. split; [reflexivity | constructor].
Qed.

(** ** More fuel changes nothing once the loop has been left *)

Lemma dump_loop_more fuel k :
  forall s get w get' s' w',
    dump_loop fuel s get w = (Some get', s', w') ->
    dump_loop (fuel + k) s get w = (Some get', s', w').
Proof.
  induction fuel as [| fuel IH]; intros s get w get' s' w' H; simpl in *.
  - discriminate.
  - destruct (dump_iter s get w) as [[[| g1] s1] w1]; [exact H |].
    apply IH, H.
Qed.

Lemma trusty_dump_logs_more fuel k s w s' w' :
  trusty_dump_logs fuel s w = (true, s', w') ->
  trusty_dump_logs (fuel + k) s w = (true, s', w').
Proof.
  unfold trusty_dump_logs. destruct (negb _); [auto |].
  destruct (dump_loop fuel s (u32 (get s)) w) as [[[g |] s1] w1] eqn:Hrun;
    [| discriminate].
  rewrite (dump_loop_more fuel k _ _ _ _ _ _ Hrun). auto.
Qed.

Lemma trusty_dump_logs_done n fuel s w :
  (trusty_dump_logs n s w).1.1 = true ->
  (n <= fuel)%nat ->
  trusty_dump_logs fuel s w = trusty_dump_logs n s w.
Proof.
  intros Hdone Hle. replace fuel with (n + (fuel - n))%nat by lia.
  destruct (trusty_dump_logs n s w) as [[b s'] w'] eqn:Hrun.
  simpl in Hdone. subst b. apply trusty_dump_logs_more, Hrun.
Qed.

(** ** Termination *)

Lemma log_read_line_log s put get w :
  log (log_read_line s put get w).1.2 = log s.
Proof.
  unfold log_read_line. destruct (read_loop _ _ _ _ _ _ _ _) as [[k buf] w'].
  reflexivity.
Qed.

(** An iteration over a ring that stands still. *)
Lemma dump_iter_static a p c d s g w :
  log s = static_rb a p c d ->
  u32 p <> g ->
  log (line_read s g w).1.2 = static_rb a p c d /\
  exists w',
    dump_iter s g w =
      (Next (if u32 (u32 a - g) >? u32 c then u32 (u32 a - u32 c)
             else u32 (g + (line_read s g w).1.1)),
       (line_read s g w).1.2, w').
Proof.
  intros HL Hne. split.
  - unfold line_read. rewrite log_read_line_log. exact HL.
  - assert (Hput : seen_put s w = u32 p).
    { unfold seen_put, load_put. rewrite HL. reflexivity. }
    assert (Halloc : seen_alloc s g w = u32 a).
    { unfold seen_alloc, load_alloc. rewrite HL. reflexivity. }
    rewrite dump_iter_body by (rewrite Hput; exact Hne). cbv zeta.
    rewrite Halloc. unfold load_sz at 1 2. rewrite HL.
    change (sz (static_rb a p c d)) with c.
    destruct (_ >? _); eexists; reflexivity.
Qed.

Lemma ring_ahead_spins fuel :
  forall s w g,
    log s = ring_ahead ->
    g = 0 \/ g = 84 \/ g = 339 ->
    (dump_loop fuel s g w).1.1 = None.
Proof.
  induction fuel as [| fuel IH]; intros s w g HL Hg; [reflexivity |].
  cbn [dump_loop].
  assert (Hne : u32 10 <> g) by (destruct Hg as [-> | [-> | ->]]; discriminate).
  destruct (dump_iter_static 100 10 16 _ s g w HL Hne) as [HL' (w' & Hrun)].
  rewrite Hrun. apply IH; [exact HL' |].
  destruct Hg as [-> | [-> | ->]].
  - right. left. reflexivity.
  - right. right.
    change (u32 (u32 100 - 84) >? u32 16) with false. cbv iota.
    unfold line_read. rewrite log_read_line_no_newline.
    + unfold seen_put, load_put. rewrite HL. reflexivity.
    + intros t idx. rewrite HL. discriminate.
  - right. left. reflexivity.
Qed.

(** C4.  The claim holds of no run on [ring_ahead], a ring that does not
    change at all while the consumer runs: capacity 16, committed counter
    10, reserved counter 100.  From the probed state the first iteration
    reports an overflow and sets the cursor to 100 - 16 = 84, past the
    committed counter, so the order "alloc >= put >= get" that the comment
    in [trusty_dump_logs] relies on is gone.  The next iteration calls
    [log_read_line] with a negative [put - get], copies 255 bytes that were
    never committed, hands them to the rate limiter and moves the cursor to
    339; from there an overflow is reported again and the cursor is back at
    84.  The drain does not return, whatever number of iterations it is
    given. *)
Theorem C4_drain_spins rl :
  let i1 := dump_iter (probed ring_ahead) 0 (boot rl) in
  let i2 := dump_iter i1.1.2 84 i1.2 in
  let i3 := dump_iter i2.1.2 339 i2.2 in
  (i1.1.1 = Next 84 /\ klog i1.2 = [dev_err "log overflow."]) /\
  (seen_put i1.1.2 i1.2 = 10 /\
   s32 (10 - 84) < 0 /\
   (line_read i1.1.2 84 i1.2).1.1 = 255 /\
   i2.1.1 = Next 339 /\
   c_str (line_buffer i2.1.2) = replicate 255 "x"%char /\
   klog i2.2
   = klog i1.2 ++ (if rl 0%nat then [dev_info (line_buffer i2.1.2)] else [])) /\
  (i3.1.1 = Next 84 /\ klog i3.2 = klog i2.2 ++ [dev_err "log overflow."]) /\
  (forall fuel,
     (trusty_dump_logs fuel (probed ring_ahead) (boot rl)).1.1 = false) /\
  ~ (exists fuel s' w',
       trusty_dump_logs fuel (probed ring_ahead) (boot rl) = (true, s', w')).
Proof.
  cbv zeta.
  assert (Hspin : forall fuel,
            (trusty_dump_logs fuel (probed ring_ahead) (boot rl)).1.1
            = false).
  { intros fuel. unfold trusty_dump_logs.
    change (negb (is_power_of_2 (load_sz (log (probed ring_ahead)))))
      with false. cbv iota.
    change (u32 (get (probed ring_ahead))) with 0.
    pose proof (ring_ahead_spins fuel (probed ring_ahead) (boot rl) 0
                  eq_refl (or_introl eq_refl)) as Hnone.
    destruct (dump_loop fuel (probed ring_ahead) 0 (boot rl))
      as [[[g |] s1] w1]; [discriminate Hnone | reflexivity]. }
  split; [split; vm_compute; reflexivity |].
  split; [| split; [| split; [exact Hspin |]]].
  - split; [vm_compute; reflexivity |].
    split; [vm_compute; reflexivity |].
    split; [vm_compute; reflexivity |].
    split; [vm_compute; reflexivity |].
    split; [vm_compute; reflexivity |].
    vm_compute. destruct (rl 0%nat); reflexivity.
  - split; [vm_compute; reflexivity |].
    vm_compute. destruct (rl 0%nat); reflexivity.
  - intros (fuel & s' & w' & Hrun). specialize (Hspin fuel).
    rewrite Hrun in Hspin. discriminate.
Qed.

Lemma u32_below_0 y : - 2 ^ 32 <= y < 0 -> u32 y = y + 2 ^ 32.
Proof.
  intros H. unfold u32. rewrite <- (Z.mod_add y 1 (2 ^ 32)) by lia.
  apply Z.mod_small. lia.
Qed.

Lemma u32_sub_sub a x : u32 (a - u32 (a - x)) = u32 x.
Proof. rewrite u32_sub_r. f_equal. lia. Qed.

Lemma u32_after_advance a g n : u32 (a - u32 (g + n)) = u32 (u32 (a - g) - n).
Proof. rewrite u32_sub_r, u32_sub_l. f_equal. lia. Qed.

Lemma u32_put_minus_get a p g :
  u32 (u32 p - g) = u32 (u32 (a - g) - u32 (a - p)).
Proof. rewrite !u32_sub_l, u32_sub_r. f_equal. lia. Qed.

Section Still.

Variables (a p c : Z) (d : Z -> ascii).
Hypothesis Hpow : is_power_of_2 (u32 c) = true.
Hypothesis Hwin : u32 (a - p) <= u32 c.

Lemma pending_work_bounds g : 0 <= pending_work a p c g <= 2 * u32 c + 2.
Proof.
  unfold pending_work. cbv zeta.
  pose proof (u32_range (a - g)). pose proof (u32_range c).
  pose proof (u32_range (a - p)).
  rewrite Z.gtb_ltb.
  destruct (Z.ltb_spec (u32 c) (u32 (a - g)));
    [| destruct (Z.leb_spec (u32 (a - p)) (u32 (a - g)))]; lia.
Qed.

(** Every iteration brings the loop closer to its end. *)
Lemma dump_iter_static_decreases s g w :
  log s = static_rb a p c d ->
  0 <= g < 2 ^ 32 ->
  u32 p <> g ->
  exists g' s' w',
    dump_iter s g w = (Next g', s', w') /\
    log s' = static_rb a p c d /\
    0 <= g' < 2 ^ 32 /\
    pending_work a p c g' < pending_work a p c g.
Proof.
  intros HL Hg Hne.
  destruct (dump_iter_static a p c d s g w HL Hne) as [HL' (w' & Hrun)].
  eexists _, _, _. split; [exact Hrun |]. split; [exact HL' |].
  set (n := (line_read s g w).1.1).
  assert (Hn : 1 <= n <= u32 (u32 p - g) /\ n <= 255).
  { unfold n, line_read.
    assert (Hput : seen_put s w = u32 p).
    { unfold seen_put, load_put. rewrite HL. reflexivity. }
    rewrite Hput.
    pose proof (log_read_line_pos s (u32 p) g (load_put (log s) w).2) as H1.
    pose proof (log_read_line_le s (u32 p) g (load_put (log s) w).2) as H2.
    pose proof (max_to_read_le_diff (u32 p) g) as H3.
    pose proof (max_to_read_range (u32 p) g) as H4.
    rewrite u32_u32, (u32_small g Hg) in H1. specialize (H1 Hne). lia. }
  destruct (pow2_u32 c Hpow) as (k & Hk & Hc).
  pose proof (pow2_bounds k Hk) as HC. rewrite <- Hc in HC. clear k Hk Hc.
  rewrite (u32_put_minus_get a) in Hn.
  rewrite u32_sub_l.
  unfold pending_work. cbv zeta.
  destruct (Z.gtb_spec (u32 (a - g)) (u32 c)) as [Hover | Hok].
  - (* overflow: the cursor jumps to the start of the window *)
    split; [apply u32_range |].
    rewrite u32_sub_l, u32_sub_sub, u32_u32.
    pose proof (u32_range (a - p)).
    destruct (Z.gtb_spec (u32 c) (u32 c)); [lia |].
    destruct (Z.leb_spec (u32 (a - p)) (u32 c)); lia.
  - split; [apply u32_range |].
    rewrite u32_after_advance.
    pose proof (u32_range (a - g)) as Hx.
    pose proof (u32_range (a - p)) as He.
    set (x := u32 (a - g)) in *. set (e := u32 (a - p)) in *.
    set (C := u32 c) in *.
    destruct (Z.leb_spec e x) as [Hin | Hpast].
    + (* inside the window: the bytes left up to [put] shrink *)
      assert (Hd : u32 (x - e) = x - e) by (apply u32_small; lia).
      rewrite Hd in Hn.
      assert (Hx' : u32 (x - n) = x - n) by (apply u32_small; lia).
      rewrite Hx'.
      destruct (Z.gtb_spec (x - n) C); [lia |].
      destruct (Z.leb_spec e (x - n)); lia.
    + (* past [put]: the cursor runs towards [alloc], then overflows *)
      destruct (Z.le_gt_cases n x) as [Hle | Hgt].
      * assert (Hx' : u32 (x - n) = x - n) by (apply u32_small; lia).
        rewrite Hx'.
        destruct (Z.gtb_spec (x - n) C); [lia |].
        destruct (Z.leb_spec e (x - n)); lia.
      * assert (Hx' : u32 (x - n) = x - n + 2 ^ 32)
          by (apply u32_below_0; lia).
        rewrite Hx'.
        destruct (Z.gtb_spec (x - n + 2 ^ 32) C); lia.
Qed.

(** The loop is left after at most [pending_work] iterations. *)
Lemma dump_loop_static_terminates m :
  forall s g w,
    log s = static_rb a p c d ->
    0 <= g < 2 ^ 32 ->
    pending_work a p c g <= Z.of_nat m ->
    exists s' w',
      dump_loop (S m) s g w = (Some (u32 p), s', w').
Proof.
  induction m as [| m IH]; intros s g w HL Hg Hwork;
    destruct (Z.eq_dec (u32 p) g) as [Heq | Hne].
  - cbn [dump_loop]. rewrite dump_iter_break.
    + subst g. eexists _, _. reflexivity.
    + unfold seen_put, load_put. rewrite HL. exact Heq.
  - exfalso.
    destruct (dump_iter_static_decreases s g w HL Hg Hne)
      as (g' & s' & w' & _ & _ & _ & Hlt).
    pose proof (pending_work_bounds g'). lia.
  - cbn [dump_loop]. rewrite dump_iter_break.
    + subst g. eexists _, _. reflexivity.
    + unfold seen_put, load_put. rewrite HL. exact Heq.
  - destruct (dump_iter_static_decreases s g w HL Hg Hne)
      as (g' & s' & w' & Hrun & HL' & Hg' & Hlt).
    change (dump_loop (S (S m)) s g w)
      with (match dump_iter s g w with
            | (Break, s', w') => (Some g, s', w')
            | (Next get', s', w') => dump_loop (S m) s' get' w'
            end).
    rewrite Hrun. apply IH; [exact HL' | exact Hg' | lia].
Qed.

End Still.

(** A drain that can be seen to return.  For a capacity that is a power
    of two: a drain that finds the committed counter equal to the cursor
    returns after that one load, having printed nothing, read nothing from
    the data region and left the line buffer alone.  A drain of a ring that
    does not change while it runs and whose reserved counter is at most the
    capacity ahead of the committed one (in [u32]) returns within
    2 * capacity + 3 evaluations of the loop condition, with the cursor at
    the committed counter. *)
Lemma still_drain_terminates s w :
  (exists k, 0 <= k /\ load_sz (log s) = 2 ^ k) ->
  (seen_put s w = u32 (get s) ->
   forall fuel,
     trusty_dump_logs (S fuel) s w = (true, set_get s (u32 (get s)), tick w)) /\
  (forall a p c d,
     log s = static_rb a p c d ->
     u32 (a - p) <= u32 c ->
     exists s' w',
       trusty_dump_logs (S (Z.to_nat (2 * u32 c + 2))) s w = (true, s', w') /\
       get s' = u32 p).
Proof.
  intros Hk. apply is_power_of_2_spec in Hk. split.
  - intros Heq fuel. unfold trusty_dump_logs. rewrite Hk. cbn [negb dump_loop].
    rewrite dump_iter_break by exact Heq. reflexivity.
  - intros a p c d HL Hwin. unfold trusty_dump_logs. rewrite Hk. cbn [negb].
    unfold load_sz in Hk. rewrite HL in Hk.
    change (sz (static_rb a p c d)) with c in Hk.
    destruct (dump_loop_static_terminates a p c d Hk Hwin
                (Z.to_nat (2 * u32 c + 2)) s (u32 (get s)) w HL
                (u32_range _)) as (s' & w' & Hrun).
    { pose proof (pending_work_bounds a p c Hwin (u32 (get s))). lia. }
    rewrite Hrun. eexists _, _. split; reflexivity.
Qed.

(** ** Lines *)

Lemma take_line_app n text :
  (take_line n text).1 ++ (take_line n text).2 = text.
Proof.
  revert text. induction n as [| n IH]; intros [| c text]; try reflexivity.
  cbn [take_line]. destruct (Ascii.eqb c newline); [reflexivity |].
  specialize (IH text). destruct (take_line n text) as [line rest].
  cbn [fst snd app] in *. rewrite IH. reflexivity.
Qed.

Lemma take_line_pos n c text : (1 <= length (take_line (S n) (c :: text)).1)%nat.
Proof.
  cbn [take_line]. destruct (Ascii.eqb c newline); [cbn; lia |].
  destruct (take_line n text) as [line rest]. cbn. lia.
Qed.

(** [take_line] is determined by where a copy that obeys the loop
    condition of [log_read_line] stops. *)
Lemma take_line_stop (text : list ascii) :
  forall n k : nat,
    (k <= n)%nat -> (k <= length text)%nat ->
    k = Nat.min n (length text) \/ last (take k text) = Some newline ->
    Forall (fun x => x <> newline) (removelast (take k text)) ->
    take_line n text = (take k text, drop k text).
Proof.
  induction text as [| c text IH]; intros n k Hn Hk Hstop Hnl.
  - cbn in Hk. assert (k = 0%nat) as -> by lia. destruct n; reflexivity.
  - destruct n as [| n].
    { assert (k = 0%nat) as -> by lia. reflexivity. }
    destruct k as [| k].
    { exfalso. destruct Hstop as [H | H]; cbn in H; [lia | discriminate]. }
    cbn [take drop firstn skipn] in *. cbn [take_line length] in *.
    destruct (Ascii.eqb_spec c newline) as [-> | Hc].
    + destruct k as [| k]; [reflexivity | exfalso].
      destruct text as [| c' text]; [cbn in Hk; lia |].
      cbn in Hnl. inversion Hnl. congruence.
    + rewrite (IH n k); [reflexivity | lia | lia | |].
      * destruct Hstop as [H | H]; [left; lia | right].
        destruct (take k text) as [| c' l] eqn:Ht.
        -- cbn in H. congruence.
        -- rewrite last_cons_cons in H. exact H.
      * destruct (take k text) as [| c' l] eqn:Ht; [constructor |].
        change (removelast (c :: c' :: l)) with (c :: removelast (c' :: l))
          in Hnl.
        inversion Hnl. assumption.
Qed.

Lemma cut_lines_fuel n :
  forall fuel1 fuel2 text,
    (length text <= fuel1)%nat -> (length text <= fuel2)%nat -> (0 < n)%nat ->
    cut_lines fuel1 n text = cut_lines fuel2 n text.
Proof.
  intros fuel1. induction fuel1 as [| fuel1 IH]; intros fuel2 text H1 H2 Hn.
  - destruct text; [| cbn in H1; lia]. destruct fuel2; reflexivity.
  - destruct text as [| c text]; [destruct fuel2; reflexivity |].
    destruct fuel2 as [| fuel2]; [cbn in H2; lia |].
    cbn [cut_lines].
    pose proof (take_line_app n (c :: text)) as Happ.
    destruct n as [| n]; [lia |].
    pose proof (take_line_pos n c text) as Hpos.
    destruct (take_line (S n) (c :: text)) as [line rest].
    cbn [fst snd] in *. f_equal.
    apply (f_equal length) in Happ. rewrite length_app in Happ.
    cbn [length] in *. apply IH; lia.
Qed.

(** Cutting a text into lines loses nothing and keeps the order. *)
Lemma concat_cut_lines n :
  forall fuel text,
    (length text <= fuel)%nat -> (0 < n)%nat ->
    concat (cut_lines fuel n text) = text.
Proof.
  intros fuel. induction fuel as [| fuel IH]; intros text Hf Hn.
  - destruct text; [reflexivity | cbn in Hf; lia].
  - destruct text as [| c text]; [reflexivity |].
    cbn [cut_lines].
    pose proof (take_line_app n (c :: text)) as Happ.
    destruct n as [| n]; [lia |].
    pose proof (take_line_pos n c text) as Hpos.
    destruct (take_line (S n) (c :: text)) as [line rest].
    cbn [fst snd concat] in *. rewrite IH; [exact Happ | | lia].
    apply (f_equal length) in Happ. rewrite length_app in Happ.
    cbn [length] in *. lia.
Qed.

Lemma cut_lines_length n :
  forall fuel text, (length (cut_lines fuel n text) <= fuel)%nat.
Proof.
  intros fuel. induction fuel as [| fuel IH]; intros text; [cbn; lia |].
  destruct text as [| c text]; cbn [cut_lines]; [cbn; lia |].
  destruct (take_line n (c :: text)) as [line rest]. cbn [length].
  specialize (IH rest). lia.
Qed.

(** Unfolding [lines_255] by one line. *)
Lemma lines_255_cons c text :
  lines_255 (c :: text) =
    (take_line 255 (c :: text)).1 :: lines_255 (take_line 255 (c :: text)).2.
Proof.
  unfold lines_255. cbn [length cut_lines].
  pose proof (take_line_app 255 (c :: text)) as Happ.
  pose proof (take_line_pos 254 c text) as Hpos.
  destruct (take_line 255 (c :: text)) as [line rest].
  cbn [fst snd] in *. f_equal.
  apply (f_equal length) in Happ. rewrite length_app in Happ.
  cbn [length] in *. apply cut_lines_fuel; lia.
Qed.

(** A text without newline that fits the line buffer is one line. *)
Lemma take_line_all text :
  forall n,
    Forall (fun x => x <> newline) text -> (length text <= n)%nat ->
    take_line n text = (text, []).
Proof.
  induction text as [| c text IH]; intros n Hnl Hn; [destruct n; reflexivity |].
  destruct n as [| n]; [cbn in Hn; lia |].
  apply Forall_cons in Hnl. destruct Hnl as [Hc Hnl].
  cbn [take_line]. destruct (Ascii.eqb_spec c newline) as [| _];
    [contradiction |].
  rewrite IH; [reflexivity | exact Hnl | cbn in Hn; lia].
Qed.

Lemma lines_255_one text :
  text <> [] -> Forall (fun x => x <> newline) text ->
  (length text <= 255)%nat ->
  lines_255 text = [text].
Proof.
  intros Hne Hnl Hlen. destruct text as [| c text]; [congruence |].
  rewrite lines_255_cons, take_line_all by assumption. reflexivity.
Qed.

(** ** What a still ring holds *)

Lemma source_static a p c d idxs :
  forall t, source (static_rb a p c d) t idxs = map d idxs.
Proof.
  induction idxs as [| idx idxs IH]; intros t; [reflexivity |].
  cbn [source map]. rewrite IH. reflexivity.
Qed.

Lemma map_seq_from {A} (f : nat -> A) m :
  forall k, map f (seq k m) = map (fun j => f (k + j)%nat) (seq 0 m).
Proof.
  induction m as [| m IH]; intros k; [reflexivity |].
  cbn [seq map]. rewrite Nat.add_0_r. f_equal.
  rewrite IH, <- seq_shift, map_map. apply map_ext. intros j.
  f_equal. lia.
Qed.

Lemma offsets_map mask k :
  0 <= mask < 2 ^ 32 ->
  forall g,
    offsets mask (s32 g) k =
      map (fun j : nat => Z.land (u32 (g + Z.of_nat j)) mask) (seq 0 k).
Proof.
  intros Hm. induction k as [| k IH]; intros g; [reflexivity |].
  cbn [offsets seq map]. rewrite land_size_t_s32 by exact Hm.
  rewrite s32_add_l, IH. f_equal.
  - do 2 f_equal. lia.
  - rewrite (map_seq_from _ k 1). apply map_ext. intros j.
    do 2 f_equal. lia.
Qed.

Lemma ring_bytes_prefix c d g (n k : nat) text :
  ring_bytes c d g n = text -> (k <= n)%nat ->
  ring_bytes c d g k = take k text.
Proof.
  intros <- Hk. unfold ring_bytes.
  rewrite firstn_map, take_seq. do 2 f_equal. lia.
Qed.

Lemma ring_bytes_rest c d g (n k : nat) text :
  ring_bytes c d g n = text -> (k <= n)%nat ->
  ring_bytes c d (u32 (g + Z.of_nat k)) (n - k) = drop k text.
Proof.
  intros <- Hk. unfold ring_bytes.
  rewrite skipn_map, skipn_seq. rewrite (map_seq_from _ (n - k) (0 + k)).
  apply map_ext. intros j. rewrite u32_add_l. do 3 f_equal. lia.
Qed.

Lemma u32_advance_ne g n :
  0 <= g < 2 ^ 32 -> 0 < n < 2 ^ 32 -> u32 (g + n) <> g.
Proof.
  intros Hg Hn Heq.
  destruct (Z.lt_ge_cases (g + n) (2 ^ 32)) as [Hlt | Hge].
  - rewrite u32_small in Heq by lia. lia.
  - unfold u32 in Heq.
    rewrite <- (Z.mod_add (g + n) (-1) (2 ^ 32)) in Heq by lia.
    rewrite Z.mod_small in Heq by lia. lia.
Qed.

(** The bound [log_read_line] computes when [n] bytes are left before the
    end counter. *)
Lemma max_to_read_pending put g (n : Z) :
  0 <= n <= 2 ^ 31 ->
  u32 (put - g) = n ->
  max_to_read put g = Z.min n 255.
Proof.
  intros Hn Hd. pose proof (s32_of_u32 (put - g)) as Hs. rewrite Hd in Hs.
  destruct (Z.ltb_spec n (2 ^ 31)).
  - rewrite max_to_read_nonneg by lia. rewrite Hs.
    unfold TRUSTY_LINE_BUFFER_SIZE. lia.
  - rewrite max_to_read_neg by lia. lia.
Qed.

Section StillLines.

Variables (a p c : Z) (d : Z -> ascii).
Hypothesis Hpow : is_power_of_2 (u32 c) = true.

(** An iteration that has [text], not empty, between the cursor and the
    committed counter, inside the window behind the reserved counter,
    hands the first line of [text] to the rate limiter and steps over
    it. *)
Lemma dump_iter_still_line text s g w :
  log s = static_rb a p c d ->
  length (line_buffer s) = 256%nat ->
  0 <= g < 2 ^ 32 ->
  text <> [] ->
  u32 p = u32 (g + Z.of_nat (length text)) ->
  Z.of_nat (length text) <= u32 (a - g) ->
  u32 (a - g) <= u32 c ->
  ring_bytes c d g (length text) = text ->
  exists s' w',
    dump_iter s g w =
      (Next (u32 (g + Z.of_nat (length (take_line 255 text).1))), s', w') /\
    log s' = static_rb a p c d /\
    get s' = get s /\
    length (line_buffer s') = 256%nat /\
    holds_line (line_buffer s') (take_line 255 text).1 /\
    klog w' =
      klog w ++ (if rate_limit w (rl_calls w)
                 then [dev_info (line_buffer s')] else []) /\
    rl_calls w' = S (rl_calls w) /\
    rate_limit w' = rate_limit w.
Proof.
  intros HL Hlen Hg Hne Hput Hlo Hhi Hbytes.
  destruct (pow2_u32 c Hpow) as (e & He & Hc).
  pose proof (pow2_bounds e He) as HC. rewrite <- Hc in HC. clear e He Hc.
  assert (Hn : 0 < Z.of_nat (length text)).
  { destruct text; [congruence | cbn [length]; lia]. }
  assert (Hsp : seen_put s w = u32 p).
  { unfold seen_put, load_put. rewrite HL. reflexivity. }
  assert (Hsa : seen_alloc s g w = u32 a).
  { unfold seen_alloc, load_alloc. rewrite HL. reflexivity. }
  assert (Hsz : load_sz (log s) = u32 c).
  { unfold load_sz. rewrite HL. reflexivity. }
  assert (Hdiff : seen_put s w <> g).
  { rewrite Hsp, Hput. apply u32_advance_ne; lia. }
  destruct (dump_iter_no_overflow s g w Hdiff)
    as (w' & Hrun & Hklog & Hrl & Hrate).
  { rewrite Hsa, Hsz, u32_sub_l. exact Hhi. }
  (* what the copy did *)
  destruct (log_read_line_spec s (s32 (seen_put s w)) (s32 g)
              (load_put (log s) w).2 Hlen)
    as (k & Hmax & Hread & Hstop & Hnl).
  fold (line_read s g w) in Hread.
  rewrite max_to_read_s32, Hsp in Hmax, Hstop.
  assert (Hbound : max_to_read (u32 p) g
                   = Z.min (Z.of_nat (length text)) 255).
  { apply max_to_read_pending; [lia |].
    rewrite Hput, u32_sub_l.
    replace (g + Z.of_nat (length text) - g) with (Z.of_nat (length text))
      by lia.
    apply u32_small. lia. }
  rewrite Hbound in Hmax, Hstop.
  assert (Hcs : forall t,
            source (log s) t
              (offsets (size_t (u32 (load_sz (log s) - 1))) (s32 g) k)
            = ring_bytes c d g k).
  { intros t. rewrite Hsz, (mask_of_pow2 c Hpow), HL, source_static.
    rewrite offsets_map by lia. unfold ring_bytes. apply map_map. }
  rewrite Hcs in Hread, Hstop, Hnl.
  assert (Hk : (k <= length text)%nat) by lia.
  rewrite (ring_bytes_prefix c d g _ k text Hbytes Hk) in Hread, Hstop, Hnl.
  assert (Hline : take_line 255 text = (take k text, drop k text)).
  { apply take_line_stop; [lia | lia | | exact Hnl].
    destruct Hstop as [H | H]; [left; lia | right; exact H]. }
  rewrite Hline. cbn [fst].
  assert (Htake : length (take k text) = k) by (rewrite length_take; lia).
  rewrite Hread in Hrun, Hklog. cbn [fst snd] in Hrun, Hklog.
  eexists _, w'. split; [rewrite Htake; exact Hrun |].
  cbn [log get line_buffer set_line_buffer].
  split; [exact HL |]. split; [reflexivity |]. split; [| split].
  - rewrite length_app. cbn [length]. rewrite length_drop, Htake. lia.
  - eexists. reflexivity.
  - split; [exact Hklog |]. split; [exact Hrl | exact Hrate].
Qed.

End StillLines.

Section StillLoop.

Variables (a p c : Z) (d : Z -> ascii).
Hypothesis Hpow : is_power_of_2 (u32 c) = true.

(** The loop over a still ring that has [text] between the cursor and
    the committed counter: every line of [text] goes to the rate limiter
    in turn, one per iteration, and the loop is left with the cursor at the
    committed counter. *)
Lemma dump_loop_still_lines n :
  forall text s g w,
    (length (lines_255 text) <= n)%nat ->
    log s = static_rb a p c d ->
    length (line_buffer s) = 256%nat ->
    0 <= g < 2 ^ 32 ->
    u32 p = u32 (g + Z.of_nat (length text)) ->
    Z.of_nat (length text) <= u32 (a - g) ->
    u32 (a - g) <= u32 c ->
    ring_bytes c d g (length text) = text ->
    exists s' w' bufs,
      dump_loop (S n) s g w = (Some (u32 p), s', w') /\
      log s' = static_rb a p c d /\
      get s' = get s /\
      length (line_buffer s') = 256%nat /\
      klog w' = klog w ++ map dev_info bufs /\
      Forall2 holds_line bufs
        (passed (rate_limit w) (rl_calls w) (lines_255 text)) /\
      rl_calls w' = (rl_calls w + length (lines_255 text))%nat /\
      rate_limit w' = rate_limit w.
Proof.
  assert (Hempty : forall m s g w,
            log s = static_rb a p c d -> 0 <= g < 2 ^ 32 ->
            u32 p = u32 (g + Z.of_nat (length (@nil ascii))) ->
            dump_loop (S m) s g w = (Some (u32 p), s, tick w)).
  { intros m s g w HL Hg Hput. cbn [length] in Hput.
    rewrite Z.add_0_r, (u32_small g Hg) in Hput.
    cbn [dump_loop]. rewrite dump_iter_break; [rewrite Hput; reflexivity |].
    unfold seen_put, load_put. rewrite HL. exact Hput. }
  induction n as [| n IH];
    intros text s g w Hn HL Hlen Hg Hput Hlo Hhi Hbytes.
  - destruct text as [| c0 text];
      [| rewrite lines_255_cons in Hn; cbn [length] in Hn; lia].
    exists s, (tick w), []. rewrite (Hempty 0%nat s g w HL Hg Hput).
    cbn [klog tick map rl_calls rate_limit]. rewrite app_nil_r, Nat.add_0_r.
    repeat split; try reflexivity; try assumption. constructor.
  - destruct text as [| c0 text].
    { exists s, (tick w), []. rewrite (Hempty (S n) s g w HL Hg Hput).
      cbn [klog tick map rl_calls rate_limit].
      rewrite app_nil_r, Nat.add_0_r.
      repeat split; try reflexivity; try assumption. constructor. }
    destruct (dump_iter_still_line a p c d Hpow (c0 :: text) s g w)
      as (s1 & w1 & Hrun & HL1 & Hget1 & Hlen1 & Hline & Hklog1 & Hrl1
          & Hrate1); try assumption; [discriminate |].
    rewrite lines_255_cons in *.
    pose proof (take_line_app 255 (c0 :: text)) as Happ.
    pose proof (take_line_pos 254 c0 text) as Hpos.
    destruct (take_line 255 (c0 :: text)) as [line rest].
    cbn [fst snd] in *.
    assert (Hlens : length (c0 :: text) = (length line + length rest)%nat).
    { rewrite <- Happ, length_app. reflexivity. }
    assert (Hrest : rest = drop (length line) (c0 :: text)).
    { rewrite <- Happ, drop_app_length. reflexivity. }
    set (g1 := u32 (g + Z.of_nat (length line))) in *.
    destruct (pow2_u32 c Hpow) as (e & He & Hc).
    pose proof (pow2_bounds e He) as HC. rewrite <- Hc in HC. clear e He Hc.
    assert (Hwin1 : u32 (a - g1) = u32 (a - g) - Z.of_nat (length line)).
    { unfold g1. rewrite u32_after_advance. apply u32_small.
      pose proof (u32_range (a - g)). lia. }
    destruct (IH rest s1 g1 w1) as (s' & w' & bufs & Hloop & HL' & Hget'
                                    & Hlen' & Hklog' & Hbufs & Hrl' & Hrate').
    + cbn [length] in Hn. lia.
    + exact HL1.
    + exact Hlen1.
    + apply u32_range.
    + unfold g1. rewrite u32_add_l, Hput. f_equal. lia.
    + lia.
    + lia.
    + rewrite Hrest at 2. unfold g1.
      replace (length rest) with (length (c0 :: text) - length line)%nat
        by lia.
      apply ring_bytes_rest; [exact Hbytes | lia].
    + change (dump_loop (S (S n)) s g w)
        with (match dump_iter s g w with
              | (Break, s', w') => (Some g, s', w')
              | (Next get', s', w') => dump_loop (S n) s' get' w'
              end).
      rewrite Hrun.
      exists s', w',
        (if rate_limit w (rl_calls w) then line_buffer s1 :: bufs else bufs).
      split; [exact Hloop |]. split; [exact HL' |].
      split; [congruence |]. split; [exact Hlen' |].
      rewrite Hrate1, Hrl1 in Hbufs.
      cbn [passed length].
      destruct (rate_limit w (rl_calls w)).
      * split; [| split; [| split]].
        -- rewrite Hklog', Hklog1, <- app_assoc. reflexivity.
        -- constructor; assumption.
        -- lia.
        -- congruence.
      * split; [| split; [| split]].
        -- rewrite Hklog', Hklog1, app_nil_r. reflexivity.
        -- exact Hbufs.
        -- lia.
        -- congruence.
Qed.

End StillLoop.

(** ** Newline-delimited lines *)

Lemma first_line_app text :
  (first_line text).1 ++ (first_line text).2 = text.
Proof.
  induction text as [| c text IH]; [reflexivity |].
  cbn [first_line]. destruct (Ascii.eqb c newline); [reflexivity |].
  destruct (first_line text) as [line rest].
  cbn [fst snd app] in *. rewrite IH. reflexivity.
Qed.

Lemma first_line_pos c text : (1 <= length (first_line (c :: text)).1)%nat.
Proof.
  cbn [first_line]. destruct (Ascii.eqb c newline); [cbn; lia |].
  destruct (first_line text) as [line rest]. cbn. lia.
Qed.

Lemma take_line_first_line text :
  forall n, (length (first_line text).1 <= n)%nat ->
            take_line n text = first_line text.
Proof.
  induction text as [| c text IH]; intros n Hn; [destruct n; reflexivity |].
  pose proof (first_line_pos c text) as Hpos.
  destruct n as [| n]; [lia |].
  cbn [first_line take_line] in *.
  destruct (Ascii.eqb c newline); [reflexivity |].
  rewrite IH; [reflexivity |].
  destruct (first_line text) as [line rest]. cbn in *. lia.
Qed.

Lemma first_line_ends t1 t2 :
  last t1 = Some newline ->
  first_line (t1 ++ t2) = ((first_line t1).1, (first_line t1).2 ++ t2) /\
  ends_line (first_line t1).2.
Proof.
  induction t1 as [| c t1 IH]; intros Hlast; [discriminate |].
  cbn [app first_line].
  destruct (Ascii.eqb_spec c newline) as [-> | Hc].
  - cbn [fst snd]. split; [reflexivity |].
    destruct t1 as [| c' t1]; [left; reflexivity | right].
    rewrite last_cons_cons in Hlast. exact Hlast.
  - destruct t1 as [| c' t1]; [cbn in Hlast; congruence |].
    rewrite last_cons_cons in Hlast. destruct (IH Hlast) as [Heq Hends].
    rewrite Heq. destruct (first_line (c' :: t1)) as [line rest].
    cbn [fst snd] in *. split; [reflexivity | exact Hends].
Qed.

Lemma split_lines_fuel :
  forall fuel1 fuel2 text,
    (length text <= fuel1)%nat -> (length text <= fuel2)%nat ->
    split_lines fuel1 text = split_lines fuel2 text.
Proof.
  intros fuel1. induction fuel1 as [| fuel1 IH]; intros fuel2 text H1 H2.
  - destruct text; [| cbn in H1; lia]. destruct fuel2; reflexivity.
  - destruct text as [| c text]; [destruct fuel2; reflexivity |].
    destruct fuel2 as [| fuel2]; [cbn in H2; lia |].
    cbn [split_lines].
    pose proof (first_line_app (c :: text)) as Happ.
    pose proof (first_line_pos c text) as Hpos.
    destruct (first_line (c :: text)) as [line rest].
    cbn [fst snd] in *. f_equal.
    apply (f_equal length) in Happ. rewrite length_app in Happ.
    cbn [length] in *. apply IH; lia.
Qed.

Lemma lines_of_cons c text :
  lines_of (c :: text) =
    (first_line (c :: text)).1 :: lines_of (first_line (c :: text)).2.
Proof.
  unfold lines_of. cbn [length split_lines].
  pose proof (first_line_app (c :: text)) as Happ.
  pose proof (first_line_pos c text) as Hpos.
  destruct (first_line (c :: text)) as [line rest].
  cbn [fst snd] in *. f_equal.
  apply (f_equal length) in Happ. rewrite length_app in Happ.
  cbn [length] in *. apply split_lines_fuel; lia.
Qed.

(** A text whose lines all fit the line buffer is cut at its newlines and
    nowhere else. *)
Lemma lines_255_short n :
  forall text,
    (length text <= n)%nat ->
    Forall (fun line => (length line <= 255)%nat) (lines_of text) ->
    lines_255 text = lines_of text.
Proof.
  induction n as [| n IH]; intros text Hn Hshort.
  - destruct text; [reflexivity | cbn in Hn; lia].
  - destruct text as [| c text]; [reflexivity |].
    rewrite lines_of_cons in *. rewrite lines_255_cons.
    apply Forall_cons in Hshort. destruct Hshort as [Hfirst Hrest].
    rewrite take_line_first_line by exact Hfirst.
    pose proof (first_line_app (c :: text)) as Happ.
    pose proof (first_line_pos c text) as Hpos.
    destruct (first_line (c :: text)) as [line rest].
    cbn [fst snd] in *. f_equal. apply IH; [| exact Hrest].
    apply (f_equal length) in Happ. rewrite length_app in Happ.
    cbn [length] in *. lia.
Qed.

(** The lines of two texts put together are the lines of each when the
    first one stops at a line end. *)
Lemma lines_of_app n t2 :
  forall t1,
    (length t1 <= n)%nat -> ends_line t1 ->
    lines_of (t1 ++ t2) = lines_of t1 ++ lines_of t2.
Proof.
  induction n as [| n IH]; intros t1 Hn Hends.
  - destruct t1; [reflexivity | cbn in Hn; lia].
  - destruct t1 as [| c t1]; [reflexivity |].
    destruct Hends as [| Hlast]; [discriminate |].
    destruct (first_line_ends (c :: t1) t2 Hlast) as [Heq Hends].
    change ((c :: t1) ++ t2) with (c :: (t1 ++ t2)) in *.
    rewrite !lines_of_cons, Heq. cbn [fst snd].
    pose proof (first_line_app (c :: t1)) as Happ.
    pose proof (first_line_pos c t1) as Hpos.
    destruct (first_line (c :: t1)) as [line rest].
    cbn [fst snd app] in *. f_equal. apply IH; [| exact Hends].
    apply (f_equal length) in Happ. rewrite length_app in Happ.
    cbn [length] in *. lia.
Qed.

(** Writes that each stop at a line end: the lines of the whole text are
    the lines of the writes, and when all of them fit the line buffer they
    are what the drains make of the writes. *)
Lemma lines_of_writes ws :
  Forall ends_line ws ->
  Forall (fun line => (length line <= 255)%nat) (lines_of (concat ws)) ->
  concat (map lines_255 ws) = lines_of (concat ws).
Proof.
  induction ws as [| text ws IH]; intros Hends Hshort; [reflexivity |].
  inversion Hends as [| ? ? Hend Hends']. subst.
  cbn [concat map] in *.
  rewrite (lines_of_app (length text) _ text (le_n _) Hend) in *.
  apply Forall_app in Hshort. destruct Hshort as [Hs1 Hs2].
  rewrite (lines_255_short (length text) text (le_n _) Hs1).
  rewrite (IH Hends' Hs2). reflexivity.
Qed.

Lemma concat_lines_255 ws :
  concat (concat (map lines_255 ws)) = concat ws.
Proof.
  induction ws as [| text ws IH]; [reflexivity |].
  cbn [map concat]. rewrite concat_app, IH. f_equal.
  apply concat_cut_lines; lia.
Qed.

(** ** A drain, and drains in a row, over still rings *)

Lemma passed_app rl lines1 :
  forall k lines2,
    passed rl k (lines1 ++ lines2) =
      passed rl k lines1 ++ passed rl (k + length lines1) lines2.
Proof.
  induction lines1 as [| line lines1 IH]; intros k lines2; cbn [app passed].
  - cbn [length]. rewrite Nat.add_0_r. reflexivity.
  - rewrite IH. cbn [length].
    replace (S k + length lines1)%nat with (k + S (length lines1))%nat by lia.
    destruct (rl k); reflexivity.
Qed.

Lemma passed_Forall (Q : list ascii -> Prop) rl lines :
  forall k, Forall Q lines -> Forall Q (passed rl k lines).
Proof.
  induction lines as [| line lines IH]; intros k Hall; cbn [passed];
    [constructor |].
  apply Forall_cons in Hall. destruct Hall as [Hline Hall].
  destruct (rl k); [constructor; [exact Hline |] |]; apply IH, Hall.
Qed.

Lemma Forall_lines (P : ascii -> Prop) lines :
  Forall P (concat lines) -> Forall (Forall P) lines.
Proof.
  induction lines as [| line lines IH]; cbn [concat]; intros H;
    [constructor |].
  apply Forall_app in H. destruct H as [H1 H2].
  constructor; [exact H1 | apply IH, H2].
Qed.

Lemma Forall_text (P : ascii -> Prop) lines :
  Forall (Forall P) lines -> Forall P (concat lines).
Proof.
  induction 1 as [| line lines H1 _ IH]; cbn [concat]; [constructor |].
  apply Forall_app. split; assumption.
Qed.

(** A buffer that holds a line without NUL is printed as that line. *)
Lemma printed_lines bufs lines :
  Forall2 holds_line bufs lines ->
  Forall (Forall (fun x => x <> NUL)) lines ->
  map c_str bufs = lines.
Proof.
  induction 1 as [| buf line bufs lines [rest ->] _ IH]; intros Hnul;
    [reflexivity |].
  apply Forall_cons in Hnul. destruct Hnul as [Hline Hnul].
  cbn [map]. rewrite c_str_app_NUL by exact Hline. rewrite IH by exact Hnul.
  reflexivity.
Qed.

Lemma trusty_dump_logs_still_lines r text s w fuel :
  is_power_of_2 (u32 (r_sz r)) = true ->
  length (line_buffer s) = 256%nat ->
  0 <= get s < 2 ^ 32 ->
  holds_text r (get s) text ->
  (length text < fuel)%nat ->
  exists s' w' bufs,
    trusty_dump_logs fuel (set_log s (frozen r)) w = (true, s', w') /\
    get s' = u32 (get s + Z.of_nat (length text)) /\
    length (line_buffer s') = 256%nat /\
    klog w' = klog w ++ map dev_info bufs /\
    Forall2 holds_line bufs
      (passed (rate_limit w) (rl_calls w) (lines_255 text)) /\
    rl_calls w' = (rl_calls w + length (lines_255 text))%nat /\
    rate_limit w' = rate_limit w.
Proof.
  intros Hpow Hlen Hget (Hput & Hlo & Hhi & Hbytes) Hfuel.
  destruct (dump_loop_still_lines (r_alloc r) (r_put r) (r_sz r)
              (region (r_data r)) Hpow (length text) text
              (set_log s (frozen r)) (get s) w)
    as (s' & w' & bufs & Hloop & _ & _ & Hlen' & Hklog & Hbufs & Hrl & Hrate);
    try assumption; try reflexivity; [apply cut_lines_length |].
  unfold trusty_dump_logs.
  change (load_sz (log (set_log s (frozen r)))) with (u32 (r_sz r)).
  rewrite Hpow. cbn [negb].
  change (get (set_log s (frozen r))) with (get s).
  rewrite (u32_small (get s) Hget).
  replace fuel with (S (length text) + (fuel - S (length text)))%nat by lia.
  rewrite (dump_loop_more _ _ _ _ _ _ _ _ Hloop).
  exists (set_get s' (u32 (r_put r))), w', bufs.
  split; [reflexivity |]. cbn [get set_get line_buffer].
  split; [exact Hput |]. auto 10.
Qed.

Lemma drains_lines c fuel :
  is_power_of_2 (u32 c) = true ->
  forall ws rs s w,
    length (line_buffer s) = 256%nat ->
    0 <= get s < 2 ^ 32 ->
    follows c (get s) ws rs ->
    Forall (fun text => (length text < fuel)%nat) ws ->
    exists s' w' bufs,
      drains fuel rs s w = (true, s', w') /\
      get s' = u32 (get s + Z.of_nat (length (concat ws))) /\
      klog w' = klog w ++ map dev_info bufs /\
      Forall2 holds_line bufs
        (passed (rate_limit w) (rl_calls w) (concat (map lines_255 ws))).
Proof.
  intros Hpow ws.
  induction ws as [| text ws IH]; intros rs s w Hlen Hget Hfol Hfuel;
    destruct rs as [| r rs]; try contradiction.
  - exists s, w, []. cbn [drains concat map length passed].
    rewrite Z.add_0_r, app_nil_r, (u32_small _ Hget).
    repeat split. constructor.
  - destruct Hfol as (Hsz & Hholds & Hfol).
    apply Forall_cons in Hfuel. destruct Hfuel as [Hf1 Hfuel].
    destruct (trusty_dump_logs_still_lines r text s w fuel)
      as (s1 & w1 & bufs1 & Hrun1 & Hget1 & Hlen1 & Hklog1 & Hbufs1 & Hrl1
          & Hrate1); try assumption.
    { rewrite Hsz. exact Hpow. }
    destruct (IH rs s1 w1) as (s' & w' & bufs & Hrun & Hget' & Hklog & Hbufs);
      try assumption.
    { rewrite Hget1. apply u32_range. }
    { rewrite Hget1. exact Hfol. }
    exists s', w', (bufs1 ++ bufs). cbn [drains]. rewrite Hrun1.
    split; [exact Hrun |]. split; [| split].
    + rewrite Hget', Hget1, u32_add_l. cbn [concat]. rewrite length_app.
      f_equal. lia.
    + rewrite Hklog, Hklog1, map_app, app_assoc. reflexivity.
    + cbn [map concat]. rewrite passed_app.
      apply Forall2_app; [exact Hbufs1 |].
      rewrite Hrate1, Hrl1 in Hbufs. exact Hbufs.
Qed.

Lemma drains_more fuel k rs :
  forall s w s' w',
    drains fuel rs s w = (true, s', w') ->
    drains (fuel + k) rs s w = (true, s', w').
Proof.
  induction rs as [| r rs IH]; intros s w s' w' Hrun; [exact Hrun |].
  cbn [drains] in *.
  destruct (trusty_dump_logs fuel (set_log s (frozen r)) w)
    as [[[|] s1] w1] eqn:Hone; [| discriminate].
  rewrite (trusty_dump_logs_more _ k _ _ _ _ Hone). apply IH, Hrun.
Qed.

Lemma drains_done n fuel rs s w :
  (drains n rs s w).1.1 = true ->
  (n <= fuel)%nat ->
  drains fuel rs s w = drains n rs s w.
Proof.
  intros Hdone Hle. replace fuel with (n + (fuel - n))%nat by lia.
  destruct (drains n rs s w) as [[b s'] w'] eqn:Hrun.
  cbn [fst] in Hdone. subst b. apply drains_more, Hrun.
Qed.

(** ** Every byte in one line *)


(** The drains of a producer that stands still while a drain runs, write
    by write: the producer writes [ws], one write before each drain, into a
    ring of power-of-two capacity [c]; [rs] is what each drain finds.  The
    drains all return, the cursor has moved over all the bytes written, and
    what went to [dev_info] is the lines of each write taken by itself
    minus those the rate limiter denied. *)
Lemma still_drains_emit_lines c fuel ws rs s w :
  (exists k, 0 <= k /\ u32 c = 2 ^ k) ->
  length (line_buffer s) = 256%nat ->
  0 <= get s < 2 ^ 32 ->
  follows c (get s) ws rs ->
  Forall (fun text => (length text < fuel)%nat) ws ->
  exists s' w' bufs,
    drains fuel rs s w = (true, s', w') /\
    get s' = u32 (get s + Z.of_nat (length (concat ws))) /\
    klog w' = klog w ++ map dev_info bufs /\
    Forall2 holds_line bufs
      (passed (rate_limit w) (rl_calls w) (concat (map lines_255 ws))) /\
    (Forall (Forall (fun x => x <> NUL)) ws ->
     map c_str bufs
       = passed (rate_limit w) (rl_calls w) (concat (map lines_255 ws))) /\
    concat (concat (map lines_255 ws)) = concat ws /\
    (Forall ends_line ws ->
     Forall (fun line => (length line <= 255)%nat) (lines_of (concat ws)) ->
     concat (map lines_255 ws) = lines_of (concat ws)).
Proof.
  intros Hk Hlen Hget Hfol Hfuel. apply is_power_of_2_spec in Hk.
  destruct (drains_lines c fuel Hk ws rs s w Hlen Hget Hfol Hfuel)
    as (s' & w' & bufs & Hrun & Hget' & Hklog & Hbufs).
  exists s', w', bufs.
  split; [exact Hrun |]. split; [exact Hget' |]. split; [exact Hklog |].
  split; [exact Hbufs |]. split; [| split].
  - intros Hnul. apply printed_lines; [exact Hbufs |].
    apply passed_Forall, Forall_lines. rewrite concat_lines_255.
    apply Forall_text, Hnul.
  - apply concat_lines_255.
  - apply lines_of_writes.
Qed.

(** ** A producer that runs while the consumer does *)

Lemma length_segment stream G n : length (segment stream G n) = n.
Proof. unfold segment. rewrite length_map, length_seq. reflexivity. Qed.

Lemma segment_lookup stream G n (j : nat) :
  (j < n)%nat -> segment stream G n !! j = Some (stream (G + Z.of_nat j)).
Proof.
  intros Hj. unfold segment.
  change (map ?f ?xs) with (f <$> xs).
  rewrite list_lookup_fmap, lookup_seq_lt by lia. reflexivity.
Qed.

Lemma segment_from stream G (n i : nat) :
  map (fun j : nat => stream (G + Z.of_nat j)) (seq i n)
  = segment stream (G + Z.of_nat i) n.
Proof.
  unfold segment. revert i.
  induction n as [| n IH]; intros i; cbn [seq map]; [reflexivity |].
  f_equal; [f_equal; lia |].
  rewrite IH, <- seq_shift, map_map.
  apply map_ext. intros j. f_equal. lia.
Qed.

Lemma segment_app stream G (a b : nat) :
  segment stream G (a + b)
  = segment stream G a ++ segment stream (G + Z.of_nat a) b.
Proof.
  unfold segment at 1 2. rewrite seq_app, map_app. f_equal.
  apply segment_from.
Qed.

Lemma take_segment stream G (k n : nat) :
  (k <= n)%nat -> take k (segment stream G n) = segment stream G k.
Proof.
  intros Hk. replace n with (k + (n - k))%nat by lia.
  rewrite segment_app, take_app_length'; [reflexivity |].
  symmetry. apply length_segment.
Qed.

Section Moving.

Variables (l : log_rb) (stream : Z -> ascii).
Hypothesis Hcar : carries l stream.
Hypothesis Hpow : is_power_of_2 (u32 (sz l)) = true.

Lemma put_grows t n : put l t <= put l (t + n).
Proof.
  destruct Hcar as (Hput & _).
  induction n as [| n IH]; [rewrite Nat.add_0_r; lia |].
  rewrite Nat.add_succ_r. specialize (Hput (t + n)%nat). lia.
Qed.

Lemma alloc_grows t n : alloc l t <= alloc l (t + n).
Proof.
  destruct Hcar as (_ & Halloc & _).
  induction n as [| n IH]; [rewrite Nat.add_0_r; lia |].
  rewrite Nat.add_succ_r. specialize (Halloc (t + n)%nat). lia.
Qed.

(** What [k] loads starting at the clock [t] find at the counts [G],
    [G + 1], ..., when each byte is committed and not yet overrun at the
    time of its load. *)
Lemma source_carried (k t : nat) G :
  0 <= G ->
  (forall j : nat,
     (j < k)%nat ->
     alloc l (t + j) - u32 (sz l) <= G + Z.of_nat j < put l (t + j)) ->
  source l t (offsets (u32 (sz l) - 1) (s32 (u32 G)) k) = segment stream G k.
Proof.
  intros HG Hwin.
  destruct (pow2_u32 (sz l) Hpow) as (e & He & Hc).
  pose proof (pow2_bounds e He) as HC. rewrite <- Hc in HC.
  destruct Hcar as (_ & _ & _ & Hdata).
  apply (list_eq_same_length _ _ k).
  - apply length_segment.
  - rewrite length_source, length_offsets. reflexivity.
  - intros j x y Hj Hx Hy.
    rewrite (source_lookup _ _ _ j
               (Z.land (u32 (u32 G + Z.of_nat j)) (u32 (sz l) - 1))) in Hx
      by (apply offsets_lookup; lia).
    rewrite segment_lookup in Hy by exact Hj.
    injection Hx as <-. injection Hy as <-.
    rewrite u32_add_l. apply Hdata; [lia | apply Hwin, Hj].
Qed.

(** An iteration that finds the committed count ahead of the cursor,
    with the reserved count within the capacity of the cursor at both
    loads, hands to the rate limiter the first line of what is committed
    beyond the cursor and steps over it. *)
Lemma dump_iter_moving s G w :
  log s = l ->
  length (line_buffer s) = 256%nat ->
  0 <= G <= put l (clock w) ->
  put l (clock w) <> G ->
  alloc l (clock (line_read s (u32 G) w).2) - G <= u32 (sz l) ->
  let line :=
    (take_line 255 (segment stream G (Z.to_nat (put l (clock w) - G)))).1 in
  let s' := (line_read s (u32 G) w).1.2 in
  let w' := (dump_iter s (u32 G) w).2 in
  dump_iter s (u32 G) w = (Next (u32 (G + Z.of_nat (length line))), s', w') /\
  (line_read s (u32 G) w).1.1 = Z.of_nat (length line) /\
  (1 <= length line)%nat /\
  G + Z.of_nat (length line) <= put l (clock w) /\
  log s' = l /\
  get s' = get s /\
  length (line_buffer s') = 256%nat /\
  holds_line (line_buffer s') line /\
  klog w' =
    klog w ++ (if rate_limit w (rl_calls w)
               then [dev_info (line_buffer s')] else []) /\
  rl_calls w' = S (rl_calls w) /\
  rate_limit w' = rate_limit w /\
  length (reads w') = (length (reads w) + length line)%nat /\
  clock w' = (clock w + length line + 2)%nat.
Proof.
  intros HL Hlen HG Hne Hwin. cbv zeta.
  destruct (pow2_u32 (sz l) Hpow) as (e & He & Hc).
  pose proof (pow2_bounds e He) as HC. rewrite <- Hc in HC. clear e He Hc.
  pose proof Hcar as (_ & _ & Hpa & _).
  set (P := put l (clock w)) in *.
  set (n := Z.to_nat (P - G)).
  assert (Hsp : seen_put s w = u32 P).
  { unfold seen_put, load_put. rewrite HL. reflexivity. }
  (* what the copy did *)
  destruct (log_read_line_spec s (s32 (seen_put s w)) (s32 (u32 G))
              (load_put (log s) w).2 Hlen)
    as (k & Hmax & Hread & Hstop & Hnl).
  fold (line_read s (u32 G) w) in Hread.
  assert (Hclock : clock (line_read s (u32 G) w).2 = (S (clock w) + k)%nat).
  { rewrite Hread. cbn [snd after_reads clock load_put tick].
    rewrite length_offsets. lia. }
  rewrite Hclock in Hwin.
  pose proof (alloc_grows (clock w) (S k)) as Ha0.
  replace (clock w + S k)%nat with (S (clock w) + k)%nat in Ha0 by lia.
  pose proof (Hpa (clock w)) as Hpa0. fold P in Hpa0.
  assert (Hn : 0 < P - G <= u32 (sz l)) by lia.
  assert (Hdiff : seen_put s w <> u32 G).
  { rewrite Hsp. replace P with (G + (P - G)) by lia.
    rewrite <- u32_add_l. apply u32_advance_ne; [apply u32_range | lia]. }
  assert (Hsa : seen_alloc s (u32 G) w = u32 (alloc l (S (clock w) + k))).
  { unfold seen_alloc, load_alloc. rewrite HL, Hclock. reflexivity. }
  assert (Hsz : load_sz (log s) = u32 (sz l)).
  { unfold load_sz. rewrite HL. reflexivity. }
  destruct (dump_iter_no_overflow s (u32 G) w Hdiff)
    as (w' & Hrun & Hklog & Hrl & Hrate).
  { rewrite Hsa, Hsz, u32_sub_l, u32_sub_r. rewrite u32_small; lia. }
  rewrite max_to_read_s32, Hsp in Hmax, Hstop.
  assert (Hbound : max_to_read (u32 P) (u32 G) = Z.min (P - G) 255).
  { apply max_to_read_pending; [lia |].
    rewrite u32_sub_l, u32_sub_r. apply u32_small. lia. }
  rewrite Hbound in Hmax, Hstop.
  assert (Hcs : source (log s) (S (clock w))
                  (offsets (size_t (u32 (load_sz (log s) - 1)))
                     (s32 (u32 G)) k)
                = segment stream G k).
  { rewrite Hsz, (mask_of_pow2 (sz l) Hpow), HL.
    apply source_carried; [lia |].
    intros j Hj. split.
    - pose proof (alloc_grows (S (clock w) + j) (k - j)) as Ha.
      replace (S (clock w) + j + (k - j))%nat with (S (clock w) + k)%nat
        in Ha by lia.
      lia.
    - pose proof (put_grows (clock w) (S j)) as Hp.
      replace (clock w + S j)%nat with (S (clock w) + j)%nat in Hp by lia.
      fold P in Hp. lia. }
  change (clock (load_put (log s) w).2) with (S (clock w))
    in Hread, Hstop, Hnl.
  rewrite Hcs in Hread, Hstop, Hnl.
  assert (Hk : (k <= n)%nat) by (unfold n; lia).
  rewrite <- (take_segment stream G k n Hk) in Hread, Hstop, Hnl.
  assert (Hline : take_line 255 (segment stream G n)
                  = (take k (segment stream G n),
                     drop k (segment stream G n))).
  { apply take_line_stop;
      [lia | rewrite length_segment; lia | | exact Hnl].
    destruct Hstop as [H | H]; [left | right; exact H].
    rewrite length_segment. unfold n. lia. }
  rewrite Hline. cbn [fst].
  assert (Htake : length (take k (segment stream G n)) = k)
    by (rewrite length_take, length_segment; lia).
  rewrite Htake.
  assert (Hk1 : (1 <= k)%nat).
  { pose proof (log_read_line_pos s (seen_put s w) (u32 G)
                  (load_put (log s) w).2) as H1.
    fold (line_read s (u32 G) w) in H1. rewrite Hread in H1.
    cbn [fst] in H1.
    assert (H2 : u32 (seen_put s w) <> u32 (u32 G)).
    { rewrite Hsp, !u32_u32. rewrite Hsp in Hdiff. exact Hdiff. }
    specialize (H1 H2). lia. }
  assert (Hw : (dump_iter s (u32 G) w).2 = w') by (rewrite Hrun; reflexivity).
  rewrite Hw.
  assert (Hadv : (line_read s (u32 G) w).1.1 = Z.of_nat k)
    by (rewrite Hread; reflexivity).
  rewrite Hadv, u32_add_l in Hrun.
  split; [exact Hrun |]. split; [exact Hadv |]. split; [exact Hk1 |].
  split; [unfold n in Hk; lia |].
  rewrite Hread in Hklog |- *. cbn [fst snd log get line_buffer set_line_buffer]
    in Hklog |- *.
  split; [exact HL |]. split; [reflexivity |]. split; [| split].
  - rewrite length_app. cbn [length]. rewrite length_drop, Htake. lia.
  - eexists. reflexivity.
  - split; [exact Hklog |]. split; [exact Hrl |]. split; [exact Hrate |].
    pose proof (dump_iter_body s (u32 G) w Hdiff) as Hbody.
    cbv zeta in Hbody. rewrite Hrun in Hbody.
    destruct (_ >? _) in Hbody;
      apply pair_equal_spec in Hbody as [_ Hw'].
    + exfalso. apply (f_equal klog) in Hw'.
      cbn [klog emit tick] in Hw'.
      destruct (line_read_world s (u32 G) w) as (Hk0 & _).
      rewrite Hk0 in Hw'. rewrite Hw' in Hklog.
      apply app_inv_head in Hklog.
      destruct (rate_limit w (rl_calls w)); discriminate.
    + assert (Hr : reads w' = reads (line_read s (u32 G) w).2
                   /\ clock w' = S (clock (line_read s (u32 G) w).2)).
      { rewrite Hw'. destruct (rate_limit (tick _) _); split; reflexivity. }
      destruct Hr as [Hr1 Hr2]. rewrite Hr1, Hr2, Hclock, Hread.
      cbn [snd reads after_reads load_put tick].
      rewrite length_app, length_offsets. split; lia.
Qed.

(** The loop on a moving ring: line after line of what the producer has
    committed goes to the rate limiter, and the loop is left when the
    cursor has reached the committed count. *)
Lemma dump_loop_moving fuel :
  forall s G w,
    log s = l ->
    length (line_buffer s) = 256%nat ->
    0 <= G <= put l (clock w) ->
    loop_within fuel s G w ->
    exists looks bufs,
      klog (dump_loop fuel s (u32 G) w).2 = klog w ++ map dev_info bufs /\
      Forall2 holds_line bufs
        (passed (rate_limit w) (rl_calls w) (cut_at stream G looks)) /\
      rl_calls (dump_loop fuel s (u32 G) w).2
      = (rl_calls w + length (cut_at stream G looks))%nat /\
      rate_limit (dump_loop fuel s (u32 G) w).2 = rate_limit w /\
      length (reads (dump_loop fuel s (u32 G) w).2)
      = (length (reads w) + length (concat (cut_at stream G looks)))%nat /\
      Forall (fun line => line <> []) (cut_at stream G looks) /\
      Forall (fun P => exists t,
                (clock w <= t < clock (dump_loop fuel s (u32 G) w).2)%nat /\
                put l t = P) looks /\
      (clock w <= clock (dump_loop fuel s (u32 G) w).2)%nat /\
      G + Z.of_nat (length (concat (cut_at stream G looks)))
      <= put l (clock (dump_loop fuel s (u32 G) w).2) /\
      log (dump_loop fuel s (u32 G) w).1.2 = l /\
      get (dump_loop fuel s (u32 G) w).1.2 = get s /\
      length (line_buffer (dump_loop fuel s (u32 G) w).1.2) = 256%nat /\
      match (dump_loop fuel s (u32 G) w).1.1 with
      | Some g' =>
          g' = u32 (G + Z.of_nat (length (concat (cut_at stream G looks)))) /\
          (1 <= clock (dump_loop fuel s (u32 G) w).2)%nat /\
          G + Z.of_nat (length (concat (cut_at stream G looks)))
          = put l (clock (dump_loop fuel s (u32 G) w).2 - 1)
      | None => True
      end /\
      ((forall t, put l t - G < Z.of_nat fuel) ->
       (dump_loop fuel s (u32 G) w).1.1 <> None).
Proof.
  induction fuel as [| fuel IH]; intros s G w HL Hlen HG Hwithin.
  { exists [], []. cbn [dump_loop fst snd cut_at concat length map passed].
    rewrite app_nil_r, Nat.add_0_r, Z.add_0_r.
    repeat split; try lia; try assumption; try solve [constructor].
    intros Hb. specialize (Hb (clock w)). lia. }
  cbn [loop_within] in Hwithin. rewrite HL in Hwithin.
  destruct Hwithin as [Htop Hbody].
  destruct (Z.eq_dec (put l (clock w)) G) as [Heq | Hne].
  { cbn [dump_loop]. rewrite dump_iter_break
      by (unfold seen_put, load_put; rewrite HL, Heq; reflexivity).
    exists [], []. cbn [fst snd cut_at concat length map passed tick klog
                        rl_calls rate_limit reads clock].
    rewrite app_nil_r, Nat.add_0_r, Z.add_0_r.
    pose proof (put_grows (clock w) 1) as Hg.
    replace (clock w + 1)%nat with (S (clock w)) in Hg by lia.
    repeat split; try lia; try assumption; try solve [constructor].
    - replace (S (clock w) - 1)%nat with (clock w) by lia. congruence.
    - discriminate. }
  destruct Hbody as [Heq | [Hwin Hrest]]; [contradiction |].
  destruct (dump_iter_moving s G w HL Hlen HG Hne Hwin)
    as (Hrun & Hadv & Hpos & Hle & HL1 & Hget1 & Hlen1 & Hbuf & Hklog & Hrl
        & Hrate & Hreads & Hclock).
  set (line := (take_line 255
                  (segment stream G (Z.to_nat (put l (clock w) - G)))).1)
    in *.
  set (s1 := (line_read s (u32 G) w).1.2) in *.
  set (w1 := (dump_iter s (u32 G) w).2) in *.
  rewrite Hadv in Hrest.
  pose proof (put_grows (clock w) (length line + 2)) as Hg.
  replace (clock w + (length line + 2))%nat with (clock w1) in Hg by lia.
  destruct (IH s1 (G + Z.of_nat (length line)) w1 HL1 Hlen1 ltac:(lia) Hrest)
    as (looks & bufs & Hk' & Hb' & Hrl' & Hrate' & Hreads' & Hne' & Hlooks'
        & Hclock' & Hle' & HL' & Hget' & Hlen' & Hres' & Hterm').
  assert (Hloop : dump_loop (S fuel) s (u32 G) w
                  = dump_loop fuel s1 (u32 (G + Z.of_nat (length line))) w1).
  { cbn [dump_loop]. rewrite Hrun. reflexivity. }
  rewrite Hloop.
  exists (put l (clock w) :: looks),
         ((if rate_limit w (rl_calls w) then [line_buffer s1] else [])
          ++ bufs).
  change (cut_at stream G (put l (clock w) :: looks))
    with (line :: cut_at stream (G + Z.of_nat (length line)) looks).
  set (lines := cut_at stream (G + Z.of_nat (length line)) looks) in *.
  cbn [concat length]. rewrite length_app.
  split; [| split; [| split; [| split; [| split; [| split; [| split;
    [| split; [| split; [| split; [| split; [| split; [| split]]]]]]]]]]]].
  - rewrite Hk', Hklog, map_app, <- app_assoc. f_equal.
    destruct (rate_limit w (rl_calls w)); reflexivity.
  - cbn [passed]. rewrite Hrate, Hrl in Hb'.
    destruct (rate_limit w (rl_calls w)); cbn [app];
      [constructor; [exact Hbuf | exact Hb'] | exact Hb'].
  - rewrite Hrl', Hrl. lia.
  - congruence.
  - rewrite Hreads', Hreads. lia.
  - constructor; [| exact Hne'].
    intros H. rewrite H in Hpos. cbn in Hpos. lia.
  - constructor.
    + exists (clock w). split; [lia | reflexivity].
    + eapply Forall_impl; [exact Hlooks' |].
      intros P (t & Ht & HP). exists t. split; [lia | exact HP].
  - lia.
  - lia.
  - exact HL'.
  - congruence.
  - exact Hlen'.
  - destruct (dump_loop fuel s1 _ w1).1.1 as [g' |]; [| exact I].
    destruct Hres' as (Hg' & Hc' & Hp').
    split; [rewrite Hg'; f_equal; lia |]. split; [lia |].
    rewrite <- Hp'. lia.
  - intros Hb. apply Hterm'. intros t. specialize (Hb t). lia.
Qed.

Lemma cut_at_app looks1 :
  forall G looks2,
    cut_at stream G (looks1 ++ looks2)
    = cut_at stream G looks1
      ++ cut_at stream
           (G + Z.of_nat (length (concat (cut_at stream G looks1)))) looks2.
Proof.
  induction looks1 as [| P looks1 IH]; intros G looks2.
  - cbn [app cut_at concat length]. rewrite Z.add_0_r. reflexivity.
  - cbn [app cut_at concat]. rewrite IH, length_app. cbn [app].
    do 3 f_equal. lia.
Qed.

(** Drain after drain of a moving ring. *)
Lemma redrain_moving fuel k :
  forall s G w,
    log s = l ->
    length (line_buffer s) = 256%nat ->
    0 <= G <= put l (clock w) ->
    get s = u32 G ->
    drains_within fuel k s G w ->
    exists looks bufs,
      klog (redrain fuel k s w).2 = klog w ++ map dev_info bufs /\
      Forall2 holds_line bufs
        (passed (rate_limit w) (rl_calls w) (cut_at stream G looks)) /\
      Forall (fun line => line <> []) (cut_at stream G looks) /\
      Forall (fun P => exists t,
                (clock w <= t < clock (redrain fuel k s w).2)%nat /\
                put l t = P) looks /\
      (clock w <= clock (redrain fuel k s w).2)%nat /\
      ((redrain fuel k s w).1.1 = true ->
       get (redrain fuel k s w).1.2
       = u32 (G + Z.of_nat (length (concat (cut_at stream G looks))))) /\
      ((redrain fuel k s w).1.1 = true -> k <> 0%nat ->
       (1 <= clock (redrain fuel k s w).2)%nat /\
       G + Z.of_nat (length (concat (cut_at stream G looks)))
       = put l (clock (redrain fuel k s w).2 - 1)) /\
      ((forall t, put l t - G < Z.of_nat fuel) ->
       (redrain fuel k s w).1.1 = true).
Proof.
  induction k as [| k IH]; intros s G w HL Hlen HG Hget Hwithin.
  { exists [], []. cbn [redrain fst snd cut_at concat length map passed].
    rewrite app_nil_r, Z.add_0_r.
    repeat split; try lia; try assumption; try solve [constructor]. }
  cbn [drains_within] in Hwithin. destruct Hwithin as [Hloop Hrest].
  destruct (dump_loop_moving fuel s G w HL Hlen HG Hloop)
    as (looks1 & bufs1 & Hk1 & Hb1 & Hrl1 & Hrate1 & Hreads1 & Hne1 & Hlooks1
        & Hclock1 & Hle1 & HL1 & Hget1 & Hlen1 & Hres1 & Hterm1).
  assert (Hdrain : trusty_dump_logs fuel s w
                   = match dump_loop fuel s (u32 G) w with
                     | (Some g', s', w') => (true, set_get s' g', w')
                     | (None, s', w') => (false, s', w')
                     end).
  { unfold trusty_dump_logs, load_sz. rewrite HL, Hpow, Hget, u32_u32.
    reflexivity. }
  cbn [redrain]. rewrite Hdrain in Hrest |- *.
  destruct (dump_loop fuel s (u32 G) w) as [[[g' |] s1] w1];
    cbn [fst snd] in *.
  2: { exists looks1, bufs1.
       repeat split; try assumption; try discriminate.
       intros Hb. exfalso. apply (Hterm1 Hb). reflexivity. }
  destruct Hres1 as (Hg' & Hc1 & Hp1).
  set (total1 := length (concat (cut_at stream G looks1))) in *.
  replace (length (reads w1) - length (reads w))%nat with total1 in Hrest
    by lia.
  destruct (IH (set_get s1 g') (G + Z.of_nat total1) w1)
    as (looks2 & bufs2 & Hk2 & Hb2 & Hne2 & Hlooks2 & Hclock2 & Hget2 & Hup2
        & Hterm2); try assumption.
  { lia. }
  exists (looks1 ++ looks2), (bufs1 ++ bufs2).
  rewrite cut_at_app. fold total1.
  rewrite concat_app, length_app.
  split; [| split; [| split; [| split; [| split; [| split; [| split]]]]]].
  - rewrite Hk2, Hk1, map_app, app_assoc. reflexivity.
  - rewrite passed_app. apply Forall2_app; [exact Hb1 |].
    rewrite Hrate1, Hrl1 in Hb2. exact Hb2.
  - apply Forall_app. split; assumption.
  - apply Forall_app. split.
    + eapply Forall_impl; [exact Hlooks1 |].
      intros P (t & Ht & HP). exists t. split; [lia | exact HP].
    + eapply Forall_impl; [exact Hlooks2 |].
      intros P (t & Ht & HP). exists t. split; [lia | exact HP].
  - lia.
  - intros Hret. rewrite (Hget2 Hret). f_equal. lia.
  - intros Hret _. destruct k as [| k].
    + cbn [redrain fst snd] in *.
      assert (looks2 = []) as ->.
      { destruct looks2 as [| P looks2]; [reflexivity |].
        apply Forall_cons in Hlooks2 as [(t & Ht & _) _]. lia. }
      cbn [cut_at concat length]. split; [exact Hc1 |]. lia.
    + destruct (Hup2 Hret ltac:(discriminate)) as [Hc Hp].
      split; [exact Hc |]. rewrite <- Hp. lia.
  - intros Hb. apply Hterm2. intros t. specialize (Hb t). lia.
Qed.

End Moving.

(** ** The lines cut from a stream *)

Lemma take_line_prefix n text :
  (take_line n text).1 = take (length (take_line n text).1) text.
Proof.
  rewrite <- (take_line_app n text) at 3.
  rewrite take_app_length. reflexivity.
Qed.

Lemma take_line_length n text :
  (length (take_line n text).1 <= length text)%nat.
Proof.
  rewrite <- (take_line_app n text) at 2. rewrite length_app. lia.
Qed.

(** Every byte of the stream between the first cursor and the last is in
    exactly one line, in the order of the stream. *)
Lemma concat_cut_at stream looks :
  forall G,
    concat (cut_at stream G looks)
    = segment stream G (length (concat (cut_at stream G looks))).
Proof.
  induction looks as [| P looks IH]; intros G; [reflexivity |].
  cbn [cut_at concat].
  set (text := segment stream G (Z.to_nat (P - G))).
  set (line := (take_line 255 text).1).
  rewrite length_app, segment_app, <- IH. f_equal.
  unfold line. rewrite take_line_prefix at 1. fold line. unfold text.
  apply take_segment.
  pose proof (take_line_length 255 text) as H. fold line in H.
  unfold text in H. rewrite length_segment in H. exact H.
Qed.

(** Where [take_line] stops. *)
Lemma take_line_spec text :
  forall n,
    Forall (fun x => x <> newline) (removelast (take_line n text).1) /\
    (length (take_line n text).1 = n \/
     (take_line n text).1 = text \/
     last (take_line n text).1 = Some newline).
Proof.
  induction text as [| c text IH]; intros [| n]; cbn [take_line fst];
    try (split; [constructor | auto]).
  destruct (Ascii.eqb_spec c newline) as [-> | Hc]; cbn [fst].
  { split; [constructor | auto]. }
  destruct (IH n) as [Hnl Hstop].
  destruct (take_line n text) as [line rest] eqn:Ht. cbn [fst] in *.
  split.
  - destruct line as [| c' line]; [constructor |].
    change (removelast (c :: c' :: line))
      with (c :: removelast (c' :: line)).
    constructor; assumption.
  - destruct Hstop as [H | [H | H]].
    + left. cbn [length]. lia.
    + right. left. congruence.
    + right. right. destruct line as [| c' line]; [discriminate |].
      rewrite last_cons_cons. exact H.
Qed.

Lemma last_segment stream G (n : nat) :
  (0 < n)%nat ->
  last (segment stream G n) = Some (stream (G + Z.of_nat n - 1)).
Proof.
  intros Hn. rewrite last_lookup, length_segment.
  rewrite segment_lookup by lia. do 2 f_equal. lia.
Qed.

Lemma whole_line_last line :
  last line = Some newline ->
  Forall (fun x => x <> newline) (removelast line) ->
  whole_line line.
Proof.
  intros Hlast Hnl. apply last_Some in Hlast as (body & ->).
  rewrite removelast_last in Hnl. exists body. split; [reflexivity | exact Hnl].
Qed.

(** When every look of the consumer finds the committed count behind a
    newline, a line that does not fill the line buffer is a whole
    line. *)
Lemma cut_at_whole stream looks :
  forall G,
    Forall (fun P => stream (P - 1) = newline) looks ->
    Forall (fun line => line <> []) (cut_at stream G looks) ->
    Forall (fun line => (length line < 255)%nat) (cut_at stream G looks) ->
    Forall whole_line (cut_at stream G looks).
Proof.
  induction looks as [| P looks IH]; intros G Hnl Hne Hshort;
    [constructor |].
  cbn [cut_at] in *.
  apply Forall_cons in Hnl as [HP Hnl].
  apply Forall_cons in Hne as [Hne1 Hne].
  apply Forall_cons in Hshort as [Hs1 Hshort].
  constructor; [| apply IH; assumption].
  set (n := Z.to_nat (P - G)) in *.
  destruct (take_line_spec (segment stream G n) 255) as [Hbody Hstop].
  assert (Hn : (0 < n)%nat).
  { destruct n; [| lia]. exfalso. apply Hne1. reflexivity. }
  apply whole_line_last; [| exact Hbody].
  destruct Hstop as [H | [H | H]]; [lia | | exact H].
  rewrite H, last_segment by exact Hn. f_equal. rewrite <- HP. f_equal.
  unfold n. lia.
Qed.

Lemma first_line_whole body rest :
  Forall (fun x => x <> newline) body ->
  first_line ((body ++ [newline]) ++ rest) = (body ++ [newline], rest).
Proof.
  induction 1 as [| c body Hc _ IH]; cbn [app first_line].
  - rewrite Ascii.eqb_refl. reflexivity.
  - destruct (Ascii.eqb_spec c newline) as [-> | _]; [contradiction |].
    cbn [app] in IH. rewrite IH. reflexivity.
Qed.

(** Whole lines put together and split at the newlines again. *)
Lemma lines_of_concat lines :
  Forall whole_line lines -> lines_of (concat lines) = lines.
Proof.
  induction 1 as [| line lines (body & -> & Hbody) _ IH]; [reflexivity |].
  cbn [concat].
  pose proof (first_line_whole body (concat lines) Hbody) as Hfirst.
  destruct ((body ++ [newline]) ++ concat lines) as [| c text] eqn:Htext.
  { destruct body; discriminate. }
  rewrite lines_of_cons, Hfirst. cbn [fst snd]. rewrite IH. reflexivity.
Qed.


Lemma carries_hi_yo_ok : carries ring_hi_yo_ok (region hi_yo_ok).
Proof.
  unfold carries. cbn [put alloc sz data ring_hi_yo_ok].
  assert (Hw : forall t, written t <= written (S t)).
  { intros t. unfold written.
    destruct (Nat.ltb_spec t 3), (Nat.ltb_spec (S t) 3),
      (Nat.ltb_spec t 11), (Nat.ltb_spec (S t) 11); lia. }
  split; [exact Hw |]. split; [exact Hw |]. split; [intros t; lia |].
  intros t j Hj [_ Hlt].
  assert (H9 : written t = 3 \/ written t = 6 \/ written t = 9).
  { unfold written. destruct (t <? 3)%nat, (t <? 11)%nat; auto. }
  assert (Hcases : j = 0 \/ j = 1 \/ j = 2 \/ j = 3 \/ j = 4 \/ j = 5
                   \/ j = 6 \/ j = 7 \/ j = 8) by lia.
  destruct H9 as [H9 | [H9 | H9]]; rewrite H9 in *;
    repeat (destruct Hcases as [-> | Hcases]; [try lia; reflexivity |]);
    subst; try lia; reflexivity.
Qed.


(** ** The two scenarios *)

(** C7, as stated, fails: the line the drain hands to the sink is not
    ["hi"]. *)
Lemma C7_counterexample :
  ~ (exists fuel s' w',
       trusty_dump_logs fuel (probed (frozen ring_hi)) (boot (fun _ => true))
         = (true, s', w') /\
       map printed (klog w') = [["h"; "i"]%char] /\
       get s' = 3).
Proof.
  intros (fuel & s' & w' & Hrun & Hlines & _).
  destruct fuel as [| [| fuel]].
  - vm_compute in Hrun. discriminate.
  - vm_compute in Hrun. discriminate.
  - rewrite (trusty_dump_logs_done 2) in Hrun by (vm_compute; reflexivity || lia).
    assert (Hhi : map printed (klog w') = [["h"; "i"; newline]%char]).
    { transitivity
        (map printed
           (klog (trusty_dump_logs 2 (probed (frozen ring_hi))
                    (boot (fun _ => true))).2)).
      - rewrite Hrun. reflexivity.
      - vm_compute. reflexivity. }
    rewrite Hhi in Hlines. discriminate.
Qed.

(** C7, amended.  On the ring that holds ["hi\n"] with both counters at 3,
    a drain from the probed state, with a rate limiter that lets the first
    line pass, returns after two evaluations of the loop condition, hands
    exactly one line to [dev_info], whose text is ["hi\n"] with the newline,
    and leaves the cursor at 3. *)
Theorem C7_hi_scenario rl fuel :
  rl 0%nat = true ->
  (2 <= fuel)%nat ->
  exists s' w',
    trusty_dump_logs fuel (probed (frozen ring_hi)) (boot rl) = (true, s', w') /\
    klog w' = [dev_info (line_buffer s')] /\
    map printed (klog w') = [["h"; "i"; newline]%char] /\
    get s' = 3.
Proof.
  intros Hrl Hfuel.
  assert (Hdone : (trusty_dump_logs 2 (probed (frozen ring_hi)) (boot rl)).1.1
                  = true) by (vm_compute; reflexivity).
  rewrite (trusty_dump_logs_done 2 fuel _ _ Hdone Hfuel).
  exists (trusty_dump_logs 2 (probed (frozen ring_hi)) (boot rl)).1.2,
         (trusty_dump_logs 2 (probed (frozen ring_hi)) (boot rl)).2.
  split; [| split; [| split]].
  - rewrite <- Hdone.
    destruct (trusty_dump_logs 2 _ _) as [[b s'] w']. reflexivity.
  - vm_compute. rewrite Hrl. reflexivity.
  - vm_compute. rewrite Hrl. reflexivity.
  - vm_compute. reflexivity.
Qed.

Lemma C7_hi_scenario_witness :
  exists s' w',
    trusty_dump_logs 2 (probed (frozen ring_hi)) (boot (fun _ => true))
      = (true, s', w') /\
    klog w' = [dev_info (line_buffer s')] /\
    map printed (klog w') = [["h"; "i"; newline]%char] /\
    get s' = 3.
Proof.
  apply (C7_hi_scenario (fun _ => true) 2); [reflexivity | lia].
Defined.

(** C6, as stated, fails: no drain of the 20-byte scenario returns with the
    cursor at 4. *)
Lemma C6_counterexample :
  ~ (exists fuel s' w',
       trusty_dump_logs fuel (probed (frozen ring_20)) (boot (fun _ => true))
         = (true, s', w') /\
       get s' = 4).
Proof.
  intros (fuel & s' & w' & Hrun & Hget).
  destruct fuel as [| [| [| fuel]]].
  - vm_compute in Hrun. discriminate.
  - vm_compute in Hrun. discriminate.
  - vm_compute in Hrun. discriminate.
  - rewrite (trusty_dump_logs_done 3) in Hrun by (vm_compute; reflexivity || lia).
    assert (H20 : get s' = 20).
    { transitivity
        (get (trusty_dump_logs 3 (probed (frozen ring_20))
                (boot (fun _ => true))).1.2).
      - rewrite Hrun. reflexivity.
      - vm_compute. reflexivity. }
    rewrite H20 in Hget. discriminate.
Qed.

(** C6, amended.  On the capacity-16 ring into which 20 bytes without a
    newline were written, the first iteration of a drain from the probed
    state finds reserved - cursor = 20 > 16, prints ["log overflow."], hands
    nothing to [dev_info] and moves the cursor to exactly 4.  The drain then
    goes on: it reads the 16 bytes at counters 4 to 19 as one line, hands it
    to [dev_info] if the rate limiter allows, and returns with the cursor at
    20.  The overflow is reported once in all. *)
Theorem C6_overflow_scenario bytes rl fuel :
  length bytes = 20%nat ->
  Forall (fun x => x <> newline) bytes ->
  (3 <= fuel)%nat ->
  (exists s1 w1,
     dump_iter (probed (frozen (producer_write (empty_ring 16) bytes))) 0
       (boot rl) = (Next 4, s1, w1) /\
     klog w1 = [dev_err "log overflow."]) /\
  (exists s' w' bufs,
     trusty_dump_logs fuel
       (probed (frozen (producer_write (empty_ring 16) bytes))) (boot rl)
       = (true, s', w') /\
     klog w' = dev_err "log overflow." :: map dev_info bufs /\
     Forall2 holds_line bufs (passed rl 0 [drop 4 bytes]) /\
     length (List.filter is_dev_err (klog w')) = 1%nat /\
     get s' = 20).
Proof.
  intros Hlen Hnl Hfuel.
  do 20 (destruct bytes as [| ? bytes]; [discriminate Hlen |]).
  destruct bytes; [clear Hlen | discriminate Hlen].
  match goal with
  | |- context [producer_write ?r ?bs] =>
      let r' := eval vm_compute in (producer_write r bs) in
      change (producer_write r bs) with r'
  end.
  match goal with
  | |- context [probed (frozen ?r)] =>
      set (r20 := r); set (s0 := probed (frozen r20))
  end.
  assert (HL : log s0 = static_rb 20 20 16 (region (r_data r20)))
    by reflexivity.
  (* the first iteration *)
  destruct (dump_iter_overflow s0 0 (boot rl))
    as (w1 & Hrun1 & Hklog1 & Hrl1 & Hrate1);
    [discriminate | reflexivity |].
  change (u32 (seen_alloc s0 0 (boot rl) - load_sz (log s0))) with 4 in Hrun1.
  set (s1 := (line_read s0 0 (boot rl)).1.2) in *.
  split; [exists s1, w1; split; [exact Hrun1 | exact Hklog1] |].
  (* the rest of the loop: one line of 16 bytes *)
  assert (HL1 : log s1 = static_rb 20 20 16 (region (r_data r20))).
  { unfold s1, line_read. rewrite log_read_line_log. exact HL. }
  assert (Hlen1 : length (line_buffer s1) = 256%nat)
    by (apply line_read_length; reflexivity).
  cbn [drop].
  match goal with
  | |- context [passed rl 0 [?t]] => set (text := t)
  end.
  assert (Hlines : lines_255 text = [text]).
  { apply lines_255_one; [discriminate | | cbn; lia].
    do 4 (apply Forall_cons in Hnl; destruct Hnl as [_ Hnl]). exact Hnl. }
  destruct (dump_loop_still_lines 20 20 16 (region (r_data r20)) eq_refl
              1%nat text s1 4 w1)
    as (s' & w' & bufs & Hloop & _ & _ & _ & Hklog & Hbufs & _);
    try assumption; try reflexivity; try lia.
  { rewrite Hlines. cbn. lia. }
  rewrite Hlines, Hrate1, Hrl1 in Hbufs.
  change (rate_limit (boot rl)) with rl in Hbufs.
  change (rl_calls (boot rl)) with 0%nat in Hbufs.
  rewrite Hklog1 in Hklog. cbn [klog boot app] in Hklog.
  exists (set_get s' 20), w', bufs.
  split; [| split; [| split; [| split]]].
  - unfold trusty_dump_logs.
    change (negb (is_power_of_2 (load_sz (log s0)))) with false. cbv iota.
    change (u32 (get s0)) with 0.
    replace fuel with (3 + (fuel - 3))%nat by lia.
    assert (H3 : dump_loop 3 s0 0 (boot rl) = (Some 20, s', w')).
    { change (dump_loop 3 s0 0 (boot rl))
        with (match dump_iter s0 0 (boot rl) with
              | (Break, s', w') => (Some 0, s', w')
              | (Next get', s', w') => dump_loop 2 s' get' w'
              end).
      rewrite Hrun1. exact Hloop. }
    rewrite (dump_loop_more 3 _ _ _ _ _ _ _ H3). reflexivity.
  - exact Hklog.
  - exact Hbufs.
  - rewrite Hklog. cbn [List.filter is_dev_err length]. f_equal.
    clear. induction bufs as [| buf bufs IH]; [reflexivity | exact IH].
  - reflexivity.
Qed.

(** C6 for the bytes ["abcdefghijklmnopqrst"]. *)
Lemma C6_overflow_scenario_witness :
  exists s' w' bufs,
    trusty_dump_logs 3 (probed (frozen ring_20)) (boot (fun _ => true))
      = (true, s', w') /\
    klog w' = dev_err "log overflow." :: map dev_info bufs /\
    get s' = 20.
Proof.
  destruct (C6_overflow_scenario twenty_bytes (fun _ => true) 3)
    as [_ (s' & w' & bufs & Hrun & Hklog & _ & _ & Hget)].
  - reflexivity.
  - repeat constructor; discriminate.
  - lia.
  - exists s', w', bufs. split; [exact Hrun |]. split; assumption.
Defined.

(** * Further properties of the drain *)

(** ** The rate limiter's account *)

Lemma approvals_add rl k n m :
  approvals rl k (n + m) = (approvals rl k n + approvals rl (k + n) m)%nat.
Proof.
  unfold approvals. rewrite seq_app, List.filter_app, length_app. reflexivity.
Qed.

Lemma approvals_one rl k : approvals rl k 1 = if rl k then 1%nat else 0%nat.
Proof. unfold approvals. cbn. destruct (rl k); reflexivity. Qed.

Lemma approvals_le rl k n : (approvals rl k n <= n)%nat.
Proof.
  unfold approvals. etransitivity; [apply List.filter_length_le |].
  rewrite length_seq. lia.
Qed.

Lemma dump_iter_accounts s g w :
  rate_limit (dump_iter s g w).2 = rate_limit w /\
  exists new n,
    klog (dump_iter s g w).2 = klog w ++ new /\
    rl_calls (dump_iter s g w).2 = (rl_calls w + n)%nat /\
    length (List.filter is_dev_info new)
      = approvals (rate_limit w) (rl_calls w) n.
Proof.
  destruct (Z.eq_dec (seen_put s w) g) as [Heq | Hne].
  - rewrite dump_iter_break by exact Heq. cbn [snd tick rate_limit klog rl_calls].
    split; [reflexivity |]. exists [], 0%nat. rewrite app_nil_r.
    split; [reflexivity |]. split; [lia | reflexivity].
  - destruct (Z_gt_le_dec (u32 (seen_alloc s g w - g)) (load_sz (log s)))
      as [Hover | Hok].
    + destruct (dump_iter_overflow s g w Hne Hover)
        as (w' & Hrun & Hk & Hrl & Hrate).
      rewrite Hrun. cbn [snd]. split; [exact Hrate |].
      exists [dev_err "log overflow."], 0%nat.
      split; [exact Hk |]. split; [lia | reflexivity].
    + destruct (dump_iter_no_overflow s g w Hne Hok)
        as (w' & Hrun & Hk & Hrl & Hrate).
      rewrite Hrun. cbn [snd]. split; [exact Hrate |].
      exists (if rate_limit w (rl_calls w)
              then [dev_info (line_buffer (line_read s g w).1.2)] else []),
             1%nat.
      split; [exact Hk |]. split; [lia |].
      rewrite approvals_one. destruct (rate_limit w (rl_calls w)); reflexivity.
Qed.

Lemma dump_loop_accounts fuel :
  forall s g w,
    rate_limit (dump_loop fuel s g w).2 = rate_limit w /\
    exists new n,
      klog (dump_loop fuel s g w).2 = klog w ++ new /\
      rl_calls (dump_loop fuel s g w).2 = (rl_calls w + n)%nat /\
      length (List.filter is_dev_info new)
        = approvals (rate_limit w) (rl_calls w) n.
Proof.
  induction fuel as [| fuel IH]; intros s g w.
  - cbn [dump_loop snd]. split; [reflexivity |]. exists [], 0%nat.
    rewrite app_nil_r. split; [reflexivity |]. split; [lia | reflexivity].
  - cbn [dump_loop].
    pose proof (dump_iter_accounts s g w) as Hit.
    destruct (dump_iter s g w) as [[[| g1] s1] w1]; cbn [snd] in Hit;
      [exact Hit |].
    destruct Hit as (Hrate & new1 & n1 & Hk1 & Hrl1 & Hc1).
    destruct (IH s1 g1 w1) as (Hrate' & new2 & n2 & Hk2 & Hrl2 & Hc2).
    split; [congruence |].
    exists (new1 ++ new2), (n1 + n2)%nat.
    split; [rewrite Hk2, Hk1, app_assoc; reflexivity |].
    split; [lia |].
    rewrite List.filter_app, length_app, approvals_add, Hc1, Hc2, Hrate, Hrl1.
    reflexivity.
Qed.

(** X1.  Whatever the producer does and however long the drain runs, every
    yes of the rate limiter is one [dev_info] line and every [dev_info]
    line is one yes: the drain asks the limiter some number [n] of times,
    its answers stay those of the limiter it started with, and the
    [dev_info] entries it adds to the kernel log are as many as the
    approvals among these [n] calls.  Warnings and overflow reports are not
    counted against the limiter. *)
Theorem rate_limiter_accounts fuel s w :
  rate_limit (trusty_dump_logs fuel s w).2 = rate_limit w /\
  exists new n,
    klog (trusty_dump_logs fuel s w).2 = klog w ++ new /\
    rl_calls (trusty_dump_logs fuel s w).2 = (rl_calls w + n)%nat /\
    length (List.filter is_dev_info new)
      = approvals (rate_limit w) (rl_calls w) n /\
    (length (List.filter is_dev_info new) <= n)%nat.
Proof.
  assert (H : rate_limit (trusty_dump_logs fuel s w).2 = rate_limit w /\
              exists new n,
                klog (trusty_dump_logs fuel s w).2 = klog w ++ new /\
                rl_calls (trusty_dump_logs fuel s w).2 = (rl_calls w + n)%nat /\
                length (List.filter is_dev_info new)
                  = approvals (rate_limit w) (rl_calls w) n).
  { unfold trusty_dump_logs. destruct (negb _).
    - cbn [snd emit rate_limit klog rl_calls]. split; [reflexivity |].
      exists [WARN_ON], 0%nat. split; [reflexivity |].
      split; [lia | reflexivity].
    - pose proof (dump_loop_accounts fuel s (u32 (get s)) w) as Hloop.
      destruct (dump_loop fuel s (u32 (get s)) w) as [[[g' |] s'] w'];
        exact Hloop. }
  destruct H as (Hrate & new & n & Hk & Hrl & Hc).
  split; [exact Hrate |]. exists new, n. repeat split; try assumption.
  rewrite Hc. apply approvals_le.
Qed.

(** ** Overflow reports on a ring that stands still *)

Section StillErrors.

Variables (a p c : Z) (d : Z -> ascii).
Hypothesis Hpow : is_power_of_2 (u32 c) = true.
Hypothesis Hwin : u32 (a - p) <= u32 c.

Lemma pending_work_overflow g :
  u32 (a - g) > u32 c -> pending_work a p c g = u32 c + 1.
Proof.
  intros H. unfold pending_work. cbv zeta.
  destruct (Z.gtb_spec (u32 (a - g)) (u32 c)); [reflexivity | lia].
Qed.

(** An overflow is reported only from the one cursor position class from
    which the next iteration lands inside the window. *)
Lemma dump_loop_static_errors fuel :
  forall s g w,
    log s = static_rb a p c d ->
    0 <= g < 2 ^ 32 ->
    exists new,
      klog (dump_loop fuel s g w).2 = klog w ++ new /\
      (length (List.filter is_dev_err new)
       <= (if (pending_work a p c g <=? u32 c)%Z then 0 else 1))%nat.
Proof.
  induction fuel as [| fuel IH]; intros s g w HL Hg.
  { exists []. cbn [dump_loop snd]. rewrite app_nil_r.
    split; [reflexivity | cbn; lia]. }
  destruct (Z.eq_dec (u32 p) g) as [Heq | Hne].
  { cbn [dump_loop]. rewrite dump_iter_break
      by (unfold seen_put, load_put; rewrite HL; exact Heq).
    exists []. cbn [snd tick klog]. rewrite app_nil_r.
    split; [reflexivity | cbn; lia]. }
  destruct (dump_iter_static_decreases a p c d Hpow Hwin s g w HL Hg Hne)
    as (g' & s' & w' & Hrun & HL' & Hg' & Hlt).
  cbn [dump_loop]. rewrite Hrun.
  destruct (IH s' g' w' HL' Hg') as (new' & Hk' & Hc').
  assert (Hput : seen_put s w <> g).
  { unfold seen_put, load_put. rewrite HL. exact Hne. }
  assert (Halloc : seen_alloc s g w = u32 a).
  { unfold seen_alloc, load_alloc. rewrite HL. reflexivity. }
  assert (Hsz : load_sz (log s) = u32 c).
  { unfold load_sz. rewrite HL. reflexivity. }
  destruct (Z_gt_le_dec (u32 (seen_alloc s g w - g)) (load_sz (log s)))
    as [Hover | Hok].
  - destruct (dump_iter_overflow s g w Hput Hover) as (w2 & Hrun2 & Hk2 & _).
    rewrite Hrun in Hrun2. apply pair_equal_spec in Hrun2 as [_ Hw].
    subst w2. rewrite Halloc, Hsz, u32_sub_l in Hover.
    rewrite (pending_work_overflow g Hover) in Hlt |- *.
    exists (dev_err "log overflow." :: new').
    split; [rewrite Hk', Hk2, <- app_assoc; reflexivity |].
    cbn [List.filter is_dev_err length].
    destruct (Z.leb_spec (pending_work a p c g') (u32 c)); [| lia].
    destruct (Z.leb_spec (u32 c + 1) (u32 c)); lia.
  - destruct (dump_iter_no_overflow s g w Hput Hok) as (w2 & Hrun2 & Hk2 & _).
    rewrite Hrun in Hrun2. apply pair_equal_spec in Hrun2 as [_ Hw].
    subst w2.
    exists ((if rate_limit w (rl_calls w)
             then [dev_info (line_buffer (line_read s g w).1.2)] else [])
            ++ new').
    split; [rewrite Hk', Hk2, <- app_assoc; reflexivity |].
    rewrite List.filter_app, length_app.
    assert (H0 : length (List.filter is_dev_err
                   (if rate_limit w (rl_calls w)
                    then [dev_info (line_buffer (line_read s g w).1.2)]
                    else [])) = 0%nat)
      by (destruct (rate_limit w (rl_calls w)); reflexivity).
    rewrite H0.
    destruct (Z.leb_spec (pending_work a p c g') (u32 c));
      destruct (Z.leb_spec (pending_work a p c g) (u32 c)); lia.
Qed.

End StillErrors.

(** X2.  A drain of a ring that stands still, with a power-of-two capacity
    and the reserved counter at most the capacity ahead of the committed
    one, reports ["log overflow."] at most once, however far behind or
    ahead the cursor starts and however many iterations it is given; and
    it reports none when the cursor starts inside the window between the
    reserved counter minus the capacity and the committed counter. *)
Theorem still_ring_overflow_once fuel a p c d s w :
  log s = static_rb a p c d ->
  is_power_of_2 (u32 c) = true ->
  u32 (a - p) <= u32 c ->
  exists new,
    klog (trusty_dump_logs fuel s w).2 = klog w ++ new /\
    (length (List.filter is_dev_err new) <= 1)%nat /\
    (u32 (a - p) <= u32 (a - get s) <= u32 c ->
     List.filter is_dev_err new = []).
Proof.
  intros HL Hpow Hwin. unfold trusty_dump_logs.
  assert (Hsz : load_sz (log s) = u32 c).
  { unfold load_sz. rewrite HL. reflexivity. }
  rewrite Hsz, Hpow. cbn [negb].
  destruct (dump_loop_static_errors a p c d Hpow Hwin fuel s (u32 (get s)) w
              HL (u32_range _)) as (new & Hk & Hc).
  exists new. split; [| split].
  - destruct (dump_loop fuel s (u32 (get s)) w) as [[[g' |] s'] w'];
      exact Hk.
  - destruct (_ <=? _) in Hc; lia.
  - intros Hin. apply length_zero_iff_nil.
    assert (Hp : pending_work a p c (u32 (get s)) <= u32 c).
    { unfold pending_work. cbv zeta. rewrite u32_sub_r.
      pose proof (u32_range (a - p)).
      destruct (Z.gtb_spec (u32 (a - get s)) (u32 c)); [lia |].
      destruct (Z.leb_spec (u32 (a - p)) (u32 (a - get s))); lia. }
    destruct (Z.leb_spec (pending_work a p c (u32 (get s))) (u32 c)); lia.
Qed.

Lemma still_ring_overflow_once_witness :
  exists new,
    klog (trusty_dump_logs 5 (probed (frozen ring_20)) (boot (fun _ => true))).2
      = klog (boot (fun _ => true)) ++ new /\
    (length (List.filter is_dev_err new) <= 1)%nat.
Proof.
  destruct (still_ring_overflow_once 5 20 20 16 (region (r_data ring_20))
              (probed (frozen ring_20)) (boot (fun _ => true)))
    as (new & Hk & Hc & _).
  - reflexivity.
  - reflexivity.
  - vm_compute. discriminate.
  - exists new. split; [exact Hk | exact Hc].
Defined.

(** ** Where a drain stops *)

Lemma read_loop_clock l mask n :
  forall i c g (buf : list ascii) w,
    (clock w <= clock (read_loop l mask n i c g buf w).2)%nat.
Proof.
  induction n as [| n IH]; intros i c g buf w; cbn [read_loop].
  { cbn [snd]. lia. }
  destruct (Ascii.eqb c newline); [cbn [snd]; lia |].
  unfold load_data.
  match goal with
  | |- context [read_loop l mask n (S i) ?c' ?g' ?b' ?w'] =>
      pose proof (IH (S i) c' g' b' w') as H
  end.
  cbn [clock] in H. lia.
Qed.

Lemma log_read_line_clock s put get w :
  (clock w <= clock (log_read_line s put get w).2)%nat.
Proof.
  unfold log_read_line.
  match goal with
  | |- context [read_loop ?l ?m ?n ?i ?c ?g ?b ?w'] =>
      pose proof (read_loop_clock l m n i c g b w') as H;
      destruct (read_loop l m n i c g b w') as [[k buf] w2]
  end.
  exact H.
Qed.

Lemma dump_iter_next s g w g' s' w' :
  dump_iter s g w = (Next g', s', w') ->
  log s' = log s /\ (clock w < clock w')%nat.
Proof.
  intros Hrun.
  destruct (Z.eq_dec (seen_put s w) g) as [Heq | Hne].
  { rewrite dump_iter_break in Hrun by exact Heq. discriminate. }
  rewrite dump_iter_body in Hrun by exact Hne. cbv zeta in Hrun.
  pose proof (log_read_line_clock s (s32 (seen_put s w)) (s32 g)
                (load_put (log s) w).2) as Hclock.
  fold (line_read s g w) in Hclock. cbn [load_put snd tick clock] in Hclock.
  assert (HL : log (line_read s g w).1.2 = log s)
    by (unfold line_read; apply log_read_line_log).
  destruct (_ >? _) in Hrun.
  - apply pair_equal_spec in Hrun as [Hrun Hw].
    apply pair_equal_spec in Hrun as [_ Hs]. subst s' w'.
    split; [exact HL |]. cbn [emit tick clock]. lia.
  - apply pair_equal_spec in Hrun as [Hrun Hw].
    apply pair_equal_spec in Hrun as [_ Hs]. subst s' w'.
    split; [exact HL |].
    destruct (rate_limit _ _); cbn [emit __ratelimit snd tick clock]; lia.
Qed.

Lemma dump_iter_stop s g w s' w' :
  dump_iter s g w = (Break, s', w') ->
  s' = s /\ w' = tick w /\ g = u32 (put (log s) (clock w)).
Proof.
  intros Hrun.
  destruct (Z.eq_dec (seen_put s w) g) as [Heq | Hne].
  - rewrite dump_iter_break in Hrun by exact Heq.
    apply pair_equal_spec in Hrun as [Hrun Hw].
    apply pair_equal_spec in Hrun as [_ Hs].
    split; [congruence |]. split; [congruence |].
    rewrite <- Heq. reflexivity.
  - rewrite dump_iter_body in Hrun by exact Hne. cbv zeta in Hrun.
    destruct (_ >? _) in Hrun; discriminate.
Qed.

Lemma dump_loop_caught_up fuel :
  forall s g w g' s' w',
    dump_loop fuel s g w = (Some g', s', w') ->
    log s' = log s /\
    exists t,
      clock w' = S t /\ (clock w <= t)%nat /\ g' = u32 (put (log s) t).
Proof.
  induction fuel as [| fuel IH]; intros s g w g' s' w' Hrun;
    cbn [dump_loop] in Hrun; [discriminate |].
  destruct (dump_iter s g w) as [[[| g1] s1] w1] eqn:Hit.
  - apply dump_iter_stop in Hit as (Hs & Hw & Hg).
    apply pair_equal_spec in Hrun as [Hrun Hw'].
    apply pair_equal_spec in Hrun as [Hg' Hs'].
    subst s1 w1 s' w'. split; [reflexivity |].
    exists (clock w). split; [reflexivity |]. split; [lia | congruence].
  - apply dump_iter_next in Hit as (HL & Hclock).
    destruct (IH _ _ _ _ _ _ Hrun) as (HL' & t & Ht & Hle & Hg').
    split; [congruence |]. exists t. split; [exact Ht |].
    split; [lia |]. rewrite <- HL. exact Hg'.
Qed.

(** X3.  Whatever the producer does: when a drain over a power-of-two
    capacity returns, the cursor it stores is the committed counter as its
    last load from the ring found it, so the drain has caught up with the
    producer as of that load; the ring it looks at is the same as
    before. *)
Theorem drain_returns_caught_up fuel s w s' w' :
  is_power_of_2 (load_sz (log s)) = true ->
  trusty_dump_logs fuel s w = (true, s', w') ->
  log s' = log s /\
  exists t,
    clock w' = S t /\ (clock w <= t)%nat /\
    get s' = u32 (put (log s) t).
Proof.
  intros Hpow Hrun. unfold trusty_dump_logs in Hrun.
  rewrite Hpow in Hrun. cbn [negb] in Hrun.
  destruct (dump_loop fuel s (u32 (get s)) w) as [[[g' |] s1] w1] eqn:Hloop;
    [| discriminate].
  apply dump_loop_caught_up in Hloop as (HL & t & Ht & Hle & Hg).
  apply pair_equal_spec in Hrun as [Hrun Hw].
  apply pair_equal_spec in Hrun as [_ Hs]. subst s' w'.
  split; [exact HL |]. exists t. cbn [get set_get]. auto.
Qed.

Lemma drain_returns_caught_up_witness :
  exists t,
    clock (trusty_dump_logs 3 (probed (frozen ring_hi))
             (boot (fun _ => true))).2 = S t /\
    get (trusty_dump_logs 3 (probed (frozen ring_hi))
           (boot (fun _ => true))).1.2 = u32 (put (frozen ring_hi) t).
Proof.
  destruct (drain_returns_caught_up 3 (probed (frozen ring_hi))
              (boot (fun _ => true))
              (trusty_dump_logs 3 (probed (frozen ring_hi))
                 (boot (fun _ => true))).1.2
              (trusty_dump_logs 3 (probed (frozen ring_hi))
                 (boot (fun _ => true))).2)
    as (_ & t & Ht & _ & Hg).
  - reflexivity.
  - vm_compute. reflexivity.
  - exists t. split; [exact Ht | exact Hg].
Defined.
(** ** The line buffer *)

(** X4.  Whatever the two counters passed in, [log_read_line] returns a
    count between 0 and 255, which is the number of loads it has made from
    the data region; the line buffer keeps its 256 bytes, so every store,
    the terminator at the returned index included, stays inside it. *)
Theorem log_read_line_in_bounds s put get w :
  length (line_buffer s) = 256%nat ->
  0 <= (log_read_line s put get w).1.1 <= 255 /\
  (Z.to_nat (log_read_line s put get w).1.1
   < length (line_buffer (log_read_line s put get w).1.2))%nat /\
  length (line_buffer (log_read_line s put get w).1.2) = 256%nat /\
  Z.of_nat (clock (log_read_line s put get w).2)
    = Z.of_nat (clock w) + (log_read_line s put get w).1.1 /\
  Z.of_nat (length (reads (log_read_line s put get w).2))
    = Z.of_nat (length (reads w)) + (log_read_line s put get w).1.1.
Proof.
  intros Hlen.
  destruct (log_read_line_spec s put get w Hlen) as (k & Hmax & Hread & _).
  pose proof (max_to_read_range put get) as Hr.
  rewrite Hread. cbn [fst snd line_buffer set_line_buffer after_reads clock reads].
  rewrite !length_app, length_source, !length_offsets. cbn [length].
  rewrite length_drop. lia.
Qed.

Lemma log_read_line_in_bounds_witness :
  0 <= (log_read_line (probed (frozen ring_hi)) 3 0 (boot (fun _ => true))).1.1
    <= 255.
Proof.
  apply (log_read_line_in_bounds (probed (frozen ring_hi)) 3 0
           (boot (fun _ => true))).
  reflexivity.
Defined.

(** X5.  When the end counter is behind the start counter as an [int]
    (their difference is negative), [log_read_line] does not return 0: the
    difference turns into a huge [size_t], the line buffer's 255 is the
    bound that counts, and the function copies at least one byte and goes
    on until it has copied a newline or 255 bytes, whatever lies in the
    data region; on a data region without a newline it copies 255 bytes
    from beyond the end counter. *)
Theorem log_read_line_behind s put get w :
  s32 (put - get) < 0 ->
  1 <= (log_read_line s put get w).1.1 <= 255 /\
  (length (line_buffer s) = 256%nat ->
   (log_read_line s put get w).1.1 = 255 \/
   line_buffer (log_read_line s put get w).1.2
     !! (Z.to_nat (log_read_line s put get w).1.1 - 1)%nat = Some newline) /\
  ((forall t idx, data (log s) t idx <> newline) ->
   (log_read_line s put get w).1.1 = 255).
Proof.
  intros Hneg. pose proof (max_to_read_neg put get Hneg) as Hmax.
  split; [| split].
  - unfold log_read_line. fold (max_to_read put get). rewrite Hmax.
    match goal with
    | |- context [read_loop ?l ?m ?n ?i ?c ?g ?b ?w'] =>
        destruct (read_loop_count l m n i c g b w') as [Hle Hs];
        destruct (read_loop l m n i c g b w') as [[k buf] w2]
    end.
    cbn [fst] in *.
    assert (1 <= k)%nat by (apply Hs; [discriminate | lia]). lia.
  - intros Hlen.
    destruct (log_read_line_spec s put get w Hlen)
      as (k & _ & Hread & Hstop & _).
    rewrite Hread. cbn [fst snd line_buffer set_line_buffer].
    rewrite Hmax in Hstop.
    destruct Hstop as [Hk | Hlast]; [left; exact Hk | right].
    rewrite last_lookup, length_source, length_offsets in Hlast.
    rewrite Nat2Z.id.
    destruct k as [| k]; [discriminate Hlast |].
    rewrite lookup_app_l
      by (rewrite length_source, length_offsets; lia).
    replace (S k - 1)%nat with (Nat.pred (S k)) by lia. exact Hlast.
  - intros Hd. rewrite log_read_line_no_newline by exact Hd. exact Hmax.
Qed.

Lemma log_read_line_behind_witness :
  1 <= (log_read_line (probed ring_ahead) 0 1 (boot (fun _ => true))).1.1
    <= 255.
Proof.
  apply (log_read_line_behind (probed ring_ahead) 0 1 (boot (fun _ => true))).
  vm_compute. reflexivity.
Defined.

(** X6.  [log_read_line] leaves alone what lies behind the terminator it
    writes: every byte of the line buffer at an index above the returned
    count is what it was before the call, so text of an earlier, longer
    line stays in the buffer behind the NUL.  The ring pointer and the
    stored cursor are not touched either. *)
Theorem log_read_line_keeps_tail s put g w j :
  length (line_buffer s) = 256%nat ->
  (log_read_line s put g w).1.1 < Z.of_nat j ->
  line_buffer (log_read_line s put g w).1.2 !! j = line_buffer s !! j /\
  log (log_read_line s put g w).1.2 = log s /\
  get (log_read_line s put g w).1.2 = get s.
Proof.
  intros Hlen Hj.
  destruct (log_read_line_spec s put g w Hlen) as (k & Hmax & Hread & _).
  rewrite Hread in Hj |- *. cbn [fst snd] in Hj |- *.
  cbn [line_buffer set_line_buffer log get].
  split; [| split; reflexivity].
  rewrite lookup_app_r by (rewrite length_source, length_offsets; lia).
  rewrite length_source, length_offsets.
  destruct (j - k)%nat as [| m] eqn:Hm; [lia |].
  change ((NUL :: drop (S k) (line_buffer s)) !! S m)
    with (drop (S k) (line_buffer s) !! m).
  rewrite lookup_drop. f_equal. lia.
Qed.

Lemma log_read_line_keeps_tail_witness :
  line_buffer (log_read_line (probed (frozen ring_hi)) 3 0
                 (boot (fun _ => true))).1.2 !! 7%nat
    = line_buffer (probed (frozen ring_hi)) !! 7%nat.
Proof.
  apply (log_read_line_keeps_tail (probed (frozen ring_hi)) 3 0
           (boot (fun _ => true)) 7).
  - reflexivity.
  - vm_compute. reflexivity.
Defined.

(** X7.  Whatever the producer does: an iteration that finds the cursor
    different from the committed counter it has loaded, and no overflow,
    moves the cursor towards that counter and never past it: the distance
    from the new cursor to the loaded committed counter, in [u32], is the
    old distance less the count of bytes read, which is at least 1 and at
    most the old distance. *)
Theorem cursor_never_passes_put s g w :
  0 <= g < 2 ^ 32 ->
  seen_put s w <> g ->
  u32 (seen_alloc s g w - g) <= load_sz (log s) ->
  exists g' s' w',
    dump_iter s g w = (Next g', s', w') /\
    1 <= (line_read s g w).1.1 <= u32 (seen_put s w - g) /\
    g' = u32 (g + (line_read s g w).1.1) /\
    u32 (seen_put s w - g')
    = u32 (seen_put s w - g) - (line_read s g w).1.1.
Proof.
  intros Hg Hne Hok.
  destruct (dump_iter_no_overflow s g w Hne Hok) as (w' & Hrun & _).
  eexists _, _, _. split; [exact Hrun |].
  assert (Hput : u32 (seen_put s w) = seen_put s w)
    by (unfold seen_put, load_put; cbn [fst]; apply u32_u32).
  assert (Hn : 1 <= (line_read s g w).1.1 <= u32 (seen_put s w - g)).
  { unfold line_read.
    pose proof (log_read_line_pos s (seen_put s w) g (load_put (log s) w).2)
      as H1.
    pose proof (log_read_line_le s (seen_put s w) g (load_put (log s) w).2)
      as H2.
    pose proof (max_to_read_le_diff (seen_put s w) g) as H3.
    rewrite Hput, (u32_small g Hg) in H1. specialize (H1 Hne). lia. }
  split; [exact Hn |]. split; [reflexivity |].
  rewrite u32_after_advance. apply u32_small.
  pose proof (u32_range (seen_put s w - g)). lia.
Qed.

Lemma cursor_never_passes_put_witness :
  exists g' s' w',
    dump_iter (probed (frozen ring_hi)) 0 (boot (fun _ => true))
    = (Next g', s', w') /\
    u32 (seen_put (probed (frozen ring_hi)) (boot (fun _ => true)) - g')
    = u32 (seen_put (probed (frozen ring_hi)) (boot (fun _ => true)) - 0)
      - (line_read (probed (frozen ring_hi)) 0 (boot (fun _ => true))).1.1.
Proof.
  destruct (cursor_never_passes_put (probed (frozen ring_hi)) 0
              (boot (fun _ => true)))
    as (g' & s' & w' & Hrun & _ & _ & Hdist).
  - lia.
  - vm_compute. discriminate.
  - vm_compute. discriminate.
  - exists g', s', w'. split; [exact Hrun | exact Hdist].
Defined.
(** * The rest of the driver *)

Arguments u64 : simpl never.
Arguments splits : simpl never.

Lemma s32_small x : - 2 ^ 31 <= x < 2 ^ 31 -> s32 x = x.
Proof. intros H. unfold s32. rewrite Z.mod_small by lia. lia. Qed.

Lemma u64_range x : 0 <= u64 x < 2 ^ 64.
Proof. apply Z.mod_pos_bound. lia. Qed.

(** The two words [trusty_std_call32] is given make up the memory id. *)
Lemma splits_words x :
  splits (u64 x) (u32 (u64 x)) (u32 (Z.shiftr (u64 x) 32)) = true.
Proof.
  pose proof (u64_range x) as Hr. pose proof (u32_range (u64 x)) as Hl.
  unfold splits. rewrite Z.shiftr_div_pow2 by lia.
  assert (Hhi : u32 (u64 x / 2 ^ 32) = u64 x / 2 ^ 32).
  { apply u32_small. split; [apply Z.div_pos; lia |].
    apply Z.div_lt_upper_bound; lia. }
  rewrite Hhi.
  assert (Hsum : u32 (u64 x) + 2 ^ 32 * (u64 x / 2 ^ 32) = u64 x).
  { unfold u32. pose proof (Z.div_mod (u64 x) (2 ^ 32) ltac:(lia)). lia. }
  rewrite Hsum, Z.eqb_refl. cbn [andb].
  destruct (Z.leb_spec 0 (u32 (u64 x))); [| lia].
  destruct (Z.ltb_spec (u32 (u64 x)) (2 ^ 32)); [reflexivity | lia].
Qed.

Lemma tracked_app t1 :
  forall r t2,
    tracked r (t1 ++ t2)
    = match tracked r t1 with
      | Some r' => tracked r' t2
      | None => None
      end.
Proof.
  induction t1 as [| c t1 IH]; intros r t2; cbn [app tracked];
    [reflexivity |].
  destruct (track r c); [apply IH | reflexivity].
Qed.

(** ** trusty_supports_logging *)

Lemma supports_logging_yes h p t :
  0 <= TRUSTY_LOG_API_VERSION h < 2 ^ 31 ->
  u32 (SM_ERR_UNDEFINED_SMC h) <> TRUSTY_LOG_API_VERSION h ->
  (trusty_supports_logging h p t).1 = true <->
  s32 (std_call32 p SMC_SC_SHARED_LOG_VERSION) = TRUSTY_LOG_API_VERSION h.
Proof.
  intros Hv Hu. unfold trusty_supports_logging. cbv zeta.
  set (result := s32 (std_call32 p SMC_SC_SHARED_LOG_VERSION)).
  destruct (Z.eqb_spec (u32 result) (u32 (SM_ERR_UNDEFINED_SMC h)))
    as [Hundef | Hdef];
    [| destruct (Z.ltb_spec result 0) as [Hneg | Hpos];
       [| destruct (Z.eqb_spec result (TRUSTY_LOG_API_VERSION h))
            as [Heq | Hne]]];
    cbn [negb fst]; split; intros H;
    try discriminate; try reflexivity; try lia.
  exfalso. apply Hu. rewrite <- Hundef, H. apply u32_small. lia.
Qed.

(** X8.  With a non-negative API version that differs from the
    undefined-SMC error code, [trusty_supports_logging] says yes exactly
    when the secure side answers the version query with the driver's own
    API version.  It makes that one call, logs nothing when it says yes
    and exactly one message when it says no. *)
Theorem trusty_supports_logging_iff h p t :
  0 <= TRUSTY_LOG_API_VERSION h < 2 ^ 31 ->
  u32 (SM_ERR_UNDEFINED_SMC h) <> TRUSTY_LOG_API_VERSION h ->
  ((trusty_supports_logging h p t).1 = true <->
   s32 (std_call32 p SMC_SC_SHARED_LOG_VERSION) = TRUSTY_LOG_API_VERSION h) /\
  exists msgs,
    (trusty_supports_logging h p t).2
      = t ++ trusty_std_call32 SMC_SC_SHARED_LOG_VERSION
               (u32 (TRUSTY_LOG_API_VERSION h)) 0 0
               (s32 (std_call32 p SMC_SC_SHARED_LOG_VERSION)) :: msgs /\
    if (trusty_supports_logging h p t).1 then msgs = []
    else exists e, msgs = [log_call e].
Proof.
  intros Hv Hu. split; [apply supports_logging_yes; assumption |].
  unfold trusty_supports_logging. cbv zeta.
  destruct (_ =? _);
    [| destruct (_ <? _); [| destruct (negb _)]];
    cbn [fst snd]; eexists; rewrite <- ?app_assoc;
    (split; [reflexivity | try reflexivity; eexists; reflexivity]).
Qed.

Lemma trusty_supports_logging_iff_witness :
  (trusty_supports_logging sample_headers (willing ring_ahead 5) []).1 = true.
Proof.
  apply (trusty_supports_logging_iff sample_headers (willing ring_ahead 5) []).
  - cbn. lia.
  - vm_compute. discriminate.
  - vm_compute. reflexivity.
Defined.
(** ** trusty_log_probe *)

(** The resources after the calls of the error labels. *)
Lemma tracked_error_alloc_log result t r :
  tracked nothing t = Some r ->
  state_mem r = true -> call_notifier r = false -> panic_notifier r = false ->
  tracked nothing (error_alloc_log result t).2
  = Some {| state_mem := false; pages := pages r; shared := shared r;
            log_region := log_region r;
            call_notifier := false; panic_notifier := false |}.
Proof.
  intros Ht Hs Hc Hp. unfold error_alloc_log, error_alloc_state. cbn [snd].
  rewrite tracked_app, Ht. cbn [tracked track]. rewrite Hs, Hc, Hp.
  reflexivity.
Qed.

Lemma tracked_err_share_memory result t r :
  tracked nothing t = Some r ->
  state_mem r = true -> call_notifier r = false -> panic_notifier r = false ->
  pages r = true -> shared r = None ->
  tracked nothing (err_share_memory result t).2
  = Some {| state_mem := false; pages := false; shared := None;
            log_region := log_region r;
            call_notifier := false; panic_notifier := false |}.
Proof.
  intros Ht Hs Hc Hp Hpg Hsh. unfold err_share_memory.
  assert (Ht' : tracked nothing (t ++ [__free_pages])
                = Some {| state_mem := state_mem r; pages := false;
                          shared := None; log_region := log_region r;
                          call_notifier := call_notifier r;
                          panic_notifier := panic_notifier r |}).
  { rewrite tracked_app, Ht. cbn [tracked track]. rewrite Hpg, Hsh.
    reflexivity. }
  rewrite (tracked_error_alloc_log result _ _ Ht') by assumption.
  reflexivity.
Qed.

Lemma tracked_error_std_call p result id t r :
  tracked nothing t = Some r ->
  state_mem r = true -> call_notifier r = false -> panic_notifier r = false ->
  pages r = true -> shared r = Some id ->
  tracked nothing (error_std_call p result id t).2
  = Some (if s32 (reclaim_memory p) =? 0 then
            {| state_mem := false; pages := false; shared := None;
               log_region := log_region r;
               call_notifier := false; panic_notifier := false |}
          else leaked id (log_region r)).
Proof.
  intros Ht Hs Hc Hp Hpg Hsh. unfold error_std_call. cbv zeta.
  assert (Hrec : tracked nothing
                   (t ++ [trusty_reclaim_memory id (s32 (reclaim_memory p))])
                 = Some (if s32 (reclaim_memory p) =? 0 then
                           {| state_mem := state_mem r; pages := pages r;
                              shared := None; log_region := log_region r;
                              call_notifier := call_notifier r;
                              panic_notifier := panic_notifier r |}
                         else r)).
  { rewrite tracked_app, Ht. cbn [tracked track]. rewrite Hsh, Z.eqb_refl.
    cbn [negb]. destruct (_ =? 0); reflexivity. }
  destruct (s32 (reclaim_memory p) =? 0); cbn [negb].
  - rewrite (tracked_err_share_memory result _ _ Hrec)
      by (assumption || reflexivity).
    reflexivity.
  - assert (Ht' : tracked nothing
                    ((t ++ [trusty_reclaim_memory id (s32 (reclaim_memory p))])
                     ++ [log_call WARN_ON;
                         log_call (dev_err
                           "trusty_revoke_memory failed: %d 0x%llx\n")])
                  = Some r).
    { rewrite tracked_app, Hrec. reflexivity. }
    rewrite (tracked_error_alloc_log result _ _ Ht') by assumption.
    unfold leaked. rewrite Hpg, Hsh. reflexivity.
Qed.

Lemma tracked_error_call_notifier p result id t r :
  tracked nothing t = Some r ->
  state_mem r = true -> call_notifier r = false -> panic_notifier r = false ->
  pages r = true -> shared r = Some id ->
  log_region r = Some (u32 id, u32 (Z.shiftr id 32)) ->
  tracked nothing (error_call_notifier p result id t).2
  = Some (let logged :=
            if s32 (std_call32 p SMC_SC_SHARED_LOG_RM) =? 0 then None
            else Some (u32 id, u32 (Z.shiftr id 32)) in
          if s32 (reclaim_memory p) =? 0 then
            {| state_mem := false; pages := false; shared := None;
               log_region := logged;
               call_notifier := false; panic_notifier := false |}
          else leaked id logged).
Proof.
  intros Ht Hs Hc Hp Hpg Hsh Hlog. unfold error_call_notifier.
  assert (Ht' : tracked nothing
                  (t ++ [trusty_std_call32 SMC_SC_SHARED_LOG_RM (u32 id)
                           (u32 (Z.shiftr id 32)) 0
                           (s32 (std_call32 p SMC_SC_SHARED_LOG_RM))])
                = Some {| state_mem := state_mem r; pages := pages r;
                          shared := shared r;
                          log_region :=
                            if s32 (std_call32 p SMC_SC_SHARED_LOG_RM) =? 0
                            then None
                            else Some (u32 id, u32 (Z.shiftr id 32));
                          call_notifier := call_notifier r;
                          panic_notifier := panic_notifier r |}).
  { rewrite tracked_app, Ht. cbn [tracked track]. rewrite Hlog, !Z.eqb_refl.
    cbn [andb negb]. destruct (_ =? 0); cbn [negb]; [reflexivity |].
    destruct r; cbn in *. subst. reflexivity. }
  rewrite (tracked_error_std_call p result id _ _ Ht') by assumption.
  reflexivity.
Qed.
Lemma tracked_supports h p :
  tracked nothing (trusty_supports_logging h p []).2 = Some nothing.
Proof.
  unfold trusty_supports_logging. cbv zeta.
  destruct (_ =? _); [reflexivity |].
  destruct (_ <? _); [reflexivity |].
  destruct (negb _); reflexivity.
Qed.

Ltac settle :=
  cbn [state_mem pages shared log_region call_notifier panic_notifier
       nothing leaked];
  repeat split; intros; try discriminate; try congruence; try lia.

(** X9.  Whatever the platform answers, [trusty_log_probe] uses its
    resources in order: it never frees the log pages while they are shared
    with the secure side, never frees its struct while a notifier in it is
    registered, reclaims and deregisters only under the id the sharing has
    returned.  When it succeeds it holds the struct, the pages, the
    sharing, the log registration and both notifiers.  When it fails it
    holds no struct and no notifier; the pages are left exactly when they
    are still shared, which takes a failed [trusty_reclaim_memory]; and a
    log registration is left only when the secure side has refused
    [SMC_SC_SHARED_LOG_RM]. *)
Theorem probe_resources h p :
  exists res,
    tracked nothing (trusty_log_probe h p []).2 = Some res /\
    match (trusty_log_probe h p []).1.2 with
    | Some dev => res = attached (log_pages_shared_mem_id dev)
    | None =>
        state_mem res = false /\
        call_notifier res = false /\
        panic_notifier res = false /\
        (pages res = true <-> shared res <> None) /\
        (pages res = true -> s32 (reclaim_memory p) <> 0) /\
        (log_region res <> None ->
         s32 (std_call32 p SMC_SC_SHARED_LOG_RM) <> 0)
    end.
Proof.
  unfold trusty_log_probe.
  pose proof (tracked_supports h p) as Ht0.
  destruct (trusty_supports_logging h p []) as [ok t0]. cbn [snd] in Ht0.
  destruct ok; cbn [negb];
    [| exists nothing; cbn [fst snd]; split; [exact Ht0 | settle]].
  cbv zeta.
  destruct (kzalloc_ok p); cbn [negb].
  2: { exists nothing. unfold error_alloc_state. cbn [fst snd].
       rewrite tracked_app, Ht0. split; [reflexivity | settle]. }
  assert (Ht1 : tracked nothing (t0 ++ [kzalloc true])
                = Some {| state_mem := true; pages := false; shared := None;
                          log_region := None; call_notifier := false;
                          panic_notifier := false |}).
  { rewrite tracked_app, Ht0. reflexivity. }
  destruct (log_pages p) as [l |].
  2: { assert (Ht2 : tracked nothing ((t0 ++ [kzalloc true])
                                      ++ [alloc_pages false])
                     = Some {| state_mem := true; pages := false;
                               shared := None; log_region := None;
                               call_notifier := false;
                               panic_notifier := false |}).
       { rewrite tracked_app, Ht1. reflexivity. }
       eexists. split;
         [apply (tracked_error_alloc_log _ _ _ Ht2); reflexivity |].
       settle. }
  assert (Ht2 : tracked nothing ((t0 ++ [kzalloc true]) ++ [alloc_pages true])
                = Some {| state_mem := true; pages := true; shared := None;
                          log_region := None; call_notifier := false;
                          panic_notifier := false |}).
  { rewrite tracked_app, Ht1. reflexivity. }
  set (id := u64 (share_memory p).2).
  destruct (Z.eqb_spec (s32 (share_memory p).1) 0) as [Hshare | Hshare];
    cbn [negb].
  2: { assert (Ht3 : tracked nothing
                       ((((t0 ++ [kzalloc true]) ++ [alloc_pages true])
                         ++ [trusty_share_memory_compat
                               (s32 (share_memory p).1) id])
                        ++ [log_call (dev_err
                              "trusty_share_memory failed: %d\n")])
                     = Some {| state_mem := true; pages := true;
                               shared := None; log_region := None;
                               call_notifier := false;
                               panic_notifier := false |}).
       { do 2 rewrite tracked_app. rewrite Ht2. cbn [tracked track].
         destruct (Z.eqb_spec (s32 (share_memory p).1) 0); [contradiction |].
         reflexivity. }
       eexists. split;
         [apply (tracked_err_share_memory _ _ _ Ht3); reflexivity |].
       settle. }
  rewrite Hshare.
  assert (Ht3 : tracked nothing
                  (((t0 ++ [kzalloc true]) ++ [alloc_pages true])
                   ++ [trusty_share_memory_compat 0 id])
                = Some {| state_mem := true; pages := true;
                          shared := Some id; log_region := None;
                          call_notifier := false;
                          panic_notifier := false |}).
  { rewrite tracked_app, Ht2. reflexivity. }
  set (t3 := ((t0 ++ [kzalloc true]) ++ [alloc_pages true])
             ++ [trusty_share_memory_compat 0 id]) in *.
  destruct (Z.ltb_spec (s32 (std_call32 p SMC_SC_SHARED_LOG_ADD)) 0)
    as [Hadd | Hadd].
  { assert (Ht4 : tracked nothing
                    ((t3 ++ [trusty_std_call32 SMC_SC_SHARED_LOG_ADD
                               (u32 id) (u32 (Z.shiftr id 32))
                               (u32 (TRUSTY_LOG_SIZE h))
                               (s32 (std_call32 p SMC_SC_SHARED_LOG_ADD))])
                     ++ [log_call (dev_err
                           "trusty std call (SMC_SC_SHARED_LOG_ADD) failed: %d 0x%llx\n")])
                  = Some {| state_mem := true; pages := true;
                            shared := Some id; log_region := None;
                            call_notifier := false;
                            panic_notifier := false |}).
    { do 2 rewrite tracked_app. rewrite Ht3.
      cbn [tracked track shared log_region].
      unfold id at 1 2 3. rewrite splits_words. cbn [negb].
      destruct (Z.ltb_spec (s32 (std_call32 p SMC_SC_SHARED_LOG_ADD)) 0);
        [reflexivity | lia]. }
    eexists. split;
      [apply (tracked_error_std_call p _ id _ _ Ht4); reflexivity |].
    cbn [fst snd error_std_call]. unfold error_std_call, error_alloc_log,
      err_share_memory, error_alloc_state. cbv zeta.
    destruct (Z.eqb_spec (s32 (reclaim_memory p)) 0); cbn [negb fst snd];
      settle. }
  assert (Ht4 : tracked nothing
                  (t3 ++ [trusty_std_call32 SMC_SC_SHARED_LOG_ADD
                            (u32 id) (u32 (Z.shiftr id 32))
                            (u32 (TRUSTY_LOG_SIZE h))
                            (s32 (std_call32 p SMC_SC_SHARED_LOG_ADD))])
                = Some {| state_mem := true; pages := true;
                          shared := Some id;
                          log_region := Some (u32 id, u32 (Z.shiftr id 32));
                          call_notifier := false;
                          panic_notifier := false |}).
  { rewrite tracked_app, Ht3. cbn [tracked track shared log_region].
    unfold id at 1 2 3. rewrite splits_words. cbn [negb].
    destruct (Z.ltb_spec (s32 (std_call32 p SMC_SC_SHARED_LOG_ADD)) 0);
      [lia | reflexivity]. }
  set (t4 := t3 ++ [trusty_std_call32 SMC_SC_SHARED_LOG_ADD _ _ _ _]) in *.
  set (t5 := t4 ++ [trusty_std_call32 SMC_SC_SHARED_CONSOLE_CTL _ _ _ _]).
  set (t6 := if negb (s32 (std_call32 p SMC_SC_SHARED_CONSOLE_CTL) =? 0)
             then t5 ++ [pr_err _] else t5).
  assert (Ht6 : tracked nothing t6
                = Some {| state_mem := true; pages := true;
                          shared := Some id;
                          log_region := Some (u32 id, u32 (Z.shiftr id 32));
                          call_notifier := false;
                          panic_notifier := false |}).
  { unfold t6, t5.
    destruct (negb _); [do 2 rewrite tracked_app | rewrite tracked_app];
      rewrite Ht4; reflexivity. }
  clearbody t6. clear t5.
  destruct (Z.ltb_spec (s32 (call_notifier_register p)) 0) as [Hcall | Hcall].
  { assert (Ht7 : tracked nothing
                    ((t6 ++ [trusty_call_notifier_register
                               (s32 (call_notifier_register p))])
                     ++ [log_call (dev_err
                           "failed to register trusty call notifier\n")])
                  = Some {| state_mem := true; pages := true;
                            shared := Some id;
                            log_region :=
                              Some (u32 id, u32 (Z.shiftr id 32));
                            call_notifier := false;
                            panic_notifier := false |}).
    { do 2 rewrite tracked_app. rewrite Ht6. cbn [tracked track].
      destruct (Z.ltb_spec (s32 (call_notifier_register p)) 0);
        [reflexivity | lia]. }
    eexists. split;
      [apply (tracked_error_call_notifier p _ id _ _ Ht7); reflexivity |].
    unfold error_call_notifier, error_std_call, error_alloc_log,
      err_share_memory, error_alloc_state. cbv zeta.
    destruct (Z.eqb_spec (s32 (reclaim_memory p)) 0);
      destruct (Z.eqb_spec (s32 (std_call32 p SMC_SC_SHARED_LOG_RM)) 0);
      cbn [negb fst snd]; settle. }
  assert (Ht7 : tracked nothing
                  (t6 ++ [trusty_call_notifier_register
                            (s32 (call_notifier_register p))])
                = Some {| state_mem := true; pages := true;
                          shared := Some id;
                          log_region := Some (u32 id, u32 (Z.shiftr id 32));
                          call_notifier := true;
                          panic_notifier := false |}).
  { rewrite tracked_app, Ht6. cbn [tracked track].
    destruct (Z.ltb_spec (s32 (call_notifier_register p)) 0);
      [lia | reflexivity]. }
  set (t7 := t6 ++ [trusty_call_notifier_register _]) in *.
  destruct (Z.ltb_spec (s32 (panic_notifier_register p)) 0)
    as [Hpanic | Hpanic].
  { assert (Ht8 : tracked nothing
                    (((t7 ++ [atomic_notifier_chain_register
                                (s32 (panic_notifier_register p))])
                      ++ [log_call (dev_err
                            "failed to register panic notifier\n")])
                     ++ [trusty_call_notifier_unregister])
                  = Some {| state_mem := true; pages := true;
                            shared := Some id;
                            log_region :=
                              Some (u32 id, u32 (Z.shiftr id 32));
                            call_notifier := false;
                            panic_notifier := false |}).
    { do 3 rewrite tracked_app. rewrite Ht7. cbn [tracked track].
      destruct (Z.ltb_spec (s32 (panic_notifier_register p)) 0);
        [reflexivity | lia]. }
    eexists. split;
      [unfold error_panic_notifier;
       apply (tracked_error_call_notifier p _ id _ _ Ht8); reflexivity |].
    unfold error_panic_notifier, error_call_notifier, error_std_call,
      error_alloc_log, err_share_memory, error_alloc_state. cbv zeta.
    destruct (Z.eqb_spec (s32 (reclaim_memory p)) 0);
      destruct (Z.eqb_spec (s32 (std_call32 p SMC_SC_SHARED_LOG_RM)) 0);
      cbn [negb fst snd]; settle. }
  exists (attached id). cbn [fst snd log_pages_shared_mem_id].
  split; [| reflexivity].
  do 2 rewrite tracked_app. rewrite Ht7. cbn [tracked track].
  destruct (Z.ltb_spec (s32 (panic_notifier_register p)) 0);
    [lia | reflexivity].
Qed.

Ltac probe_leaf :=
  cbn [fst snd];
  repeat split; intros; try reflexivity; try discriminate; try lia;
  try congruence;
  try (intuition (try discriminate; try lia; try congruence)).

(** X10.  With errno numbers that are positive [int]s, a non-negative API
    version and an undefined-SMC code that differs from it,
    [trusty_log_probe] returns 0 exactly when the secure side answers the
    version query with the driver's API version, both allocations succeed,
    the sharing returns 0, and [SMC_SC_SHARED_LOG_ADD] and the two notifier
    registrations return no negative value.  What the console call, the
    deregistration and the reclaim answer plays no part.  On 0 the driver
    data is the fresh state: cursor 0, zeroed line buffer, free lock, the
    memory id of the sharing.  On any other result no driver data is
    set. *)
Theorem probe_succeeds_iff h p :
  0 < ENXIO h < 2 ^ 31 ->
  0 < ENOMEM h < 2 ^ 31 ->
  0 <= TRUSTY_LOG_API_VERSION h < 2 ^ 31 ->
  u32 (SM_ERR_UNDEFINED_SMC h) <> TRUSTY_LOG_API_VERSION h ->
  ((trusty_log_probe h p []).1.1 = 0 <->
   s32 (std_call32 p SMC_SC_SHARED_LOG_VERSION) = TRUSTY_LOG_API_VERSION h /\
   kzalloc_ok p = true /\
   log_pages p <> None /\
   s32 (share_memory p).1 = 0 /\
   0 <= s32 (std_call32 p SMC_SC_SHARED_LOG_ADD) /\
   0 <= s32 (call_notifier_register p) /\
   0 <= s32 (panic_notifier_register p)) /\
  match log_pages p with
  | Some l =>
      (trusty_log_probe h p []).1.1 = 0 ->
      (trusty_log_probe h p []).1.2
      = Some {| drain_state := probed l; lock := false;
                log_pages_shared_mem_id := u64 (share_memory p).2 |}
  | None => True
  end /\
  ((trusty_log_probe h p []).1.1 <> 0 ->
   (trusty_log_probe h p []).1.2 = None).
Proof.
  intros Hnxio Hnomem Hv Hu.
  pose proof (supports_logging_yes h p [] Hv Hu) as Hsup.
  assert (Hx : s32 (- ENXIO h) = - ENXIO h) by (apply s32_small; lia).
  assert (Hm : s32 (- ENOMEM h) = - ENOMEM h) by (apply s32_small; lia).
  unfold trusty_log_probe.
  destruct (trusty_supports_logging h p []) as [ok t0]. cbn [fst] in Hsup.
  destruct ok; cbn [negb].
  2: { cbn [fst snd]. rewrite Hx.
       assert (s32 (std_call32 p SMC_SC_SHARED_LOG_VERSION)
               <> TRUSTY_LOG_API_VERSION h)
         by (intros H; apply Hsup in H; discriminate).
       destruct (log_pages p); probe_leaf. }
  assert (Hver : s32 (std_call32 p SMC_SC_SHARED_LOG_VERSION)
                 = TRUSTY_LOG_API_VERSION h) by (apply Hsup; reflexivity).
  cbv zeta. unfold error_panic_notifier, error_call_notifier, error_std_call,
    err_share_memory, error_alloc_log, error_alloc_state. cbv zeta.
  destruct (kzalloc_ok p); cbn [negb];
    [| cbn [fst snd]; rewrite Hm; destruct (log_pages p); probe_leaf].
  destruct (log_pages p) as [l |];
    [| cbn [fst snd]; rewrite Hm; probe_leaf].
  destruct (Z.eqb_spec (s32 (share_memory p).1) 0) as [Hshare | Hshare];
    cbn [negb]; [| probe_leaf].
  destruct (Z.ltb_spec (s32 (std_call32 p SMC_SC_SHARED_LOG_ADD)) 0)
    as [Hadd | Hadd];
    [destruct (negb (s32 (reclaim_memory p) =? 0)); probe_leaf |].
  destruct (Z.ltb_spec (s32 (call_notifier_register p)) 0) as [Hcall | Hcall];
    [destruct (negb (s32 (reclaim_memory p) =? 0)); probe_leaf |].
  destruct (Z.ltb_spec (s32 (panic_notifier_register p)) 0)
    as [Hpanic | Hpanic];
    [destruct (negb (s32 (reclaim_memory p) =? 0)); probe_leaf |].
  probe_leaf.
Qed.

Lemma probe_succeeds_iff_witness :
  (trusty_log_probe sample_headers (willing ring_ahead 5) []).1.1 = 0.
Proof.
  apply (probe_succeeds_iff sample_headers (willing ring_ahead 5)).
  - cbn. lia.
  - cbn. lia.
  - cbn. lia.
  - vm_compute. discriminate.
  - cbn [willing std_call32 kzalloc_ok log_pages share_memory
         call_notifier_register panic_notifier_register fst].
    repeat split; try (vm_compute; congruence); discriminate.
Defined.

(** ** trusty_log_remove and trusty_log_shutdown *)

Lemma trusty_log_remove_calls q dev t :
  (trusty_log_remove q dev t).2 = t ++ (trusty_log_remove q dev []).2.
Proof.
  unfold trusty_log_remove. cbv zeta. cbn [snd].
  destruct (negb (s32 (std_call32 q SMC_SC_SHARED_LOG_RM) =? 0));
    destruct (negb (s32 (reclaim_memory q) =? 0));
    cbn [app]; rewrite <- ?app_assoc; reflexivity.
Qed.

Lemma tracked_remove q dev :
  tracked (attached (log_pages_shared_mem_id dev))
          (trusty_log_remove q dev []).2
  = Some {| state_mem := false;
            pages := negb (s32 (reclaim_memory q) =? 0);
            shared := if s32 (reclaim_memory q) =? 0 then None
                      else Some (log_pages_shared_mem_id dev);
            log_region :=
              if s32 (std_call32 q SMC_SC_SHARED_LOG_RM) =? 0 then None
              else Some (u32 (log_pages_shared_mem_id dev),
                         u32 (Z.shiftr (log_pages_shared_mem_id dev) 32));
            call_notifier := false; panic_notifier := false |}.
Proof.
  unfold trusty_log_remove. cbv zeta. cbn [snd].
  destruct (s32 (std_call32 q SMC_SC_SHARED_LOG_RM) =? 0) eqn:Hrm;
    destruct (s32 (reclaim_memory q) =? 0) eqn:Hrec;
    cbn [negb app tracked track attached state_mem pages shared log_region
         call_notifier panic_notifier andb];
    rewrite ?Z.eqb_refl, ?Hrm, ?Hrec;
    cbn [negb app tracked track attached state_mem pages shared log_region
         call_notifier panic_notifier andb];
    rewrite ?Z.eqb_refl, ?Hrm, ?Hrec;
    cbn [negb app tracked track attached state_mem pages shared log_region
         call_notifier panic_notifier andb];
    reflexivity.
Qed.

(** X11.  Called on what a successful probe has left, [trusty_log_remove]
    returns 0 whatever the platform answers, uses the resources in order
    (both notifiers are unregistered before the struct is freed, the pages
    are not freed while shared), and leaves no struct and no notifier.  The
    pages are freed exactly when [trusty_reclaim_memory] returns 0, also
    when the deregistration of the log has failed before; otherwise they
    stay allocated and shared.  The log registration is gone exactly when
    [SMC_SC_SHARED_LOG_RM] returns 0. *)
Theorem remove_resources q dev t :
  (trusty_log_remove q dev t).1 = 0 /\
  exists res,
    tracked (attached (log_pages_shared_mem_id dev))
            (trusty_log_remove q dev []).2 = Some res /\
    state_mem res = false /\
    call_notifier res = false /\
    panic_notifier res = false /\
    (pages res = false <-> s32 (reclaim_memory q) = 0) /\
    (shared res = None <-> s32 (reclaim_memory q) = 0) /\
    (log_region res = None <-> s32 (std_call32 q SMC_SC_SHARED_LOG_RM) = 0).
Proof.
  split; [reflexivity |].
  eexists. split; [apply tracked_remove |].
  cbn [state_mem pages shared log_region call_notifier panic_notifier].
  destruct (Z.eqb_spec (s32 (reclaim_memory q)) 0);
    destruct (Z.eqb_spec (s32 (std_call32 q SMC_SC_SHARED_LOG_RM)) 0);
    cbn [negb]; repeat split; intros; congruence.
Qed.

Ltac probe_step :=
  cbn [Z.eqb tracked track state_mem pages shared log_region call_notifier
       panic_notifier nothing negb andb].

(** The calls of a probe that sets driver data. *)
Lemma probe_attached h p dev :
  (trusty_log_probe h p []).1.2 = Some dev ->
  tracked nothing (trusty_log_probe h p []).2
  = Some (attached (log_pages_shared_mem_id dev)).
Proof.
  unfold trusty_log_probe, error_panic_notifier, error_call_notifier,
    error_std_call, err_share_memory, error_alloc_log, error_alloc_state.
  pose proof (tracked_supports h p) as Ht0.
  destruct (trusty_supports_logging h p []) as [ok t0]. cbn [snd] in Ht0.
  destruct ok; cbn [negb]; [| discriminate].
  cbv zeta.
  destruct (kzalloc_ok p); cbn [negb]; [| discriminate].
  destruct (log_pages p) as [l |]; [| discriminate].
  destruct (Z.eqb_spec (s32 (share_memory p).1) 0) as [Hshare | _];
    cbn [negb]; [| discriminate].
  destruct (Z.ltb_spec (s32 (std_call32 p SMC_SC_SHARED_LOG_ADD)) 0)
    as [_ | Hadd];
    [destruct (negb (s32 (reclaim_memory p) =? 0)); discriminate |].
  destruct (Z.ltb_spec (s32 (call_notifier_register p)) 0) as [_ | Hcall];
    [destruct (negb (s32 (reclaim_memory p) =? 0)); discriminate |].
  destruct (Z.ltb_spec (s32 (panic_notifier_register p)) 0)
    as [_ | Hpanic];
    [destruct (negb (s32 (reclaim_memory p) =? 0)); discriminate |].
  cbn [fst snd]. intros H. injection H as <-.
  cbn [log_pages_shared_mem_id].
  apply Z.ltb_ge in Hadd, Hcall, Hpanic.
  destruct (negb (s32 (std_call32 p SMC_SC_SHARED_CONSOLE_CTL) =? 0));
    rewrite !tracked_app, Ht0;
    cbn [tracked track]; rewrite Hshare; probe_step;
    rewrite splits_words; probe_step;
    rewrite Hadd; probe_step;
    rewrite Hcall; probe_step;
    rewrite Hpanic; reflexivity.
Qed.

(** X12.  Attach and detach cancel out: the calls of a probe that has set
    driver data, followed by the calls of [trusty_log_shutdown] (which are
    those of [trusty_log_remove]) on that data, are all in order and leave
    nothing behind when the secure side lets the log go and the memory be
    reclaimed; the id probe has stored in its struct is the one remove
    deregisters and reclaims. *)
Theorem probe_then_shutdown h p q dev :
  (trusty_log_probe h p []).1.2 = Some dev ->
  s32 (std_call32 q SMC_SC_SHARED_LOG_RM) = 0 ->
  s32 (reclaim_memory q) = 0 ->
  tracked nothing (trusty_log_shutdown q dev (trusty_log_probe h p []).2)
  = Some nothing.
Proof.
  intros Hdev Hrm Hrec.
  unfold trusty_log_shutdown.
  rewrite trusty_log_remove_calls, tracked_app, (probe_attached h p dev Hdev).
  rewrite tracked_remove, Hrm, Hrec. reflexivity.
Qed.

Lemma probe_then_shutdown_witness :
  tracked nothing
    (trusty_log_shutdown (willing ring_ahead 5)
       {| drain_state := probed ring_ahead; lock := false;
          log_pages_shared_mem_id := 5 |}
       (trusty_log_probe sample_headers (willing ring_ahead 5) []).2)
  = Some nothing.
Proof.
  apply (probe_then_shutdown sample_headers (willing ring_ahead 5)
           (willing ring_ahead 5)).
  - vm_compute. reflexivity.
  - vm_compute. reflexivity.
  - vm_compute. reflexivity.
Defined.
(** ** The notifiers *)

Lemma trusty_dump_logs_static_returns a p c d s w :
  log s = static_rb a p c d ->
  is_power_of_2 (u32 c) = true ->
  u32 (a - p) <= u32 c ->
  exists s' w',
    trusty_dump_logs (S (Z.to_nat (2 * u32 c + 2))) s w = (true, s', w') /\
    get s' = u32 p /\ log s' = static_rb a p c d /\
    rate_limit w' = rate_limit w.
Proof.
  intros HL Hpow Hwin. unfold trusty_dump_logs.
  assert (Hsz : load_sz (log s) = u32 c).
  { unfold load_sz. rewrite HL. reflexivity. }
  rewrite Hsz, Hpow. cbn [negb].
  destruct (dump_loop_static_terminates a p c d Hpow Hwin
              (Z.to_nat (2 * u32 c + 2)) s (u32 (get s)) w HL
              (u32_range _)) as (s' & w' & Hrun).
  { pose proof (pending_work_bounds a p c Hwin (u32 (get s))). lia. }
  pose proof (dump_loop_caught_up _ _ _ _ _ _ _ Hrun) as (HL' & _).
  pose proof (dump_loop_accounts (S (Z.to_nat (2 * u32 c + 2))) s
                (u32 (get s)) w) as (Hrate & _).
  rewrite Hrun in Hrate |- *. cbn [snd] in Hrate.
  eexists _, _. split; [reflexivity |]. cbn [get set_get log line_buffer].
  split; [reflexivity |]. split; [congruence |]. exact Hrate.
Qed.

(** A drain that starts caught up with a still ring. *)
Lemma trusty_dump_logs_idle a p c d s w fuel :
  log s = static_rb a p c d ->
  is_power_of_2 (u32 c) = true ->
  get s = u32 p ->
  trusty_dump_logs (S fuel) s w = (true, s, tick w).
Proof.
  intros HL Hpow Hget. unfold trusty_dump_logs.
  assert (Hsz : load_sz (log s) = u32 c).
  { unfold load_sz. rewrite HL. reflexivity. }
  rewrite Hsz, Hpow. cbn [negb dump_loop].
  rewrite dump_iter_break.
  - rewrite Hget, u32_u32, <- Hget. destruct s; reflexivity.
  - unfold seen_put, load_put. rewrite HL, Hget, u32_u32. reflexivity.
Qed.

(** X13.  On a ring that stands still, with a power-of-two capacity and
    the reserved counter at most the capacity ahead of the committed one,
    the call notifier invoked for [TRUSTY_CALL_RETURNED] with the lock free
    returns [NOTIFY_OK] with the lock free again, the cursor at the
    committed counter and the memory id untouched.  Notified again in that
    situation it finds nothing to do: one load of the committed counter,
    nothing printed, nothing changed in the driver's struct. *)
Theorem call_notify_drains h a p c d dev w :
  log (drain_state dev) = static_rb a p c d ->
  is_power_of_2 (u32 c) = true ->
  u32 (a - p) <= u32 c ->
  lock dev = false ->
  exists dev' w',
    trusty_log_call_notify h (S (Z.to_nat (2 * u32 c + 2)))
      (TRUSTY_CALL_RETURNED h) dev w = Some (NOTIFY_OK h, dev', w') /\
    lock dev' = false /\
    get (drain_state dev') = u32 p /\
    log_pages_shared_mem_id dev' = log_pages_shared_mem_id dev /\
    forall fuel,
      trusty_log_call_notify h (S fuel) (TRUSTY_CALL_RETURNED h) dev' w'
      = Some (NOTIFY_OK h, dev', tick w').
Proof.
  intros HL Hpow Hwin Hlock.
  destruct (trusty_dump_logs_static_returns a p c d (drain_state dev) w
              HL Hpow Hwin) as (s' & w' & Hrun & Hget & HL' & _).
  unfold trusty_log_call_notify at 1.
  rewrite Z.eqb_refl, Hlock, Hrun. cbn [negb].
  eexists _, _. split; [reflexivity |].
  cbn [lock drain_state log_pages_shared_mem_id].
  repeat split; try assumption.
  intros fuel. unfold trusty_log_call_notify.
  rewrite Z.eqb_refl. cbn [negb lock drain_state log_pages_shared_mem_id].
  rewrite (trusty_dump_logs_idle a p c d s' w' fuel HL' Hpow Hget).
  reflexivity.
Qed.

Lemma call_notify_drains_witness :
  exists dev' w',
    trusty_log_call_notify sample_headers (S (Z.to_nat (2 * u32 16 + 2)))
      (TRUSTY_CALL_RETURNED sample_headers)
      {| drain_state := probed (frozen ring_hi); lock := false;
         log_pages_shared_mem_id := 5 |}
      (boot (fun _ => true))
    = Some (NOTIFY_OK sample_headers, dev', w') /\
    lock dev' = false /\
    get (drain_state dev') = u32 3.
Proof.
  destruct (call_notify_drains sample_headers 3 3 16
              (region (r_data ring_hi))
              {| drain_state := probed (frozen ring_hi); lock := false;
                 log_pages_shared_mem_id := 5 |}
              (boot (fun _ => true)))
    as (dev' & w' & Hrun & Hlock & Hget & _).
  - reflexivity.
  - reflexivity.
  - vm_compute. discriminate.
  - reflexivity.
  - exists dev', w'. split; [exact Hrun |]. split; [exact Hlock | exact Hget].
Defined.

Lemma c_str_app (cs rest : list ascii) :
  Forall (fun x => x <> NUL) cs -> c_str (cs ++ rest) = cs ++ c_str rest.
Proof.
  induction 1 as [| c cs Hc _ IH]; cbn [app c_str]; [reflexivity |].
  destruct (Ascii.eqb_spec c NUL) as [-> | _]; [contradiction |].
  rewrite IH. reflexivity.
Qed.

Lemma panic_banner_text : Forall (fun x => x <> NUL) panic_banner.
Proof. unfold panic_banner. cbn. repeat constructor; discriminate. Qed.

(** X14.  The panic notifier does not look at the lock or at the action:
    on a still ring of power-of-two capacity that holds NUL-free [text]
    between the cursor and the committed counter, with the reserved counter
    at most the capacity ahead of the cursor, it returns [NOTIFY_OK] for
    every action, whether the lock is held or free, and leaves the lock as
    it found it.  The kernel log gets the banner with the version string
    first (not rate limited), then the lines of [text] that the rate
    limiter lets through, and the cursor ends at the committed counter. *)
Theorem panic_notify_flushes h r text dev w version action fuel :
  log (drain_state dev) = frozen r ->
  is_power_of_2 (u32 (r_sz r)) = true ->
  length (line_buffer (drain_state dev)) = 256%nat ->
  0 <= get (drain_state dev) < 2 ^ 32 ->
  holds_text r (get (drain_state dev)) text ->
  Forall (fun x => x <> NUL) text ->
  (length text < fuel)%nat ->
  exists dev' w',
    trusty_log_panic_notify h fuel version action dev w
    = Some (NOTIFY_OK h, dev', w') /\
    lock dev' = lock dev /\
    get (drain_state dev') = u32 (r_put r) /\
    rl_calls w' = (rl_calls w + length (lines_255 text))%nat /\
    map printed (klog w')
    = map printed (klog w)
      ++ (panic_banner ++ c_str version)
         :: passed (rate_limit w) (rl_calls w) (lines_255 text).
Proof.
  intros HL Hpow Hlen Hget Htext Hnul Hfuel.
  destruct (trusty_dump_logs_still_lines r text (drain_state dev)
              (emit (dev_info (panic_banner ++ version)) w) fuel
              Hpow Hlen Hget Htext Hfuel)
    as (s' & w' & bufs & Hrun & Hget' & _ & Hklog & Hbufs & Hrl & _).
  assert (Hs : set_log (drain_state dev) (frozen r) = drain_state dev).
  { unfold set_log. rewrite <- HL. destruct (drain_state dev); reflexivity. }
  rewrite Hs in Hrun.
  unfold trusty_log_panic_notify. cbv zeta. rewrite Hrun.
  eexists _, _. split; [reflexivity |].
  cbn [lock drain_state]. split; [reflexivity |].
  split; [rewrite Hget'; symmetry; apply Htext |].
  split; [exact Hrl |].
  rewrite Hklog. cbn [klog emit rate_limit rl_calls] in Hbufs |- *.
  rewrite !map_app, <- app_assoc. cbn [map app printed].
  rewrite (c_str_app _ _ panic_banner_text). do 2 f_equal.
  rewrite map_map. cbn [printed].
  apply printed_lines; [exact Hbufs |].
  apply passed_Forall, Forall_lines.
  unfold lines_255. rewrite concat_cut_lines by lia. exact Hnul.
Qed.

Lemma panic_notify_flushes_witness :
  exists dev' w',
    trusty_log_panic_notify sample_headers 4 ["1"%char] 0
      {| drain_state := probed (frozen ring_hi); lock := true;
         log_pages_shared_mem_id := 5 |}
      (boot (fun _ => true))
    = Some (NOTIFY_OK sample_headers, dev', w') /\
    lock dev' = true /\
    map printed (klog w')
    = [panic_banner ++ ["1"%char]; ["h"; "i"; newline]%char].
Proof.
  destruct (panic_notify_flushes sample_headers ring_hi
              ["h"; "i"; newline]%char
              {| drain_state := probed (frozen ring_hi); lock := true;
                 log_pages_shared_mem_id := 5 |}
              (boot (fun _ => true)) ["1"%char] 0 4)
    as (dev' & w' & Hrun & Hlock & _ & _ & Hklog).
  - reflexivity.
  - reflexivity.
  - reflexivity.
  - cbn. lia.
  - repeat split; vm_compute; congruence.
  - repeat constructor; discriminate.
  - cbn. lia.
  - exists dev', w'. split; [exact Hrun |]. split; [exact Hlock |].
    exact Hklog.
Defined.

(** ** The order of the loads in one iteration *)

(** X15.  Whatever the producer does, an iteration that goes on to the
    next one has loaded, in this order: the committed counter, then some
    [n <= 255] bytes of the data region, one per load, at the masked
    offsets of the counters [g], [g + 1], ..., which are the first [n]
    bytes of the line buffer afterwards, and only then the reserved
    counter.  It is the value of the reserved counter after the last data
    load that the overflow check compares and that the cursor is set from
    when it finds an overflow. *)
Theorem iteration_load_order s g w g' s' w' :
  length (line_buffer s) = 256%nat ->
  dump_iter s g w = (Next g', s', w') ->
  exists n : nat,
    (n <= 255)%nat /\
    clock w' = (clock w + n + 2)%nat /\
    u32 (put (log s) (clock w)) <> g /\
    (forall j : nat,
       (j < n)%nat ->
       line_buffer s' !! j
       = Some (data (log s) (clock w + 1 + j)
                 (Z.land (u32 (g + Z.of_nat j))
                         (u32 (load_sz (log s) - 1))))) /\
    g' = (if u32 (u32 (alloc (log s) (clock w + 1 + n)) - g)
             >? load_sz (log s)
          then u32 (u32 (alloc (log s) (clock w + 1 + n)) - load_sz (log s))
          else u32 (g + Z.of_nat n)).
Proof.
  intros Hlen Hrun.
  destruct (Z.eq_dec (seen_put s w) g) as [Heq | Hne].
  { rewrite dump_iter_break in Hrun by exact Heq. discriminate. }
  destruct (log_read_line_spec s (s32 (seen_put s w)) (s32 g)
              (load_put (log s) w).2 Hlen) as (k & Hmax & Hread & _).
  fold (line_read s g w) in Hread.
  pose proof (max_to_read_range (s32 (seen_put s w)) (s32 g)) as Hr.
  rewrite size_t_u32 in Hread.
  assert (Halloc : seen_alloc s g w
                   = u32 (alloc (log s) (clock w + 1 + k))).
  { unfold seen_alloc, load_alloc. rewrite Hread.
    cbn [fst snd after_reads clock load_put tick].
    rewrite length_offsets. do 2 f_equal. lia. }
  rewrite dump_iter_body in Hrun by exact Hne. cbv zeta in Hrun.
  rewrite Halloc in Hrun.
  exists k. split; [lia |].
  assert (Hbuf : forall j : nat,
            (j < k)%nat ->
            line_buffer (line_read s g w).1.2 !! j
            = Some (data (log s) (clock w + 1 + j)
                      (Z.land (u32 (g + Z.of_nat j))
                              (u32 (load_sz (log s) - 1))))).
  { intros j Hj. rewrite Hread. cbn [fst snd line_buffer set_line_buffer].
    rewrite lookup_app_l by (rewrite length_source, length_offsets; exact Hj).
    rewrite (source_lookup _ _ _ j
               (Z.land (u32 (g + Z.of_nat j)) (u32 (load_sz (log s) - 1)))).
    - cbn [load_put snd tick clock]. do 2 f_equal. lia.
    - apply offsets_lookup; [apply u32_range | exact Hj]. }
  assert (Hclock : clock (line_read s g w).2 = (clock w + 1 + k)%nat).
  { rewrite Hread. cbn [snd after_reads clock load_put tick].
    rewrite length_offsets. lia. }
  assert (Hn : (line_read s g w).1.1 = Z.of_nat k)
    by (rewrite Hread; reflexivity).
  split; [| split; [exact Hne |]].
  - destruct (_ >? _) in Hrun;
      apply pair_equal_spec in Hrun as [_ Hw]; subst w'.
    + cbn [emit tick clock]. lia.
    + destruct (rate_limit _ _); cbn [emit __ratelimit snd tick clock]; lia.
  - destruct (_ >? _) in Hrun |- *;
      apply pair_equal_spec in Hrun as [Hrun _];
      apply pair_equal_spec in Hrun as [Hg Hs];
      injection Hg as Hg; subst s' g'.
    + split; [exact Hbuf | reflexivity].
    + split; [exact Hbuf | rewrite Hn; reflexivity].
Qed.

Lemma iteration_load_order_witness :
  exists n : nat,
    (n <= 255)%nat /\
    clock (dump_iter (probed (frozen ring_hi)) 0 (boot (fun _ => true))).2
    = (clock (boot (fun _ => true)) + n + 2)%nat.
Proof.
  destruct (iteration_load_order (probed (frozen ring_hi)) 0
              (boot (fun _ => true)) 3
              (dump_iter (probed (frozen ring_hi)) 0
                 (boot (fun _ => true))).1.2
              (dump_iter (probed (frozen ring_hi)) 0
                 (boot (fun _ => true))).2)
    as (n & Hn & Hclock & _).
  - reflexivity.
  - vm_compute. reflexivity.
  - exists n. split; [exact Hn | exact Hclock].
Defined.

(** ** From probe to the first drain *)

(** The driver data a probe sets. *)
Lemma probe_data h p dev :
  (trusty_log_probe h p []).1.2 = Some dev ->
  exists l,
    log_pages p = Some l /\
    dev = {| drain_state := probed l; lock := false;
             log_pages_shared_mem_id := u64 (share_memory p).2 |}.
Proof.
  unfold trusty_log_probe, error_panic_notifier, error_call_notifier,
    error_std_call, err_share_memory, error_alloc_log, error_alloc_state.
  destruct (trusty_supports_logging h p []) as [ok t0].
  destruct ok; cbn [negb]; [| discriminate].
  cbv zeta.
  destruct (kzalloc_ok p); cbn [negb]; [| discriminate].
  destruct (log_pages p) as [l |]; [| discriminate].
  destruct (negb (s32 (share_memory p).1 =? 0)); [discriminate |].
  destruct (s32 (std_call32 p SMC_SC_SHARED_LOG_ADD) <? 0);
    [destruct (negb (s32 (reclaim_memory p) =? 0)); discriminate |].
  destruct (s32 (call_notifier_register p) <? 0);
    [destruct (negb (s32 (reclaim_memory p) =? 0)); discriminate |].
  destruct (s32 (panic_notifier_register p) <? 0);
    [destruct (negb (s32 (reclaim_memory p) =? 0)); discriminate |].
  cbn [fst snd]. intros H. injection H as <-. exists l. split; reflexivity.
Qed.

(** X16.  The state a successful probe sets up is one the drain works
    from: when the pages handed out hold a still ring of power-of-two
    capacity into which the producer has put NUL-free [text] from counter 0
    on, the first call notification for [TRUSTY_CALL_RETURNED] returns
    [NOTIFY_OK] with the lock free, prints the lines of [text] that the
    rate limiter lets through, cut behind every newline and every 255th
    byte, and leaves the cursor at the committed counter. *)
Theorem probe_then_call_notify h p dev r text w fuel :
  (trusty_log_probe h p []).1.2 = Some dev ->
  log_pages p = Some (frozen r) ->
  is_power_of_2 (u32 (r_sz r)) = true ->
  holds_text r 0 text ->
  Forall (fun x => x <> NUL) text ->
  (length text < fuel)%nat ->
  exists dev' w',
    trusty_log_call_notify h fuel (TRUSTY_CALL_RETURNED h) dev w
    = Some (NOTIFY_OK h, dev', w') /\
    lock dev' = false /\
    get (drain_state dev') = u32 (r_put r) /\
    map printed (klog w')
    = map printed (klog w)
      ++ passed (rate_limit w) (rl_calls w) (lines_255 text).
Proof.
  intros Hdev Hpages Hpow Htext Hnul Hfuel.
  destruct (probe_data h p dev Hdev) as (l & Hl & ->).
  rewrite Hpages in Hl. injection Hl as <-.
  destruct (trusty_dump_logs_still_lines r text (probed (frozen r)) w fuel
              Hpow eq_refl ltac:(cbn; lia) Htext Hfuel)
    as (s' & w' & bufs & Hrun & Hget' & _ & Hklog & Hbufs & _).
  change (set_log (probed (frozen r)) (frozen r)) with (probed (frozen r))
    in Hrun.
  unfold trusty_log_call_notify.
  rewrite Z.eqb_refl. cbn [negb lock drain_state]. rewrite Hrun.
  eexists _, _. split; [reflexivity |].
  cbn [lock drain_state]. split; [reflexivity |].
  split; [rewrite Hget'; symmetry; apply Htext |].
  rewrite Hklog, map_app. f_equal.
  rewrite map_map. cbn [printed].
  apply printed_lines; [exact Hbufs |].
  apply passed_Forall, Forall_lines.
  unfold lines_255. rewrite concat_cut_lines by lia. exact Hnul.
Qed.

Lemma probe_then_call_notify_witness :
  exists dev' w',
    trusty_log_call_notify sample_headers 4
      (TRUSTY_CALL_RETURNED sample_headers)
      {| drain_state := probed (frozen ring_hi); lock := false;
         log_pages_shared_mem_id := 5 |}
      (boot (fun _ => true))
    = Some (NOTIFY_OK sample_headers, dev', w') /\
    map printed (klog w') = [["h"; "i"; newline]%char].
Proof.
  destruct (probe_then_call_notify sample_headers
              (willing (frozen ring_hi) 5)
              {| drain_state := probed (frozen ring_hi); lock := false;
                 log_pages_shared_mem_id := 5 |}
              ring_hi ["h"; "i"; newline]%char (boot (fun _ => true)) 4)
    as (dev' & w' & Hrun & _ & _ & Hklog).
  - vm_compute. reflexivity.
  - reflexivity.
  - reflexivity.
  - repeat split; vm_compute; congruence.
  - repeat constructor; discriminate.
  - cbn. lia.
  - exists dev', w'. split; [exact Hrun | exact Hklog].
Defined.
